(** * english-game: the real-time simulation core of [main.py]

    A shallow embedding of the game loop, the Player movement model, the
    collision reactions, the Timer / Stopwatch clocks and the phase
    transitions, followed by the properties proved about them.

    Conventions of the embedding.
    - Python [float] (and [int] used as a number) is an exact rational [Q];
      rounding of binary floating point is not modelled.  Results on [Q] are
      stated up to [==] ([Qeq]).  The two statements that write the sight
      value are embedded a second time on binary64 floats ([Binary64]), to
      run the concrete scenarios with Python's arithmetic.
    - [int(e)] is truncation toward zero, [py_int].
    - pygame is the host library: [Rect] is a record of four integers,
      [Clock.tick] returns the next reading of an oracle of millisecond
      counts, and the calls the loop makes are recorded as a trace of steps.
    - Objects that are shared between rosters (the projectiles) live in a
      heap and the rosters hold references to them. *)

From Stdlib Require Import Floats.
From Stdlib Require Import String QArith ZArith List Bool Lia Lqa.
From Stdlib Require Import Qround Qabs.
Import ListNotations.

Set Warnings "-inexact-float".

Local Open Scope Q_scope.

(* ===================================================================== *)
(** * Part I: the program *)
(* ===================================================================== *)

(** ** Numbers *)

(** Python's [a < b] and [a <= b] on numbers. *)
Definition Qltb (a b : Q) : bool := negb (Qle_bool b a).
Definition Qleb (a b : Q) : bool := Qle_bool a b.

(** Python's [a != 0]. *)
Definition Qneqb (a b : Q) : bool := negb (Qeq_bool a b).

(** Python's [int(q)]: truncation toward zero. *)
Definition py_int (q : Q) : Z := Z.quot (Qnum q) (Zpos (Qden q)).

(** [ms / 1000] for the integer millisecond count returned by
    [pygame.time.Clock.tick]. *)
Definition seconds (ms : Z) : Q := inject_Z ms / 1000.

(** ** Module-level constants *)

Definition FPS : Z := 60.
Definition GAME_WIDTH : Q := 800.
Definition GAME_HEIGHT : Q := 600.

(** pygame key codes used by the program (constants of the host library). *)
Definition K_ESCAPE : Z := 27.
Definition K_a : Z := 97.
Definition K_d : Z := 100.
Definition K_s : Z := 115.
Definition K_w : Z := 119.

(** The snapshot returned by [pygame.key.get_pressed()]. *)
Definition Keys : Type := Z -> bool.

(** ** [pygame.rect.Rect] *)

Record Rect : Type := mkRect {
  rect_x : Z;
  rect_y : Z;
  rect_w : Z;
  rect_h : Z
}.

Definition rect_right (r : Rect) : Z := (rect_x r + rect_w r)%Z.
Definition rect_bottom (r : Rect) : Z := (rect_y r + rect_h r)%Z.


(** Modelled from the spec: [Rect.colliderect] belongs to pygame and is not
    in the source.  The specification describes it as the standard
    interval-overlap test on both axes, with zero-size rectangles never
    intersecting. *)
Definition colliderect (a b : Rect) : bool :=
  negb (rect_w a =? 0)%Z && negb (rect_h a =? 0)%Z &&
  negb (rect_w b =? 0)%Z && negb (rect_h b =? 0)%Z &&
  (Z.min (rect_x a) (rect_right a) <? Z.max (rect_x b) (rect_right b))%Z &&
  (Z.min (rect_y a) (rect_bottom a) <? Z.max (rect_y b) (rect_bottom b))%Z &&
  (Z.min (rect_x b) (rect_right b) <? Z.max (rect_x a) (rect_right a))%Z &&
  (Z.min (rect_y b) (rect_bottom b) <? Z.max (rect_y a) (rect_bottom a))%Z.

(** ** [class Vector] *)

Module Vector.

Record t : Type := mk { x : Q; y : Q }.

Definition add (self other : t) : t := mk (x self + x other) (y self + y other).
Definition sub (self other : t) : t := mk (x self - x other) (y self - y other).
Definition get_x_vector (self : t) : t := mk (x self) 0.
Definition get_y_vector (self : t) : t := mk 0 (y self).
Definition get_vector_as_tuple (self : t) : Q * Q := (x self, y self).
Definition set_x_vector (self : t) (v : Q) : t := mk v (y self).
Definition set_y_vector (self : t) (v : Q) : t := mk (x self) v.

End Vector.

(** ** [class Timer]

    The fields that only feed rendering ([font], [rendered_text],
    [position]) and the unused [time_elapsed] are left out.  The callback
    [on_end] is a closure over the caller's variables: [tick] reports in
    [fired] that its last statement [self.on_end()] runs, and the caller
    applies the closure to its own state. *)

Module Timer.

Record t : Type := mk { time : Q }.

Record ticked : Type := mkTicked {
  self' : t;          (* the Timer after [tick] *)
  paced : bool;       (* [self.fps_clock.tick(FPS)] was called *)
  fired : bool        (* [self.on_end()] was called *)
}.

(** [ms] is what [self.fps_clock.tick(FPS)] returns if it is called. *)
Definition tick (self : t) (ms : Z) : ticked :=
  let p := Qltb 0 (time self) in
  let self1 := if p then mk (time self - seconds ms) else self in
  mkTicked self1 p (Qleb (time self1) 0).

(** The same Timer object ticked once per clock reading, with a callback
    acting on a state of type [St] that leaves the Timer in place. *)
Fixpoint run {St : Type} (on_end : St -> St) (self : t) (s : St)
    (readings : list Z) : t * St :=
  match readings with
  | [] => (self, s)
  | ms :: rest =>
      let r := tick self ms in
      run on_end (self' r) (if fired r then on_end s else s) rest
  end.

(** The Timer after each tick of [run], with the [fired] flag of that
    tick. *)
Fixpoint history (self : t) (readings : list Z) : list (t * bool) :=
  match readings with
  | [] => []
  | ms :: rest =>
      let r := tick self ms in
      (self' r, fired r) :: history (self' r) rest
  end.

End Timer.

(** ** [class Stopwatch] *)

Module Stopwatch.

Record t : Type := mk { time : Q }.

(** [Stopwatch()] *)
Definition new : t := mk 0.

(** Always calls [self.fps_clock.tick(FPS)]. *)
Definition tick (self : t) (ms : Z) : t := mk (time self + seconds ms).

End Stopwatch.

(** ** The host and its effects

    Calls into pygame are effects on a [Host]: the clock oracle and its
    cursor, the input-event queue, and the trace of the steps the loop has
    taken.  Python exceptions abort the computation. *)

Inductive Exn : Type :=
| ValueError        (* [list.remove(x)]: x not in list *)
| KeyError          (* [dict[k]]: k absent *)
| IndexError        (* [list[i]]: i out of range *)
| AttributeError    (* method missing on the object's class *)
| ZeroDivisionError (* [a % 0] *)
| BadRef            (* a reference outside the heap: no Python run has it *)
| OutOfFuel.        (* a loop of the model ran out of fuel: no Python run has it *)

Inductive Result (A : Type) : Type :=
| Ok (a : A)
| Raise (e : Exn).
Arguments Ok {A} a.
Arguments Raise {A} e.

(** Entries of [pygame.event.get()]; only [event.type == pygame.QUIT] is
    inspected. *)
Inductive Event : Type := QUIT | OtherEvent.

Definition is_quit (e : Event) : bool :=
  match e with QUIT => true | OtherEvent => false end.

(** A reference to an object of the heap. *)
Definition ref : Type := nat.

(** What the rosters hold.  The Player is one object for the whole run;
    walls are identified by their position in [walls]. *)
Inductive Movable : Type := MPlayer | MObj (r : ref).
Inductive Drawable : Type := DPlayer | DObj (r : ref) | DWall (i : nat) | DEndZone.
Inductive Collidable : Type := CWall (i : nat) | CBullet (r : ref) | CEndZone.

Definition Movable_eqb (a b : Movable) : bool :=
  match a, b with
  | MPlayer, MPlayer => true
  | MObj r, MObj r' => Nat.eqb r r'
  | _, _ => false
  end.

Definition Drawable_eqb (a b : Drawable) : bool :=
  match a, b with
  | DPlayer, DPlayer => true
  | DObj r, DObj r' => Nat.eqb r r'
  | DWall i, DWall j => Nat.eqb i j
  | DEndZone, DEndZone => true
  | _, _ => false
  end.

(** The steps of a frame, in the order the loop takes them. *)
Inductive Step : Type :=
| SGetPressed                          (* [pygame.key.get_pressed()] *)
| SFill                                (* [game_window.fill(COLOR_BLACK)] *)
| SEventClear                          (* [pygame.event.clear()] *)
| SCheckQuit (quit : bool)             (* [check_quit(keys)] and its result *)
| SClockTick                           (* a blocking [Clock.tick(FPS)] *)
| SKeyMove                             (* [player.key_move(keys)] *)
| SMove (m : Movable)                  (* [moveable.move()] *)
| SDraw (d : Drawable)                 (* [drawable.draw(game_window)] *)
| SCollide (c : Collidable) (hit : bool) (* [player.is_colliding(c, ...)] *)
| SPrintEnd                            (* [print("End")] *)
| SDisplayUpdate.                      (* [pygame.display.update()] *)

Record Host : Type := mkHost {
  clock_feed : nat -> Z;     (* reading returned by the k-th [Clock.tick] call *)
  clock_calls : nat;         (* number of [Clock.tick] calls so far *)
  event_queue : list Event;
  trace : list Step
}.

Definition M (A : Type) : Type := Host -> Result (A * Host).

Definition ret {A : Type} (a : A) : M A := fun h => Ok (a, h).

Definition bind {A B : Type} (m : M A) (f : A -> M B) : M B :=
  fun h => match m h with
           | Ok (a, h') => f a h'
           | Raise e => Raise e
           end.

Definition raise {A : Type} (e : Exn) : M A := fun _ => Raise e.

Definition lift {A : Type} (r : Result A) : M A :=
  match r with Ok a => ret a | Raise e => raise e end.

Declare Scope game_scope.
Delimit Scope game_scope with game.
Notation "x <- m ;; k" := (bind m (fun x => k))
  (at level 61, m at next level, right associativity) : game_scope.
Notation "m ;; k" := (bind m (fun _ => k))
  (at level 61, right associativity) : game_scope.
Local Open Scope game_scope.

Definition log (s : Step) : M unit :=
  fun h => Ok (tt, mkHost (clock_feed h) (clock_calls h) (event_queue h) (trace h ++ [s])).

(** [Clock.tick(FPS)]: blocks, then returns the elapsed milliseconds. *)
Definition clock_tick : M Z :=
  fun h => Ok (clock_feed h (clock_calls h),
               mkHost (clock_feed h) (S (clock_calls h)) (event_queue h)
                      (trace h ++ [SClockTick])).

(** The reading the next [Clock.tick] call would return. *)
Definition next_reading (h : Host) : Z := clock_feed h (clock_calls h).

(** The window system posting events to the queue. *)
Definition post_events (evs : list Event) : M unit :=
  fun h => Ok (tt, mkHost (clock_feed h) (clock_calls h) (event_queue h ++ evs) (trace h)).

(** [pygame.event.clear()] *)
Definition event_clear : M unit :=
  fun h => Ok (tt, mkHost (clock_feed h) (clock_calls h) [] (trace h ++ [SEventClear])).

(** [pygame.event.get()] *)
Definition event_get : M (list Event) :=
  fun h => Ok (event_queue h, mkHost (clock_feed h) (clock_calls h) [] (trace h)).

(** A chain of Python [if c: x = f(x)] statements. *)
Definition when {A : Type} (c : bool) (f : A -> A) (a : A) : A :=
  if c then f a else a.

(** [l[i] = a] for [i] in range. *)
Fixpoint store {A : Type} (l : list A) (i : nat) (a : A) : list A :=
  match l, i with
  | [], _ => []
  | _ :: l', O => a :: l'
  | b :: l', S i' => b :: store l' i' a
  end.

(** [l.remove(x)]: drops the first item equal to [x]; [ValueError] when there
    is none. *)
Fixpoint remove_first {A : Type} (eqb : A -> A -> bool) (x : A) (l : list A)
    : Result (list A) :=
  match l with
  | [] => Raise ValueError
  | a :: l' =>
      if eqb a x then Ok l'
      else match remove_first eqb x l' with
           | Ok r => Ok (a :: r)
           | Raise e => Raise e
           end
  end.

(** [Timer.tick] against the host: the clock is read only when the source
    calls it. *)
Definition Timer_tick (self : Timer.t) : M (Timer.t * bool) :=
  fun h =>
    let r := Timer.tick self (next_reading h) in
    ((if Timer.paced r then clock_tick ;; ret tt else ret tt) ;;
     ret (Timer.self' r, Timer.fired r)) h.

Definition Stopwatch_tick (self : Stopwatch.t) : M Stopwatch.t :=
  ms <- clock_tick ;; ret (Stopwatch.tick self ms).

(** ** [class SpriteCycle]

    [sprites] is kept as the number of images of the cycle; [interval] is
    the value captured by the closure [interval_end]. *)

Module SpriteCycle.

Record t : Type := mk {
  sprites : nat;
  sprite_index : nat;
  interval : Q;
  interval_timer : Timer.t
}.

Definition new (n : nat) (interval : Q) : t :=
  mk n 0 interval (Timer.mk interval).

(** The closure [interval_end] of [__init__]. *)
Definition interval_end (self : t) : Result t :=
  match sprites self with
  | O => Raise ZeroDivisionError
  | S _ =>
      Ok (mk (sprites self) ((sprite_index self + 1) mod sprites self)
             (interval self) (Timer.mk (interval self)))
  end.

(** [draw]: [self.sprites[self.sprite_index].draw(...)], the look-up of
    the current sprite, which raises [IndexError] out of range.
    [Sprite.draw] itself is rendering and belongs to the host: it crops the
    sheet image with [image.subsurface(self.dimensions)], which pygame
    refuses with a [ValueError] when the image is narrower than the frames
    of the row; that error is not part of the model. *)
Definition draw (self : t) : Result unit :=
  if (sprite_index self <? sprites self)%nat then Ok tt else Raise IndexError.

(** [cycle.interval_timer.tick()] as called by [Player.draw]. *)
Definition tick (self : t) : M t :=
  r <- Timer_tick (interval_timer self) ;;
  let self1 := mk (sprites self) (sprite_index self) (interval self) (fst r) in
  if snd r then lift (interval_end self1) else ret self1.

End SpriteCycle.

(** ** [class SpriteSheet]

    [rows] is [y // self.sprite_y] for the height [y] of the loaded image.
    The dictionary [self.sprites] is an association list in insertion
    order. *)

Module SpriteSheet.

Definition t : Type := list (string * SpriteCycle.t).

Fixpoint build (rows : nat) (images_per_row : list nat)
    (cycle_names : list string) (cycle_times : list Q) : Result t :=
  match rows with
  | O => Ok []
  | S rows' =>
      match images_per_row, cycle_names, cycle_times with
      | n :: ns, name :: names, time :: times =>
          match build rows' ns names times with
          | Ok rest => Ok ((name, SpriteCycle.new n time) :: rest)
          | Raise e => Raise e
          end
      | _, _, _ => Raise IndexError
      end
  end.

Fixpoint get_image_cycle (self : t) (cycle_name : string)
    : Result SpriteCycle.t :=
  match self with
  | [] => Raise KeyError
  | (k, c) :: rest =>
      if String.eqb k cycle_name then Ok c else get_image_cycle rest cycle_name
  end.

End SpriteSheet.

(** [SpriteSheet.DEFAULT_TIME] *)
Definition DEFAULT_TIME : Q := 1 # 10.

(** [if not cycle_times: cycle_times = [self.DEFAULT_TIME] * len(cycle_names)],
    for the optional argument [cycle_times]: [None] and the empty list are
    both false. *)
Definition default_times (cycle_names : list string)
    (cycle_times : option (list Q)) : list Q :=
  match cycle_times with
  | None | Some [] => repeat DEFAULT_TIME (length cycle_names)
  | Some l => l
  end.

(** [SpriteSheet(path, sprite_x, sprite_y, images_per_row=...,
    cycle_names=..., cycle_times=...)] for an image of [rows] rows. *)
Definition SpriteSheet_init (rows : nat) (images_per_row : list nat)
    (cycle_names : list string) (cycle_times : option (list Q))
    : Result SpriteSheet.t :=
  SpriteSheet.build rows images_per_row cycle_names
    (default_times cycle_names cycle_times).

(** ** [class Player] *)

Module Player.

Definition MAX_SPEED : Q := 3.
Definition WIDTH : Z := 48.
Definition HEIGHT : Z := 48.
Definition FRICTION_VECTOR : Vector.t := Vector.mk (5 # 100) (5 # 100).

Inductive movement : Type := still | moving.

Record t : Type := mk {
  x : Q;
  y : Q;
  acceleration_vector : Vector.t;
  velocity_vector : Vector.t;
  _hitbox : Rect;
  sight : Q;
  show_sight : bool;
  is_playing_animation : bool;
  state : movement;
  sprites : SpriteSheet.t
}.

Definition set_position (self : t) (x' y' : Q) : t :=
  mk x' y' (acceleration_vector self) (velocity_vector self) (_hitbox self)
     (sight self) (show_sight self) (is_playing_animation self) (state self)
     (sprites self).

Definition set_velocity (self : t) (v : Vector.t) : t :=
  mk (x self) (y self) (acceleration_vector self) v (_hitbox self)
     (sight self) (show_sight self) (is_playing_animation self) (state self)
     (sprites self).

Definition set_hitbox (self : t) (r : Rect) : t :=
  mk (x self) (y self) (acceleration_vector self) (velocity_vector self) r
     (sight self) (show_sight self) (is_playing_animation self) (state self)
     (sprites self).

Definition set_sight (self : t) (s : Q) : t :=
  mk (x self) (y self) (acceleration_vector self) (velocity_vector self)
     (_hitbox self) s (show_sight self) (is_playing_animation self)
     (state self) (sprites self).

Definition set_show_sight (self : t) (b : bool) : t :=
  mk (x self) (y self) (acceleration_vector self) (velocity_vector self)
     (_hitbox self) (sight self) b (is_playing_animation self) (state self)
     (sprites self).

Definition set_is_playing_animation (self : t) (b : bool) : t :=
  mk (x self) (y self) (acceleration_vector self) (velocity_vector self)
     (_hitbox self) (sight self) (show_sight self) b (state self)
     (sprites self).

Definition set_state (self : t) (m : movement) : t :=
  mk (x self) (y self) (acceleration_vector self) (velocity_vector self)
     (_hitbox self) (sight self) (show_sight self)
     (is_playing_animation self) m (sprites self).

Definition set_sprites (self : t) (sh : SpriteSheet.t) : t :=
  mk (x self) (y self) (acceleration_vector self) (velocity_vector self)
     (_hitbox self) (sight self) (show_sight self)
     (is_playing_animation self) (state self) sh.

(** [pygame.rect.Rect(int(x - WIDTH / 2), int(y - HEIGHT / 2), WIDTH, HEIGHT)] *)
Definition hitbox_at (x y : Q) : Rect :=
  mkRect (py_int (x - inject_Z WIDTH / 2)) (py_int (y - inject_Z HEIGHT / 2))
         WIDTH HEIGHT.

(** [Player(x, y, acceleration_vector)]; [rows] is the number of rows of
    the character sheet, [y // 32] for the height of the loaded image. *)
Definition new (x y : Q) (acceleration_vector : Vector.t) (rows : nat)
    : Result t :=
  match SpriteSheet.build rows
          [2; 2; 4; 8; 6; 8; 3; 8; 8]%nat
          ["stand"; "blink"; "walk"; "sprint"; "crouch"; "jump"; "fade";
           "death"; "attack"]%string
          [1; 1 # 10; 1 # 10; 1 # 10; 1 # 10; 1 # 10; 1 # 10; 1 # 10; 1 # 10]
  with
  | Ok sheet =>
      Ok (mk x y acceleration_vector (Vector.mk 0 0) (hitbox_at x y)
             0 false true still sheet)
  | Raise e => Raise e
  end.

(** [key_move], lines in source order: the four key tests, *)
Definition accelerate (acc : Vector.t) (keys : Keys) (v : Vector.t) : Vector.t :=
  let v := when (keys K_w) (fun v => Vector.sub v (Vector.get_y_vector acc)) v in
  let v := when (keys K_s) (fun v => Vector.add v (Vector.get_y_vector acc)) v in
  let v := when (keys K_a) (fun v => Vector.sub v (Vector.get_x_vector acc)) v in
  when (keys K_d) (fun v => Vector.add v (Vector.get_x_vector acc)) v.

(** the four tests against [MAX_SPEED], on the unpacked
    [velocity_x, velocity_y], *)
Definition clamp (velocity_x velocity_y : Q) (v : Vector.t) : Vector.t :=
  let v := when (Qltb MAX_SPEED velocity_x)
             (fun v => Vector.set_x_vector v MAX_SPEED) v in
  let v := when (Qltb velocity_x (- MAX_SPEED))
             (fun v => Vector.set_x_vector v (- MAX_SPEED)) v in
  let v := when (Qltb MAX_SPEED velocity_y)
             (fun v => Vector.set_y_vector v MAX_SPEED) v in
  when (Qltb velocity_y (- MAX_SPEED))
       (fun v => Vector.set_y_vector v (- MAX_SPEED)) v.

(** the four friction tests, on the same unpacked values, *)
Definition friction (velocity_x velocity_y : Q) (v : Vector.t) : Vector.t :=
  let v := when (Qltb 0 velocity_x)
             (fun v => Vector.sub v (Vector.get_x_vector FRICTION_VECTOR)) v in
  let v := when (Qltb 0 velocity_y)
             (fun v => Vector.sub v (Vector.get_y_vector FRICTION_VECTOR)) v in
  let v := when (Qltb velocity_x 0)
             (fun v => Vector.add v (Vector.get_x_vector FRICTION_VECTOR)) v in
  when (Qltb velocity_y 0)
       (fun v => Vector.add v (Vector.get_y_vector FRICTION_VECTOR)) v.

(** the two snaps to zero, on the current velocity, *)
Definition deadband (v : Vector.t) : Vector.t :=
  let v := when (Qltb (- (5 # 100)) (Vector.x v) && Qltb (Vector.x v) (5 # 100))
             (fun v => Vector.set_x_vector v 0) v in
  when (Qltb (- (5 # 100)) (Vector.y v) && Qltb (Vector.y v) (5 # 100))
       (fun v => Vector.set_y_vector v 0) v.

(** and the movement state. *)
Definition key_move (self : t) (keys : Keys) : t :=
  let v := accelerate (acceleration_vector self) keys (velocity_vector self) in
  let '(velocity_x, velocity_y) := Vector.get_vector_as_tuple v in
  let v := clamp velocity_x velocity_y v in
  let v := friction velocity_x velocity_y v in
  let v := deadband v in
  let self := set_velocity self v in
  let self := set_state self still in
  when (Qneqb velocity_x 0 || Qneqb velocity_y 0)
       (fun self => set_state self moving) self.

Definition move (self : t) : t :=
  let '(velocity_x, velocity_y) :=
    Vector.get_vector_as_tuple (velocity_vector self) in
  let x := x self + velocity_x in
  let y := y self + velocity_y in
  let x := when (Qltb x (inject_Z WIDTH / 2)) (fun _ => inject_Z WIDTH / 2) x in
  let x := when (Qltb (GAME_WIDTH - inject_Z WIDTH / 2) x)
             (fun _ => GAME_WIDTH - inject_Z WIDTH / 2) x in
  let y := when (Qltb y (inject_Z HEIGHT / 2)) (fun _ => inject_Z HEIGHT / 2) y in
  let y := when (Qltb (GAME_HEIGHT - inject_Z HEIGHT / 2) y)
             (fun _ => GAME_HEIGHT - inject_Z HEIGHT / 2) y in
  set_hitbox (set_position self x y) (hitbox_at x y).

(** The sight animation of [draw]:
    [if self.sight < 1 and self.is_playing_animation: ... elif ...]. *)
Definition animate_sight (self : t) : t :=
  if Qltb (sight self) 1 && is_playing_animation self then
    set_sight self (sight self + (2 # 100))
  else if Qleb 1 (sight self) && is_playing_animation self then
    set_is_playing_animation (set_sight self 1) false
  else self.

(** [for cycle in self.sprites.sprites.values(): cycle.interval_timer.tick()] *)
Fixpoint tick_cycles (sheet : SpriteSheet.t) : M SpriteSheet.t :=
  match sheet with
  | [] => ret []
  | (name, cycle) :: rest =>
      cycle' <- SpriteCycle.tick cycle ;;
      rest' <- tick_cycles rest ;;
      ret ((name, cycle') :: rest')
  end.

(** [draw]: the calls that only render (clip, circle, blit) are left out;
    the look-up of the image cycle and of its current sprite are kept
    because they can raise. *)
Definition draw (self : t) : M t :=
  sheet <- tick_cycles (sprites self) ;;
  let self := set_sprites self sheet in
  let self := animate_sight self in
  let image_cycle :=
    match state self with
    | moving => "sprint"%string
    | still => "stand"%string
    end in
  cycle <- lift (SpriteSheet.get_image_cycle (sprites self) image_cycle) ;;
  lift (SpriteCycle.draw cycle) ;;
  ret self.

Definition hitbox (self : t) : Rect := _hitbox self.

End Player.

(** ** [class TextBullet]

    [text] is the index of the payload in [TEXTS]; [text_size] is
    [self.text_render.get_size()], fixed when the text is rendered. *)

Module TextBullet.

Record t : Type := mk {
  y : Q;
  text : nat;
  movement_vector : Vector.t;
  text_size : Z * Z;
  x : Q;
  _hitbox : Rect
}.

Definition hitbox_at (x y : Q) (size : Z * Z) : Rect :=
  let '(text_width, text_height) := size in
  mkRect (py_int (x - inject_Z text_width / 2))
         (py_int (y - inject_Z text_height / 2))
         text_width text_height.

(** [TextBullet(y, text, movement_vector)], with the size of the rendered
    text supplied by the font. *)
Definition new (y : Z) (text : nat) (movement_vector : Vector.t)
    (size : Z * Z) : t :=
  let x := - (inject_Z (fst size) / 2) in
  mk (inject_Z y) text movement_vector size x (hitbox_at x (inject_Z y) size).

Definition move (self : t) : t :=
  let '(velocity_x, velocity_y) :=
    Vector.get_vector_as_tuple (movement_vector self) in
  let x := x self + velocity_x in
  let y := y self + velocity_y in
  mk y (text self) (movement_vector self) (text_size self) x
     (hitbox_at x y (text_size self)).

Definition hitbox (self : t) : Rect := _hitbox self.

End TextBullet.

(** ** [class Wall] and [class EndZone] *)

Module Wall.

Record t : Type := mk { x : Z; y : Z; width : Z; height : Z }.

Definition hitbox (self : t) : Rect :=
  mkRect (x self) (y self) (width self) (height self).

End Wall.

Module EndZone.

Record t : Type := mk { x : Z; y : Z; width : Z; height : Z }.

Definition hitbox (self : t) : Rect :=
  mkRect (x self) (y self) (width self) (height self).

End EndZone.

(** ** [main]: the variables of the loop

    [timer] is bound first to the 20-second Timer and later to a Stopwatch,
    and the same object sits in [drawables]: both are references into the
    heap, as are the projectiles, which [bullets], [drawables] and
    [movables] share.  [bullet_timer] is held by that variable alone.  The
    callback of a Timer is fixed by the variable that holds it:
    [change_state] for [timer], [spawn_bullet] for [bullet_timer]. *)

Inductive Obj : Type :=
| OBullet (b : TextBullet.t)
| OTimer (t : Timer.t)
| OStopwatch (s : Stopwatch.t).

Record Vars : Type := mkVars {
  game_state : option Z;
  player : Player.t;
  timer : ref;
  bullet_timer : Timer.t;
  bullets : list ref;
  drawables : list Drawable;
  movables : list Movable;
  heap : list Obj
}.

Definition set_game_state (v : Vars) (g : option Z) : Vars :=
  mkVars g (player v) (timer v) (bullet_timer v) (bullets v) (drawables v)
         (movables v) (heap v).

Definition set_player (v : Vars) (p : Player.t) : Vars :=
  mkVars (game_state v) p (timer v) (bullet_timer v) (bullets v) (drawables v)
         (movables v) (heap v).

Definition set_heap (v : Vars) (h : list Obj) : Vars :=
  mkVars (game_state v) (player v) (timer v) (bullet_timer v) (bullets v)
         (drawables v) (movables v) h.

Definition game_state_is (v : Vars) (n : Z) : bool :=
  match game_state v with
  | Some k => (k =? n)%Z
  | None => false
  end.

Definition end_zone : EndZone.t := EndZone.mk 600 520 80 140.

Definition walls : list Wall.t := [
  Wall.mk 0 100 200 20;
  Wall.mk 200 100 20 100;
  Wall.mk 120 200 100 20;
  Wall.mk 300 100 200 20;
  Wall.mk 300 180 200 20;
  Wall.mk 300 180 20 120;
  Wall.mk 500 100 20 100;
  Wall.mk 600 100 200 20;
  Wall.mk 40 100 20 120;
  Wall.mk 0 280 220 20;
  Wall.mk 100 380 220 20;
  Wall.mk 100 380 20 100;
  Wall.mk 100 480 100 20;
  Wall.mk 0 380 40 20;
  Wall.mk 0 450 40 20;
  Wall.mk 100 560 20 100;
  Wall.mk 100 560 100 20;
  Wall.mk 100 560 100 20;
  Wall.mk 300 400 20 120;
  Wall.mk 380 480 20 120;
  Wall.mk 460 380 20 220;
  Wall.mk 300 380 180 20;
  Wall.mk 300 280 180 20;
  Wall.mk 500 180 240 20;
  Wall.mk 500 180 240 20;
  Wall.mk 580 180 20 140;
  Wall.mk 580 180 20 180;
  Wall.mk 680 260 140 20;
  Wall.mk 580 340 100 20;
  Wall.mk 580 440 100 20;
  Wall.mk 580 440 20 180;
  Wall.mk 680 340 20 120;
  Wall.mk 680 520 20 140
]%Z.

(** [[*walls]] as entries of a roster. *)
Definition wall_drawables : list Drawable := map DWall (seq 0 (length walls)).

(** What one frame takes from outside the program. *)
Record Spawn : Type := mkSpawn {
  spawn_lane : Z;          (* [randint(20, GAME_HEIGHT - 20)] *)
  spawn_text : nat;        (* [choice(TEXTS)], as an index *)
  spawn_speed : Q;         (* [uniform(1.5, 2.5)] *)
  spawn_size : Z * Z       (* size of the rendered text *)
}.

Record Input : Type := mkInput {
  keys : Keys;                   (* [pygame.key.get_pressed()] *)
  posted : list Event;           (* events posted before [pygame.event.clear()] *)
  posted_late : list Event;      (* events posted between clear() and get() *)
  spawn : Spawn                  (* the draws of [spawn_bullet], if it runs *)
}.

(** *** The closures of [main] *)

Definition on_state_change (v : Vars) : Vars :=
  let r := length (heap v) in                  (* timer = Stopwatch() *)
  let heap' := heap v ++ [OStopwatch Stopwatch.new] in
  let p := Player.set_show_sight (player v) true in
  let p := Player.set_position p 50 50 in
  mkVars (game_state v) p r (bullet_timer v)
         []                                     (* bullets.clear() *)
         ([DPlayer] ++ wall_drawables ++ [DEndZone; DObj r])
         [MPlayer]
         heap'.

Definition change_state (v : Vars) : Vars :=
  on_state_change (set_game_state v (Some 2%Z)).

Definition spawn_bullet (s : Spawn) (v : Vars) : Vars :=
  let b := TextBullet.new (spawn_lane s) (spawn_text s)
             (Vector.mk (spawn_speed s) 0) (spawn_size s) in
  let r := length (heap v) in
  mkVars (game_state v) (player v) (timer v)
         (Timer.mk (25 # 100))                  (* bullet_timer = Timer(0.25, ...) *)
         (bullets v ++ [r])
         (drawables v ++ [DObj r])
         (movables v ++ [MObj r])
         (heap v ++ [OBullet b]).

(** [if user.sight >= 0.1: user.sight -= 0.05] *)
Definition hit_sight (user : Player.t) : Player.t :=
  when (Qleb (1 # 10) (Player.sight user))
       (fun u => Player.set_sight u (Player.sight u - (5 # 100))) user.

Definition on_player_bullet_collide (bullet : ref) (v : Vars) : Result Vars :=
  match remove_first Nat.eqb bullet (bullets v) with
  | Raise e => Raise e
  | Ok bullets' =>
    match remove_first Movable_eqb (MObj bullet) (movables v) with
    | Raise e => Raise e
    | Ok movables' =>
      match remove_first Drawable_eqb (DObj bullet) (drawables v) with
      | Raise e => Raise e
      | Ok drawables' =>
          Ok (mkVars (game_state v) (hit_sight (player v)) (timer v)
                     (bullet_timer v) bullets' drawables' movables' (heap v))
      end
    end
  end.

Definition on_player_wall_collide (v : Vars) : Vars :=
  let user := Player.set_position (player v) 50 50 in
  set_player v (Player.set_velocity user (Vector.mk 0 0)).

Definition on_player_end_collide (v : Vars) : Vars :=
  set_game_state v (Some 3%Z).

(** *** [check_quit] *)

Definition check_quit (keys : Keys) (late : list Event) : M bool :=
  if keys K_ESCAPE then ret true
  else
    post_events late ;;
    events <- event_get ;;
    ret (existsb is_quit events).

(** *** The steps of the loop body *)

(** [timer.tick()], dispatched on the class of the object. *)
Definition tick_timer (v : Vars) : M Vars :=
  match nth_error (heap v) (timer v) with
  | Some (OTimer t) =>
      r <- Timer_tick t ;;
      let v := set_heap v (store (heap v) (timer v) (OTimer (fst r))) in
      ret (if snd r then change_state v else v)
  | Some (OStopwatch s) =>
      s' <- Stopwatch_tick s ;;
      ret (set_heap v (store (heap v) (timer v) (OStopwatch s')))
  | Some (OBullet _) => raise AttributeError
  | None => raise BadRef
  end.

(** [bullet_timer.tick()] *)
Definition tick_bullet_timer (s : Spawn) (v : Vars) : M Vars :=
  r <- Timer_tick (bullet_timer v) ;;
  let v := mkVars (game_state v) (player v) (timer v) (fst r) (bullets v)
                  (drawables v) (movables v) (heap v) in
  ret (if snd r then spawn_bullet s v else v).

(** A Python [for a in seq: body] over a list that the body may change:
    the iterator holds an index and stops when it passes the end. *)
Fixpoint py_for {A : Type} (fuel : nat) (seq : Vars -> list A)
    (body : A -> Vars -> M Vars) (i : nat) (v : Vars) : M Vars :=
  match nth_error (seq v) i with
  | None => ret v
  | Some a =>
      match fuel with
      | O => raise OutOfFuel
      | S fuel' =>
          v' <- body a v ;;
          py_for fuel' seq body (S i) v'
      end
  end.

(** [player.is_colliding(wall, on_player_wall_collide)] *)
Definition collide_wall (i : nat) (v : Vars) : M Vars :=
  match nth_error walls i with
  | None => raise BadRef
  | Some wall =>
      let hit := colliderect (Player.hitbox (player v)) (Wall.hitbox wall) in
      log (SCollide (CWall i) hit) ;;
      ret (if hit then on_player_wall_collide v else v)
  end.

(** [moveable.move()] *)
Definition move_one (m : Movable) (v : Vars) : M Vars :=
  log (SMove m) ;;
  match m with
  | MPlayer => ret (set_player v (Player.move (player v)))
  | MObj r =>
      match nth_error (heap v) r with
      | Some (OBullet b) =>
          ret (set_heap v (store (heap v) r (OBullet (TextBullet.move b))))
      | Some _ => raise AttributeError
      | None => raise BadRef
      end
  end.

(** [drawable.draw(game_window)]; every class but Player only renders. *)
Definition draw_one (d : Drawable) (v : Vars) : M Vars :=
  log (SDraw d) ;;
  match d with
  | DPlayer => p <- Player.draw (player v) ;; ret (set_player v p)
  | DObj r =>
      match nth_error (heap v) r with
      | Some _ => ret v
      | None => raise BadRef
      end
  | DWall i =>
      match nth_error walls i with
      | Some _ => ret v
      | None => raise BadRef
      end
  | DEndZone => ret v
  end.

(** [player.is_colliding(bullet, on_player_bullet_collide)] *)
Definition collide_bullet (r : ref) (v : Vars) : M Vars :=
  match nth_error (heap v) r with
  | Some (OBullet b) =>
      let hit := colliderect (Player.hitbox (player v)) (TextBullet.hitbox b) in
      log (SCollide (CBullet r) hit) ;;
      if hit then lift (on_player_bullet_collide r v) else ret v
  | Some _ => raise AttributeError
  | None => raise BadRef
  end.

(** [player.is_colliding(end_zone, on_player_end_collide)] *)
Definition collide_end_zone (v : Vars) : M Vars :=
  let hit := colliderect (Player.hitbox (player v)) (EndZone.hitbox end_zone) in
  log (SCollide CEndZone hit) ;;
  ret (if hit then on_player_end_collide v else v).

(** [for bullet in bullets: player.is_colliding(bullet, ...)] *)
Definition collide_bullets (v : Vars) : M Vars :=
  py_for (length (bullets v)) bullets collide_bullet 0 v.

(** *** One iteration of [while game_state is not None] *)

Definition frame (inp : Input) (v : Vars) : M Vars :=
  post_events (posted inp) ;;
  log SGetPressed ;;
  log SFill ;;
  event_clear ;;
  quit <- check_quit (keys inp) (posted_late inp) ;;
  log (SCheckQuit quit) ;;
  let v := if quit then set_game_state v None else v in
  v <- tick_timer v ;;
  v <- (if game_state_is v 1 then tick_bullet_timer (spawn inp) v else ret v) ;;
  v <- (if game_state_is v 2
        then py_for (length walls) (fun _ => seq 0 (length walls)) collide_wall 0 v
        else ret v) ;;
  log SKeyMove ;;
  let v := set_player v (Player.key_move (player v) (keys inp)) in
  v <- py_for (length (movables v)) movables move_one 0 v ;;
  v <- py_for (length (drawables v)) drawables draw_one 0 v ;;
  v <- collide_bullets v ;;
  v <- (if game_state_is v 2 then collide_end_zone v else ret v) ;;
  v <- (if game_state_is v 3
        then log SPrintEnd ;; ret (set_game_state v None)
        else ret v) ;;
  log SDisplayUpdate ;;
  ret v.

(** The state of [main] when the loop is entered. *)
Definition init (rows : nat) : Result Vars :=
  match Player.new 200 200 (Vector.mk (25 # 100) (25 # 100)) rows with
  | Raise e => Raise e
  | Ok player =>
      Ok (mkVars (Some 1%Z) player 0%nat (Timer.mk 2) [] [DPlayer; DObj 0%nat]
                 [MPlayer] [OTimer (Timer.mk 20)])
  end.

(** [while game_state is not None: ...], one frame per input. *)
Fixpoint main_loop (inputs : list Input) (v : Vars) : M Vars :=
  match inputs with
  | [] => ret v
  | inp :: rest =>
      match game_state v with
      | None => ret v
      | Some _ => v' <- frame inp v ;; main_loop rest v'
      end
  end.

(** A host that has taken no step yet. *)
Definition host0 (feed : nat -> Z) : Host := mkHost feed 0 [] [].

(** ** The sight value under draws and hits

    The two statements of the program that write [sight], as operations on
    the Player. *)

Inductive SightOp : Type :=
| OpDraw      (* the sight animation of [Player.draw] *)
| OpHit.      (* the sight update of [on_player_bullet_collide] *)

Definition sight_step (p : Player.t) (op : SightOp) : Player.t :=
  match op with
  | OpDraw => Player.animate_sight p
  | OpHit => hit_sight p
  end.

Definition sight_run (ops : list SightOp) (p : Player.t) : Player.t :=
  fold_left sight_step ops p.

(** ** The sight value on binary64 floats

    The same two statements as [Player.animate_sight] and [hit_sight], on
    the floats Python computes with; [sight] starts as the integer 0. *)

Module Binary64.

Definition animate_sight (st : float * bool) : float * bool :=
  let '(sight, is_playing_animation) := st in
  if PrimFloat.ltb sight 1 && is_playing_animation then
    (PrimFloat.add sight 0.02, is_playing_animation)
  else if PrimFloat.leb 1 sight && is_playing_animation then
    (1%float, false)
  else st.

Definition hit_sight (sight : float) : float :=
  if PrimFloat.leb 0.1 sight then PrimFloat.sub sight 0.05 else sight.

Definition sight_step (st : float * bool) (op : SightOp) : float * bool :=
  match op with
  | OpDraw => animate_sight st
  | OpHit => (hit_sight (fst st), snd st)
  end.

Definition sight_run (ops : list SightOp) (st : float * bool) : float * bool :=
  fold_left sight_step ops st.

End Binary64.

(** ** Vocabulary of the statements *)

(** A rectangle inside the playfield [[0,800] x [0,600]]. *)
Definition in_playfield (r : Rect) : Prop :=
  (0 <= rect_x r /\ rect_right r <= 800 /\ 0 <= rect_y r /\ rect_bottom r <= 600)%Z.

(** Remaining times that never go up from one tick to the next. *)
Fixpoint non_increasing (l : list Q) : Prop :=
  match l with
  | a :: (b :: _) as rest => b <= a /\ non_increasing rest
  | _ => True
  end.

(** The remaining times of a Timer: before the first tick, then after each. *)
Definition remaining (self : Timer.t) (readings : list Z) : list Q :=
  Timer.time self :: map (fun e => Timer.time (fst e)) (Timer.history self readings).

(** The blocking pacing calls among the steps of a trace. *)
Definition is_tick (s : Step) : bool :=
  match s with SClockTick => true | _ => false end.

Definition pacing_calls (tr : list Step) : nat := length (filter is_tick tr).

(** [h'] is [h] after the steps [tr]: same oracle, the trace grown by [tr],
    and the clock cursor advanced by the pacing calls of [tr]. *)
Definition steps (h h' : Host) (tr : list Step) : Prop :=
  clock_feed h' = clock_feed h /\
  trace h' = trace h ++ tr /\
  clock_calls h' = (clock_calls h + pacing_calls tr)%nat.

(** Total correctness of a computation from host [h]: it returns, without
    raising, a value and the steps taken that satisfy [Q]. *)
Definition runs {A : Type} (m : M A) (h : Host) (Q : A -> list Step -> Prop)
    : Prop :=
  exists (a : A) (h' : Host) (tr : list Step),
    m h = Ok (a, h') /\ steps h h' tr /\ Q a tr.

(** *** Well-formed states of the loop *)

Definition is_bullet (hp : list Obj) (r : ref) : Prop :=
  exists b, nth_error hp r = Some (OBullet b).

(** The object bound to [timer]: a Stopwatch, or a Timer still running. *)
Definition is_clock (hp : list Obj) (r : ref) : Prop :=
  match nth_error hp r with
  | Some (OTimer t) => 0 < Timer.time t
  | Some (OStopwatch _) => True
  | _ => False
  end.

Definition drawable_ok (hp : list Obj) (d : Drawable) : Prop :=
  match d with
  | DObj r => (r < length hp)%nat
  | DWall i => (i < length walls)%nat
  | _ => True
  end.

Record wf_rosters (v : Vars) : Prop := mk_wf_rosters {
  wr_timer : is_clock (heap v) (timer v);
  wr_bullets : forall r, In r (bullets v) ->
                 In (MObj r) (movables v) /\ In (DObj r) (drawables v);
  wr_movables : forall r, In (MObj r) (movables v) -> is_bullet (heap v) r;
  wr_drawables : forall d, In d (drawables v) -> drawable_ok (heap v) d;
  wr_nodup_bullets : NoDup (bullets v);
  wr_nodup_movables : NoDup (movables v);
  wr_nodup_drawables : NoDup (drawables v);
  wr_player_moves : In MPlayer (movables v);
  wr_player_drawn : In DPlayer (drawables v)
}.

Definition cycle_ok (c : SpriteCycle.t) : Prop :=
  0 < SpriteCycle.interval c /\
  0 < Timer.time (SpriteCycle.interval_timer c) /\
  (SpriteCycle.sprite_index c < SpriteCycle.sprites c)%nat.

Definition sheet_ok (n : nat) (sheet : SpriteSheet.t) : Prop :=
  length sheet = n /\
  Forall (fun e => cycle_ok (snd e)) sheet /\
  In "stand"%string (map fst sheet) /\
  In "sprint"%string (map fst sheet).

(** The range of the sight value. *)
Definition sight_ok (p : Player.t) : Prop :=
  0 <= Player.sight p /\ Player.sight p < 102 # 100 /\
  (Player.is_playing_animation p = false -> Player.sight p <= 1).

Record wf_player (n : nat) (p : Player.t) : Prop := mk_wf_player {
  wp_sheet : sheet_ok n (Player.sprites p);
  wp_sight : sight_ok p;
  wp_width : rect_w (Player.hitbox p) = 48%Z;
  wp_height : rect_h (Player.hitbox p) = 48%Z;
  wp_inside : in_playfield (Player.hitbox p)
}.

(** The invariant of every step of the loop, for a Player with [n]
    animation cycles. *)
Definition wf (n : nat) (v : Vars) : Prop :=
  wf_rosters v /\ wf_player n (player v) /\ 0 < Timer.time (bullet_timer v).

(** The hitbox is the one computed from the current position, and the
    position is inside the band [move] cuts to. *)
Definition synced (p : Player.t) : Prop :=
  Player.hitbox p = Player.hitbox_at (Player.x p) (Player.y p) /\
  24 <= Player.x p <= 776 /\ 24 <= Player.y p <= 576.

Definition is_collide (s : Step) : Prop :=
  match s with SCollide _ _ => True | _ => False end.

(** The trace of a loop, one chunk of steps per item visited. *)
Inductive chunks {A : Type} (T : A -> list Step -> Prop)
    : list A -> list Step -> Prop :=
| chunks_nil : chunks T [] []
| chunks_cons a l t tr :
    T a t -> chunks T l tr -> chunks T (a :: l) (t ++ tr).

(** *** Runs of the program *)

(** The states the loop can be in when its condition is evaluated: those
    [main_loop] reaches from the start state, for some clock readings and
    some inputs.  [rows] is the number of rows of the character sheet. *)
Definition reachable (rows : nat) (v : Vars) (h : Host) : Prop :=
  exists (v0 : Vars) (feed : nat -> Z) (inputs : list Input),
    init rows = Ok v0 /\ main_loop inputs v0 (host0 feed) = Ok (v, h).

(** The value of a result that is known to be [Ok]. *)
Definition result_get {A : Type} (r : Result A)
    : match r with Ok _ => A | Raise _ => unit end :=
  match r with Ok a => a | Raise _ => tt end.

(** The start state for the nine-row character sheet of the tables in
    [Player.__init__]. *)
Definition start : Vars := result_get (init 9).

(** Inputs of the examples. *)
Definition no_keys : Keys := fun _ => false.
Definition only_key (k : Z) : Keys := fun k' => (k' =? k)%Z.
Definition spawn0 : Spawn := mkSpawn 200 0 2 (100, 14)%Z.
Definition idle : Input := mkInput no_keys [] [] spawn0.
Definition holding (k : Z) : Input := mkInput (only_key k) [] [] spawn0.
Definition feed16 : nat -> Z := fun _ => 16%Z.

(** A projectile after [frames] calls of [move]. *)
Definition flown (frames : nat) (b : TextBullet.t) : TextBullet.t :=
  Nat.iter frames TextBullet.move b.

(** A state in which one projectile, spawned in the lane of the Player and
    moved a hundred times, overlaps the Player, whose sight is 0.5. *)
Definition hit_scene : Vars :=
  let v := spawn_bullet spawn0 start in
  let b := flown 100 (TextBullet.new 200 0 (Vector.mk 2 0) (100, 14)%Z) in
  let v := set_heap v (store (heap v) 1%nat (OBullet b)) in
  set_player v (Player.set_sight (player v) (5 # 10)).

(** A run of 78 frames at 250 ms per clock reading, in which the spawn
    Timer fires on every frame from the eighth on: every projectile is
    spawned in lane 169, whose text box ends where the hitbox of the Player
    at (200, 200) begins, at speed 2.5, and the Player stands still. *)
Definition lane169 : Spawn := mkSpawn 169 0 (5 # 2) (100, 14)%Z.
Definition feed250 : nat -> Z := fun _ => 250%Z.
Definition stand_by_lane : list Input :=
  repeat (mkInput no_keys [] [] lane169) 78.

Definition is_collide_step (s : Step) : bool :=
  match s with SCollide _ _ => true | _ => false end.

(** The host with an empty trace, to read the steps of the next frame
    alone. *)
Definition forget_trace (h : Host) : Host :=
  mkHost (clock_feed h) (clock_calls h) (event_queue h) [].

(** *** Further vocabulary: the classes *)



(** [key_move] called once per key snapshot. *)
Definition key_moves (ks : list Keys) (p : Player.t) : Player.t :=
  fold_left Player.key_move ks p.

(** A snapshot with none of W, A, S, D held. *)
Definition released (k : Keys) : Prop :=
  k K_w = false /\ k K_s = false /\ k K_a = false /\ k K_d = false.

(** What [key_move] does to a velocity once the keys are taken into
    account: the clamp, the friction and the dead band. *)
Definition settle (v : Vector.t) : Vector.t :=
  Player.deadband (Player.friction (Vector.x v) (Vector.y v)
                     (Player.clamp (Vector.x v) (Vector.y v) v)).

(** The keys that are left when each pair of opposite keys held together
    is taken away. *)
Definition net_keys (keys : Keys) : Keys :=
  fun k =>
    if (k =? K_w)%Z then keys K_w && negb (keys K_s)
    else if (k =? K_s)%Z then keys K_s && negb (keys K_w)
    else if (k =? K_a)%Z then keys K_a && negb (keys K_d)
    else if (k =? K_d)%Z then keys K_d && negb (keys K_a)
    else keys k.

(** *** Further vocabulary: the loop *)

(** The rosters of phase 1: the Player, the countdown Timer, and the
    projectiles, the same ones in the same order in all three lists. *)
Definition countdown_rosters (v : Vars) : Prop :=
  (exists t, nth_error (heap v) (timer v) = Some (OTimer t)) /\
  movables v = MPlayer :: map MObj (bullets v) /\
  drawables v = DPlayer :: DObj (timer v) :: map DObj (bullets v).

(** The rosters of phase 2: no projectile; the Player, the walls, the goal
    zone and the Stopwatch. *)
Definition navigation_rosters (v : Vars) : Prop :=
  (exists s, nth_error (heap v) (timer v) = Some (OStopwatch s)) /\
  bullets v = [] /\
  movables v = [MPlayer] /\
  drawables v = [DPlayer] ++ wall_drawables ++ [DEndZone; DObj (timer v)].

(** The states of the loop at its test: the rosters are those of the
    phase. *)
Definition phased (v : Vars) : Prop :=
  (game_state v = Some 1%Z /\ countdown_rosters v) \/
  (game_state v = Some 2%Z /\ navigation_rosters v) \/
  (game_state v = None /\ (countdown_rosters v \/ navigation_rosters v)).

(** The objects the Player was tested against, in the order of the tests. *)
Definition checked (tr : list Step) : list Collidable :=
  flat_map (fun s => match s with SCollide c _ => [c] | _ => [] end) tr.

Definition is_bullet_check (c : Collidable) : Prop :=
  match c with CBullet _ => True | _ => False end.

(** The steps of ticking, moving and drawing. *)
Definition routine (s : Step) : Prop :=
  match s with SClockTick | SMove _ | SDraw _ => True | _ => False end.

(** Some wall overlaps the rectangle. *)
Definition touches_wall (r : Rect) : bool :=
  existsb (fun w => colliderect r (Wall.hitbox w)) walls.

(** Two states of the loop that differ at most in the Player. *)
Definition only_player (v v' : Vars) : Prop :=
  game_state v' = game_state v /\ timer v' = timer v /\
  bullet_timer v' = bullet_timer v /\ bullets v' = bullets v /\
  drawables v' = drawables v /\ movables v' = movables v /\ heap v' = heap v.

(** Two states of the Player at the same place, with the same velocity. *)
Definition same_place (p p' : Player.t) : Prop :=
  Player.x p' = Player.x p /\ Player.y p' = Player.y p /\
  Player.velocity_vector p' = Player.velocity_vector p /\
  Player.hitbox p' = Player.hitbox p.

(** States of the examples.  [navigating]: the start state after one frame
    whose clock readings are 20 s each, which ends the countdown.
    [at_a_wall]: the same run followed by seventeen frames with S held, at
    the end of which the hitbox of the Player overlaps the wall at
    (0, 100).  [with_projectile]: nine frames at 250 ms per reading, by
    which the spawn Timer has fired. *)
Definition feed20s : nat -> Z := fun _ => 20000%Z.

Definition navigating : Vars * Host :=
  result_get (main_loop [idle] start (host0 feed20s)).

Definition at_a_wall : Vars * Host :=
  result_get (main_loop (idle :: repeat (holding K_s) 17) start (host0 feed20s)).

Definition with_projectile : Vars * Host :=
  result_get (main_loop (repeat (mkInput no_keys [] [] lane169) 9) start
                (host0 feed250)).

(* ===================================================================== *)
(** * Part II: the classes *)
(* ===================================================================== *)

(** ** Numbers *)

Lemma Qltb_lt a b : Qltb a b = true <-> a < b.
Proof.
  unfold Qltb. rewrite negb_true_iff.
  split; intros H.
  - apply Qnot_le_lt. intros Hle. apply Qle_bool_iff in Hle. congruence.
  - destruct (Qle_bool b a) eqn:E; [|reflexivity].
    apply Qle_bool_iff in E. lra.
Qed.

Lemma Qltb_ge a b : Qltb a b = false <-> b <= a.
Proof.
  unfold Qltb. rewrite negb_false_iff. apply Qle_bool_iff.
Qed.

Lemma Qleb_le a b : Qleb a b = true <-> a <= b.
Proof. apply Qle_bool_iff. Qed.

Lemma Qleb_gt a b : Qleb a b = false <-> b < a.
Proof.
  unfold Qleb. split; intros H.
  - apply Qnot_le_lt. intros Hle. apply Qle_bool_iff in Hle. congruence.
  - destruct (Qle_bool a b) eqn:E; [|reflexivity].
    apply Qle_bool_iff in E. lra.
Qed.

Lemma seconds_nonneg ms : (0 <= ms)%Z -> 0 <= seconds ms.
Proof.
  intros H. unfold seconds.
  assert (0 <= inject_Z ms) by (change 0 with (inject_Z 0); rewrite <- Zle_Qle; exact H).
  apply Qle_shift_div_l; lra.
Qed.

(** ** Timer *)

Section TimerFacts.

Import Timer.

Lemma tick_time_le self ms :
  (0 <= ms)%Z -> time (self' (tick self ms)) <= time self.
Proof.
  intros H. pose proof (seconds_nonneg ms H).
  unfold tick; simpl. destruct (Qltb 0 (time self)); simpl; lra.
Qed.

Lemma tick_fired_iff self ms :
  fired (tick self ms) = true <-> time (self' (tick self ms)) <= 0.
Proof. unfold tick; simpl. apply Qleb_le. Qed.

Lemma tick_expired self ms :
  time self <= 0 ->
  tick self ms = mkTicked self false true.
Proof.
  intros H. unfold tick.
  assert (E : Qltb 0 (time self) = false) by (apply Qltb_ge; exact H).
  rewrite E. f_equal. apply Qleb_le; exact H.
Qed.


(** Once the remaining time is [<= 0], every tick leaves the Timer as it
    is and calls [on_end] again. *)
Lemma history_expired self readings :
  time self <= 0 ->
  history self readings = map (fun _ => (self, true)) readings.
Proof.
  intros H. induction readings as [|ms rest IH]; cbn [history map]; [reflexivity|].
  rewrite (tick_expired self ms H). cbn [self' fired]. rewrite IH. reflexivity.
Qed.

Lemma run_expired (self : t) (n : nat) readings :
  time self <= 0 ->
  snd (run Nat.succ self n readings) = (n + length readings)%nat.
Proof.
  intros H. revert n. induction readings as [|ms rest IH]; intros n; cbn [run].
  - simpl. lia.
  - rewrite (tick_expired self ms H). cbn [self' fired length]. rewrite IH.
    unfold Nat.succ. lia.
Qed.

Lemma remaining_non_increasing self readings :
  Forall (fun ms => (0 <= ms)%Z) readings ->
  non_increasing (remaining self readings).
Proof.
  unfold remaining. revert self.
  induction readings as [|ms rest IH]; intros self Hnn; simpl; [exact I|].
  inversion Hnn as [|? ? Hms Hrest]; subst.
  split.
  - apply (tick_time_le self ms Hms).
  - apply (IH (self' (tick self ms)) Hrest).
Qed.

End TimerFacts.

(** C1, as stated, fails: the 20-second Timer ticked with readings of
    20000, 16 and 16 ms runs its callback on each of the three ticks (the
    callback here counts its calls). *)
Lemma C1_timer_fires_on_every_tick_after_expiry :
  map snd (Timer.history (Timer.mk 20) [20000; 16; 16]%Z) = [true; true; true] /\
  snd (Timer.run Nat.succ (Timer.mk 20) 0%nat [20000; 16; 16]%Z) = 3%nat.
Proof. split; vm_compute; reflexivity. Qed.

(** C1, amended: for every Timer ticked with non-negative clock readings,
    the remaining time never goes up from tick to tick; the ticks split
    into a first run on which the remaining time stays positive and the
    callback is not called, and a second run, from the first tick at which
    the remaining time is [<= 0] to the last tick, on which the Timer no
    longer changes and the callback is called on every tick; the number of
    calls, counted by a callback that adds one, is the length of that second
    run. *)
Theorem C1_timer_tick_countdown :
  forall (self : Timer.t) (readings : list Z),
    Forall (fun ms => (0 <= ms)%Z) readings ->
    non_increasing (remaining self readings) /\
    exists (running : list (Timer.t * bool)) (expired : list (Timer.t * bool))
           (last : Timer.t),
      Timer.history self readings = running ++ expired /\
      Forall (fun e => 0 < Timer.time (fst e) /\ snd e = false) running /\
      Timer.time last <= 0 /\
      Forall (fun e => e = (last, true)) expired /\
      forall n : nat,
        snd (Timer.run Nat.succ self n readings) = (n + length expired)%nat.
Proof.
  intros self readings Hnn. split.
  - apply remaining_non_increasing; exact Hnn.
  - clear Hnn. revert self.
    induction readings as [|ms rest IH]; intros self.
    + exists [], [], (Timer.mk 0). cbn.
      repeat split; try constructor; try lra. intros n; lia.
    + cbn [Timer.history Timer.run].
      destruct (Timer.fired (Timer.tick self ms)) eqn:Hf.
      * (* first expiry: every tick from here on calls back *)
        pose proof (proj1 (tick_fired_iff self ms) Hf) as Hle.
        set (self1 := Timer.self' (Timer.tick self ms)) in *.
        exists [], ((self1, true) :: Timer.history self1 rest), self1.
        rewrite (history_expired _ rest Hle).
        repeat split.
        -- constructor.
        -- exact Hle.
        -- constructor; [reflexivity|].
           apply Forall_forall. intros e He. apply in_map_iff in He.
           destruct He as [? [He _]]. symmetry. exact He.
        -- intros n. rewrite run_expired by exact Hle.
           cbn [length]. rewrite length_map. unfold Nat.succ. lia.
      * set (self1 := Timer.self' (Timer.tick self ms)) in *.
        destruct (IH self1)
          as (running & expired & last & Hh & Hrun & Hlast & Hexp & Hcount).
        exists ((self1, false) :: running), expired, last.
        repeat split.
        -- rewrite Hh. reflexivity.
        -- constructor; [|exact Hrun]. cbn [fst snd]. split; [|reflexivity].
           apply Qleb_gt. exact Hf.
        -- exact Hlast.
        -- exact Hexp.
        -- intros n. apply Hcount.
Qed.

(** The Timer of the game ticked twice with 10 s readings and three more
    times afterwards. *)
Lemma C1_timer_tick_countdown_witness :
  non_increasing (remaining (Timer.mk 20) [10000; 10000; 16; 16; 16]%Z) /\
  exists (running expired : list (Timer.t * bool)) (last : Timer.t),
    Timer.history (Timer.mk 20) [10000; 10000; 16; 16; 16]%Z = running ++ expired /\
    Forall (fun e => 0 < Timer.time (fst e) /\ snd e = false) running /\
    Timer.time last <= 0 /\
    Forall (fun e => e = (last, true)) expired /\
    forall n : nat,
      snd (Timer.run Nat.succ (Timer.mk 20) n [10000; 10000; 16; 16; 16]%Z)
      = (n + length expired)%nat.
Proof.
  apply (C1_timer_tick_countdown (Timer.mk 20) [10000; 10000; 16; 16; 16]%Z).
  repeat constructor; lia.
Defined.

(** ** Truncation *)

Lemma py_int_floor q : 0 <= q -> py_int q = Qfloor q.
Proof.
  intros H. destruct q as [n d]. unfold py_int, Qfloor; simpl.
  apply Z.quot_div_nonneg; [|lia].
  unfold Qle in H; simpl in H. lia.
Qed.

Lemma py_int_bounds q (n : Z) :
  0 <= q -> q <= inject_Z n -> (0 <= py_int q <= n)%Z.
Proof.
  intros H0 Hn. rewrite (py_int_floor q H0). split.
  - change 0%Z with (Qfloor 0). apply Qfloor_resp_le. exact H0.
  - rewrite <- (Qfloor_Z n). apply Qfloor_resp_le. exact Hn.
Qed.

Lemma py_int_near q :
  0 <= q -> inject_Z (py_int q) <= q /\ q < inject_Z (py_int q) + 1.
Proof.
  intros H0. rewrite (py_int_floor q H0). split.
  - apply Qfloor_le.
  - pose proof (Qlt_floor q) as H. rewrite inject_Z_plus in H. exact H.
Qed.

(** ** Player: velocity *)

Section PlayerVelocity.

Import Player.

Ltac qcases :=
  repeat match goal with
  | |- context [Qltb ?a ?b] =>
      let E := fresh "E" in
      destruct (Qltb a b) eqn:E;
      [apply Qltb_lt in E | apply Qltb_ge in E]
  end.

(** After the clamp the x component is the unpacked value cut to
    [[-3, 3]] whenever it started equal to it. *)
Lemma clamp_x cx cy v :
  Vector.x v == cx ->
  - MAX_SPEED <= Vector.x (clamp cx cy v) <= MAX_SPEED /\
  (0 < cx -> 0 < Vector.x (clamp cx cy v)) /\
  (cx < 0 -> Vector.x (clamp cx cy v) < 0) /\
  (cx == 0 -> Vector.x (clamp cx cy v) == 0).
Proof.
  unfold clamp, when, MAX_SPEED. intros Hx.
  destruct (Qltb 3 cy), (Qltb cy (- (3))); qcases; simpl; lra.
Qed.

Lemma clamp_y cx cy v :
  Vector.y v == cy ->
  - MAX_SPEED <= Vector.y (clamp cx cy v) <= MAX_SPEED /\
  (0 < cy -> 0 < Vector.y (clamp cx cy v)) /\
  (cy < 0 -> Vector.y (clamp cx cy v) < 0) /\
  (cy == 0 -> Vector.y (clamp cx cy v) == 0).
Proof.
  unfold clamp, when, MAX_SPEED. intros Hy.
  destruct (Qltb 3 cx), (Qltb cx (- (3))); qcases; simpl; lra.
Qed.

(** Friction moves a component by 0.05 toward zero, by the sign of the
    unpacked value. *)
Lemma friction_x cx cy v :
  (0 < cx -> Vector.x (friction cx cy v) == Vector.x v - (5 # 100)) /\
  (cx < 0 -> Vector.x (friction cx cy v) == Vector.x v + (5 # 100)) /\
  (cx == 0 -> Vector.x (friction cx cy v) == Vector.x v).
Proof.
  unfold friction, when, FRICTION_VECTOR.
  destruct (Qltb 0 cy), (Qltb cy 0); qcases; simpl; lra.
Qed.

Lemma friction_y cx cy v :
  (0 < cy -> Vector.y (friction cx cy v) == Vector.y v - (5 # 100)) /\
  (cy < 0 -> Vector.y (friction cx cy v) == Vector.y v + (5 # 100)) /\
  (cy == 0 -> Vector.y (friction cx cy v) == Vector.y v).
Proof.
  unfold friction, when, FRICTION_VECTOR.
  destruct (Qltb 0 cx), (Qltb cx 0); qcases; simpl; lra.
Qed.

(** The dead band leaves a component as it is or sets it to zero. *)
Lemma deadband_x v :
  Vector.x (deadband v) = Vector.x v \/ Vector.x (deadband v) = 0.
Proof.
  unfold deadband, when.
  destruct (Qltb _ (Vector.y _) && _), (Qltb _ (Vector.x v) && _); simpl; auto.
Qed.

Lemma deadband_y v :
  Vector.y (deadband v) = Vector.y v \/ Vector.y (deadband v) = 0.
Proof.
  unfold deadband, when.
  destruct (Qltb _ (Vector.x v) && _); simpl;
    match goal with |- context [if ?c then _ else _] => destruct c end;
    simpl; auto.
Qed.

Lemma key_move_velocity self keys :
  velocity_vector (key_move self keys) =
    let v := accelerate (acceleration_vector self) keys (velocity_vector self) in
    deadband (friction (Vector.x v) (Vector.y v)
                (clamp (Vector.x v) (Vector.y v) v)).
Proof.
  unfold key_move, when. cbn zeta.
  unfold Vector.get_vector_as_tuple.
  destruct (_ || _); reflexivity.
Qed.

Lemma settle_bounds v :
  let w := deadband (friction (Vector.x v) (Vector.y v)
                       (clamp (Vector.x v) (Vector.y v) v)) in
  (- MAX_SPEED <= Vector.x w <= MAX_SPEED) /\
  (- MAX_SPEED <= Vector.y w <= MAX_SPEED).
Proof.
  cbn zeta.
  set (cx := Vector.x v). set (cy := Vector.y v).
  set (c := clamp cx cy v). set (f := friction cx cy c).
  pose proof (clamp_x cx cy v (Qeq_refl _)) as (Bx & Px & Nx & Zx).
  pose proof (clamp_y cx cy v (Qeq_refl _)) as (By & Py & Ny & Zy).
  pose proof (friction_x cx cy c) as (FPx & FNx & FZx).
  pose proof (friction_y cx cy c) as (FPy & FNy & FZy).
  fold c in Bx, Px, Nx, Zx, By, Py, Ny, Zy. fold f in FPx, FNx, FZx, FPy, FNy, FZy.
  unfold MAX_SPEED in *.
  split.
  - destruct (deadband_x f) as [E|E]; rewrite E; [|lra].
    destruct (Q_dec cx 0) as [[H|H]|H];
      [ specialize (Nx H); specialize (FNx H)
      | specialize (Px H); specialize (FPx H)
      | specialize (Zx H); specialize (FZx H) ]; lra.
  - destruct (deadband_y f) as [E|E]; rewrite E; [|lra].
    destruct (Q_dec cy 0) as [[H|H]|H];
      [ specialize (Ny H); specialize (FNy H)
      | specialize (Py H); specialize (FPy H)
      | specialize (Zy H); specialize (FZy H) ]; lra.
Qed.

End PlayerVelocity.

(** C6: for every key snapshot and every starting velocity (within bounds
    or not), after [key_move] both velocity components are at most
    [MAX_SPEED = 3] in magnitude. *)
Theorem C6_key_move_velocity_within_max_speed :
  forall (self : Player.t) (keys : Keys),
    Qabs (Vector.x (Player.velocity_vector (Player.key_move self keys)))
      <= Player.MAX_SPEED /\
    Qabs (Vector.y (Player.velocity_vector (Player.key_move self keys)))
      <= Player.MAX_SPEED.
Proof.
  intros self keys. rewrite key_move_velocity. cbn zeta.
  pose proof (settle_bounds
                (Player.accelerate (Player.acceleration_vector self) keys
                   (Player.velocity_vector self))) as [Hx Hy].
  cbn zeta in Hx, Hy.
  split; apply Qabs_Qle_condition; assumption.
Qed.

(** ** Player: position and hitbox *)

Section PlayerPosition.

Import Player.

(** A value cut from below and then from above, as [move] does it. *)
Lemma cut_band (lo hi q : Q) :
  lo <= hi ->
  lo <= when (Qltb hi (when (Qltb q lo) (fun _ => lo) q)) (fun _ => hi)
          (when (Qltb q lo) (fun _ => lo) q) <= hi.
Proof.
  intros Hb. unfold when.
  destruct (Qltb q lo) eqn:E1;
    [apply Qltb_lt in E1 | apply Qltb_ge in E1];
    match goal with |- context [Qltb ?a ?b] =>
      destruct (Qltb a b) eqn:E2;
      [apply Qltb_lt in E2 | apply Qltb_ge in E2]
    end; lra.
Qed.

(** The position [move] ends on lies in the band that keeps the hitbox
    inside the playfield. *)
Lemma half_extent : inject_Z 48 / 2 == 24.
Proof. reflexivity. Qed.

Lemma move_x_bounds self : 24 <= x (move self) <= 776.
Proof.
  unfold move, Vector.get_vector_as_tuple. cbn [x set_hitbox set_position].
  pose proof (cut_band (inject_Z WIDTH / 2) (GAME_WIDTH - inject_Z WIDTH / 2)
                (x self + Vector.x (velocity_vector self))) as H.
  unfold GAME_WIDTH, WIDTH in *. pose proof half_extent as E.
  set (hw := inject_Z 48 / 2) in *.
  assert (Hb : hw <= 800 - hw) by lra.
  specialize (H Hb). lra.
Qed.

Lemma move_y_bounds self : 24 <= y (move self) <= 576.
Proof.
  unfold move, Vector.get_vector_as_tuple. cbn [y set_hitbox set_position].
  pose proof (cut_band (inject_Z HEIGHT / 2) (GAME_HEIGHT - inject_Z HEIGHT / 2)
                (y self + Vector.y (velocity_vector self))) as H.
  unfold GAME_HEIGHT, HEIGHT in *. pose proof half_extent as E.
  set (hw := inject_Z 48 / 2) in *.
  assert (Hb : hw <= 600 - hw) by lra.
  specialize (H Hb). lra.
Qed.

(** [move] ends by recomputing the hitbox from the new position. *)
Lemma move_hitbox self :
  hitbox (move self) = hitbox_at (x (move self)) (y (move self)).
Proof. reflexivity. Qed.

Lemma hitbox_at_in_playfield px py :
  24 <= px <= 776 -> 24 <= py <= 576 -> in_playfield (hitbox_at px py).
Proof.
  intros Hx Hy. unfold in_playfield, rect_right, rect_bottom, hitbox_at.
  cbn [rect_x rect_y rect_w rect_h]. unfold WIDTH, HEIGHT.
  pose proof half_extent as E.
  assert (Bx : (0 <= py_int (px - inject_Z 48 / 2) <= 752)%Z).
  { apply py_int_bounds; change (inject_Z 752) with 752; lra. }
  assert (By : (0 <= py_int (py - inject_Z 48 / 2) <= 552)%Z).
  { apply py_int_bounds; change (inject_Z 552) with 552; lra. }
  lia.
Qed.


End PlayerPosition.

(** C7: after every call of the Player's [move], whatever the Player was
    before it, the hitbox lies within the playfield: left edge at least 0,
    right edge at most 800, top at least 0, bottom at most 600. *)
Theorem C7_move_keeps_hitbox_in_playfield :
  forall self : Player.t,
    (0 <= rect_x (Player.hitbox (Player.move self)))%Z /\
    (rect_right (Player.hitbox (Player.move self)) <= 800)%Z /\
    (0 <= rect_y (Player.hitbox (Player.move self)))%Z /\
    (rect_bottom (Player.hitbox (Player.move self)) <= 600)%Z.
Proof.
  intros self. rewrite move_hitbox.
  apply hitbox_at_in_playfield; [apply move_x_bounds | apply move_y_bounds].
Qed.

(** ** Reasoning about host computations *)

Lemma pacing_calls_app t1 t2 :
  pacing_calls (t1 ++ t2) = (pacing_calls t1 + pacing_calls t2)%nat.
Proof. unfold pacing_calls. rewrite filter_app, length_app. reflexivity. Qed.

Lemma steps_refl h : steps h h [].
Proof.
  unfold steps. rewrite app_nil_r. cbn. repeat split; lia.
Qed.

Lemma steps_trans h1 h2 h3 t1 t2 :
  steps h1 h2 t1 -> steps h2 h3 t2 -> steps h1 h3 (t1 ++ t2).
Proof.
  unfold steps. intros (F1 & T1 & C1) (F2 & T2 & C2).
  rewrite pacing_calls_app. repeat split.
  - congruence.
  - rewrite T2, T1, app_assoc. reflexivity.
  - lia.
Qed.

Lemma runs_ret {A} (a : A) h (Q : A -> list Step -> Prop) :
  Q a [] -> runs (ret a) h Q.
Proof. intros H. exists a, h, []. auto using steps_refl. Qed.

Lemma runs_bind {A B} (m : M A) (f : A -> M B) h
    (Q1 : A -> list Step -> Prop) (Q : B -> list Step -> Prop) :
  runs m h Q1 ->
  (forall a tr1 h1, Q1 a tr1 -> runs (f a) h1 (fun b tr2 => Q b (tr1 ++ tr2))) ->
  runs (bind m f) h Q.
Proof.
  intros (a & h1 & tr1 & E1 & S1 & H1) Hf.
  destruct (Hf a tr1 h1 H1) as (b & h2 & tr2 & E2 & S2 & H2).
  exists b, h2, (tr1 ++ tr2). unfold bind. rewrite E1.
  eauto using steps_trans.
Qed.

Lemma runs_ext {A} (m m' : M A) h (Q : A -> list Step -> Prop) :
  m h = m' h -> runs m' h Q -> runs m h Q.
Proof. unfold runs. intros ->. auto. Qed.

Lemma runs_weaken {A} (m : M A) h (Q1 Q : A -> list Step -> Prop) :
  runs m h Q1 -> (forall a tr, Q1 a tr -> Q a tr) -> runs m h Q.
Proof.
  intros (a & h1 & tr & E & S1 & H1) Hw. exists a, h1, tr. auto.
Qed.

Lemma runs_log s h (Q : unit -> list Step -> Prop) :
  is_tick s = false -> Q tt [s] -> runs (log s) h Q.
Proof.
  intros Hs H. exists tt, (mkHost (clock_feed h) (clock_calls h) (event_queue h)
                              (trace h ++ [s])), [s].
  repeat split; auto. unfold pacing_calls. cbn. rewrite Hs. cbn. lia.
Qed.

Lemma runs_clock_tick h (Q : Z -> list Step -> Prop) :
  (forall ms, Q ms [SClockTick]) -> runs clock_tick h Q.
Proof.
  intros H. eexists _, _, [SClockTick]. unfold clock_tick.
  repeat split; cbn; auto. lia.
Qed.

Lemma runs_lift {A} (r : Result A) (a : A) h (Q : A -> list Step -> Prop) :
  r = Ok a -> Q a [] -> runs (lift r) h Q.
Proof. intros -> H. cbn. apply runs_ret; exact H. Qed.

(** [Timer.tick] on a running Timer paces once; the Timer it leaves is
    running unless the callback fired. *)
Lemma runs_Timer_tick (t : Timer.t) h :
  0 < Timer.time t ->
  runs (Timer_tick t) h (fun r tr =>
    tr = [SClockTick] /\
    (snd r = false -> 0 < Timer.time (fst r)) /\
    (snd r = true -> Timer.time (fst r) <= 0)).
Proof.
  intros Hpos.
  assert (E : Timer.paced (Timer.tick t (next_reading h)) = true).
  { unfold Timer.tick; cbn. apply Qltb_lt; exact Hpos. }
  apply (runs_ext _
           ((clock_tick ;; ret tt) ;;
            ret (Timer.self' (Timer.tick t (next_reading h)),
                 Timer.fired (Timer.tick t (next_reading h))))).
  { unfold Timer_tick. cbn zeta. rewrite E. reflexivity. }
  eapply runs_bind.
  - eapply runs_bind.
    + apply runs_clock_tick. intros ms.
      exact (eq_refl : (fun (_ : Z) tr => tr = [SClockTick]) ms [SClockTick]).
    + intros ms tr1 h1 ->. apply runs_ret.
      exact (eq_refl : (fun (_ : unit) tr => tr = [SClockTick]) tt ([SClockTick] ++ [])).
  - intros [] tr1 h1 ->. apply runs_ret. cbn [fst snd].
    split; [reflexivity|]. split; intros Hf.
    + apply Qleb_gt. exact Hf.
    + apply tick_fired_iff. exact Hf.
Qed.

Lemma runs_Stopwatch_tick (s : Stopwatch.t) h :
  runs (Stopwatch_tick s) h (fun _ tr => tr = [SClockTick]).
Proof.
  unfold Stopwatch_tick. eapply runs_bind.
  - apply runs_clock_tick. intros ms.
    exact (eq_refl : (fun (_ : Z) tr => tr = [SClockTick]) ms [SClockTick]).
  - intros ms tr1 h1 ->. apply runs_ret. reflexivity.
Qed.

(** ** Lists and the heap *)

Lemma store_length {A} (l : list A) i a : length (store l i a) = length l.
Proof.
  revert i. induction l as [|b l IH]; intros [|i]; cbn; auto.
Qed.

Lemma nth_error_store_same {A} (l : list A) i a :
  (i < length l)%nat -> nth_error (store l i a) i = Some a.
Proof.
  revert i. induction l as [|b l IH]; intros [|i] H; cbn in *; try lia; auto.
  apply IH. lia.
Qed.

Lemma nth_error_store_other {A} (l : list A) i j a :
  i <> j -> nth_error (store l i a) j = nth_error l j.
Proof.
  revert i j. induction l as [|b l IH]; intros [|i] [|j] H; cbn; auto.
  congruence.
Qed.

Lemma skipn_nth_error {A} (l : list A) i a :
  nth_error l i = Some a -> skipn i l = a :: skipn (S i) l.
Proof.
  revert i. induction l as [|b l IH]; intros [|i] H; cbn in *; try discriminate.
  - congruence.
  - apply IH. exact H.
Qed.

Lemma skipn_past {A} (l : list A) i :
  nth_error l i = None -> skipn i l = [].
Proof.
  intros H. apply skipn_all2. apply nth_error_None. exact H.
Qed.

Lemma remove_first_spec {A} (eqb : A -> A -> bool) (x : A) (l : list A) :
  (forall a b, eqb a b = true <-> a = b) ->
  In x l ->
  exists l1 l2, l = l1 ++ x :: l2 /\ ~ In x l1 /\
                remove_first eqb x l = Ok (l1 ++ l2).
Proof.
  intros Heq. induction l as [|a l IH]; intros Hin; [destruct Hin|].
  cbn. destruct (eqb a x) eqn:E.
  - apply Heq in E. subst a. exists [], l. cbn. auto.
  - assert (Hne : a <> x) by (intros ->; rewrite (proj2 (Heq x x) eq_refl) in E; discriminate).
    destruct Hin as [->|Hin]; [congruence|].
    destruct (IH Hin) as (l1 & l2 & -> & Hn & ->).
    exists (a :: l1), l2. cbn. repeat split; auto.
    intros [->|H]; auto.
Qed.

Lemma Movable_eqb_eq a b : Movable_eqb a b = true <-> a = b.
Proof.
  destruct a, b; cbn; split; try congruence; try discriminate.
  - intros H. apply Nat.eqb_eq in H. congruence.
  - intros [= ->]. apply Nat.eqb_refl.
Qed.

Lemma Drawable_eqb_eq a b : Drawable_eqb a b = true <-> a = b.
Proof.
  destruct a, b; cbn; split; try congruence; try discriminate.
  - intros H. apply Nat.eqb_eq in H. congruence.
  - intros [= ->]. apply Nat.eqb_refl.
  - intros H. apply Nat.eqb_eq in H. congruence.
  - intros [= ->]. apply Nat.eqb_refl.
Qed.

Lemma NoDup_remove_mid {A} (l1 l2 : list A) x :
  NoDup (l1 ++ x :: l2) -> NoDup (l1 ++ l2) /\ ~ In x (l1 ++ l2).
Proof. apply NoDup_remove. Qed.

Lemma NoDup_snoc {A} (l : list A) x :
  NoDup l -> ~ In x l -> NoDup (l ++ [x]).
Proof.
  intros Hl Hx. induction Hl as [|a l Ha Hl IH]; cbn.
  - constructor; [intros []|constructor].
  - constructor.
    + rewrite in_app_iff. intros [H|[H|[]]]; [auto|].
      subst. apply Hx. left. reflexivity.
    + apply IH. intros H. apply Hx. right. exact H.
Qed.

Lemma is_bullet_lt hp r : is_bullet hp r -> (r < length hp)%nat.
Proof.
  intros [b H]. apply nth_error_Some. congruence.
Qed.

Lemma is_clock_lt hp r : is_clock hp r -> (r < length hp)%nat.
Proof.
  unfold is_clock. intros H. apply nth_error_Some.
  destruct (nth_error hp r); [discriminate|destruct H].
Qed.

Lemma is_bullet_not_clock hp r : is_bullet hp r -> is_clock hp r -> False.
Proof. unfold is_clock. intros [b ->] H. exact H. Qed.

Lemma is_bullet_grow hp r o : is_bullet hp r -> is_bullet (hp ++ [o]) r.
Proof.
  intros [b H]. exists b. rewrite nth_error_app1; [exact H|].
  apply nth_error_Some. congruence.
Qed.

Lemma is_clock_grow hp r o : is_clock hp r -> is_clock (hp ++ [o]) r.
Proof.
  intros H. pose proof (is_clock_lt _ _ H) as L.
  unfold is_clock in *. rewrite nth_error_app1; assumption.
Qed.

Lemma drawable_ok_grow hp d o : drawable_ok hp d -> drawable_ok (hp ++ [o]) d.
Proof.
  destruct d; cbn; auto. rewrite length_app. cbn. lia.
Qed.

Lemma chunks_Forall {A} (T : A -> list Step -> Prop) (P : Step -> Prop) l tr :
  (forall a t, T a t -> Forall P t) ->
  chunks T l tr -> Forall P tr.
Proof.
  intros HT H. induction H as [|a l t tr Ht _ IH]; [constructor|].
  apply Forall_app. split; [apply (HT a t Ht) | exact IH].
Qed.

Lemma Forall_collide_pacing tr : Forall is_collide tr -> pacing_calls tr = 0%nat.
Proof.
  intros H. induction H as [|s tr Hs _ IH]; [reflexivity|].
  change (s :: tr) with ([s] ++ tr). rewrite pacing_calls_app, IH.
  destruct s; try destruct Hs; reflexivity.
Qed.

(** ** Loops over a roster the body leaves alone

    [Inv] is kept by every pass of the body; [Goal_] is kept once it holds
    and is brought about by the items marked [est]. *)

Section StableLoop.

Context {A : Type}.
Variable sq : Vars -> list A.
Variable body : A -> Vars -> M Vars.
Variable Inv Goal_ : Vars -> Prop.
Variable est : A -> Prop.
Variable T : A -> list Step -> Prop.

Hypothesis body_runs :
  forall a v h, Inv v -> In a (sq v) ->
    runs (body a v) h (fun v' tr =>
      Inv v' /\ sq v' = sq v /\ T a tr /\
      (Goal_ v -> Goal_ v') /\ (est a -> Goal_ v')).

Lemma py_for_stable fuel :
  forall i v h,
    Inv v -> (length (sq v) <= fuel + i)%nat ->
    runs (py_for fuel sq body i v) h (fun v' tr =>
      Inv v' /\ sq v' = sq v /\ chunks T (skipn i (sq v)) tr /\
      (Goal_ v \/ Exists est (skipn i (sq v)) -> Goal_ v')).
Proof.
  induction fuel as [|fuel IH]; intros i v h HI Hlen.
  - (* no fuel is needed: the index is past the end *)
    assert (E : nth_error (sq v) i = None) by (apply nth_error_None; lia).
    apply (runs_ext _ (ret v)).
    { cbn. rewrite E. reflexivity. }
    apply runs_ret. rewrite (skipn_past _ _ E).
    repeat split; auto using @chunks_nil.
    intros [G|X]; [exact G | inversion X].
  - destruct (nth_error (sq v) i) as [a|] eqn:E.
    + apply (runs_ext _ (v' <- body a v ;; py_for fuel sq body (S i) v')).
      { cbn. rewrite E. reflexivity. }
      eapply runs_bind.
      * apply body_runs; [exact HI | eapply nth_error_In; exact E].
      * intros v1 tr1 h1 (HI1 & Hsq & HT & Hkeep & Hest). cbv beta.
        eapply runs_weaken.
        -- apply (IH (S i) v1 h1 HI1). rewrite Hsq. lia.
        -- cbv beta. intros v2 tr2 (HI2 & Hsq2 & Hch & Hgoal).
           rewrite Hsq in Hsq2, Hch, Hgoal.
           rewrite (skipn_nth_error _ _ _ E).
           repeat split; auto.
           ++ constructor; assumption.
           ++ intros [G|X]; apply Hgoal.
              ** left. auto.
              ** inversion X; subst; [left; auto | right; assumption].
    + apply (runs_ext _ (ret v)).
      { cbn. rewrite E. reflexivity. }
      apply runs_ret. rewrite (skipn_past _ _ E).
      repeat split; auto using @chunks_nil.
      intros [G|X]; [exact G | inversion X].
Qed.

End StableLoop.

(** ** Player: the invariant under each operation *)

Lemma wf_player_ext n p p' :
  Player.sprites p' = Player.sprites p ->
  Player.sight p' = Player.sight p ->
  Player.is_playing_animation p' = Player.is_playing_animation p ->
  Player.hitbox p' = Player.hitbox p ->
  wf_player n p -> wf_player n p'.
Proof.
  intros Es Eg Ea Eh [Hs Hg Hw Hh Hi].
  constructor; unfold sight_ok in *; rewrite ?Es, ?Eg, ?Ea, ?Eh; assumption.
Qed.

Lemma key_move_frame p keys :
  Player.sprites (Player.key_move p keys) = Player.sprites p /\
  Player.sight (Player.key_move p keys) = Player.sight p /\
  Player.is_playing_animation (Player.key_move p keys)
    = Player.is_playing_animation p /\
  Player.hitbox (Player.key_move p keys) = Player.hitbox p /\
  Player.x (Player.key_move p keys) = Player.x p /\
  Player.y (Player.key_move p keys) = Player.y p.
Proof.
  unfold Player.key_move, when, Vector.get_vector_as_tuple. cbn zeta.
  destruct (_ || _); cbn; auto 10.
Qed.

Lemma wf_player_key_move n p keys :
  wf_player n p -> wf_player n (Player.key_move p keys).
Proof.
  destruct (key_move_frame p keys) as (Es & Eg & Ea & Eh & _).
  apply wf_player_ext; assumption.
Qed.

Lemma move_synced p : synced (Player.move p).
Proof.
  unfold synced. split; [apply move_hitbox|].
  split; [apply move_x_bounds | apply move_y_bounds].
Qed.

Lemma wf_player_move n p : wf_player n p -> wf_player n (Player.move p).
Proof.
  intros [Hs Hg Hw Hh Hi].
  constructor.
  - exact Hs.
  - exact Hg.
  - reflexivity.
  - reflexivity.
  - rewrite move_hitbox.
    apply hitbox_at_in_playfield; [apply move_x_bounds | apply move_y_bounds].
Qed.

(** *** Sight *)

Lemma animate_sight_ok p : sight_ok p -> sight_ok (Player.animate_sight p).
Proof.
  unfold sight_ok, Player.animate_sight.
  intros (H0 & H1 & Hf).
  destruct (Qltb (Player.sight p) 1) eqn:E1;
    [apply Qltb_lt in E1 | apply Qltb_ge in E1];
    destruct (Player.is_playing_animation p) eqn:Ea; cbn [andb].
  - cbn. rewrite Ea. split; [lra|]. split; [lra|]. discriminate.
  - rewrite andb_false_r. rewrite Ea. auto.
  - assert (E2 : Qleb 1 (Player.sight p) = true) by (apply Qleb_le; exact E1).
    rewrite E2. cbn. split; [lra|]. split; [lra|]. intros _. lra.
  - rewrite andb_false_r. rewrite Ea. auto.
Qed.

Lemma hit_sight_ok p : sight_ok p -> sight_ok (hit_sight p).
Proof.
  unfold sight_ok, hit_sight, when.
  intros (H0 & H1 & Hf).
  destruct (Qleb (1 # 10) (Player.sight p)) eqn:E;
    [apply Qleb_le in E | auto].
  cbn. split; [lra|]. split; [lra|].
  intros Ha. specialize (Hf Ha). lra.
Qed.

Lemma animate_sight_frame p :
  Player.sprites (Player.animate_sight p) = Player.sprites p /\
  Player.hitbox (Player.animate_sight p) = Player.hitbox p /\
  Player.x (Player.animate_sight p) = Player.x p /\
  Player.y (Player.animate_sight p) = Player.y p /\
  Player.state (Player.animate_sight p) = Player.state p.
Proof.
  unfold Player.animate_sight.
  destruct (_ && _); [cbn; auto|]. destruct (_ && _); cbn; auto.
Qed.

Lemma hit_sight_frame p :
  Player.sprites (hit_sight p) = Player.sprites p /\
  Player.is_playing_animation (hit_sight p) = Player.is_playing_animation p /\
  Player.hitbox (hit_sight p) = Player.hitbox p /\
  Player.x (hit_sight p) = Player.x p /\
  Player.y (hit_sight p) = Player.y p.
Proof.
  unfold hit_sight, when. destruct (Qleb _ _); cbn; auto.
Qed.

Lemma wf_player_hit n p : wf_player n p -> wf_player n (hit_sight p).
Proof.
  intros [Hs Hg Hw Hh Hi].
  destruct (hit_sight_frame p) as (Es & Ea & Eh & _).
  constructor; rewrite ?Es, ?Eh; auto using hit_sight_ok.
Qed.

(** *** The animation cycles *)

Lemma runs_SpriteCycle_tick c h :
  cycle_ok c ->
  runs (SpriteCycle.tick c) h (fun c' tr => cycle_ok c' /\ tr = [SClockTick]).
Proof.
  intros (Hi & Ht & Hx). unfold SpriteCycle.tick.
  eapply runs_bind.
  - apply runs_Timer_tick. exact Ht.
  - intros [t' f] tr1 h1 (-> & Hrun & Hexp). cbn [fst snd] in *.
    destruct f.
    + unfold SpriteCycle.interval_end. cbn [SpriteCycle.sprites
        SpriteCycle.sprite_index SpriteCycle.interval].
      destruct (SpriteCycle.sprites c) as [|k] eqn:Ek; [lia|].
      apply runs_ret. split; [|reflexivity].
      unfold cycle_ok.
      cbn [SpriteCycle.interval SpriteCycle.interval_timer
           SpriteCycle.sprite_index SpriteCycle.sprites Timer.time].
      repeat split; try assumption.
      apply Nat.mod_upper_bound. lia.
    + apply runs_ret. split; [|reflexivity].
      unfold cycle_ok. cbn. auto.
Qed.

Lemma runs_tick_cycles sheet h :
  Forall (fun e => cycle_ok (snd e)) sheet ->
  runs (Player.tick_cycles sheet) h (fun sheet' tr =>
    map fst sheet' = map fst sheet /\
    Forall (fun e => cycle_ok (snd e)) sheet' /\
    tr = repeat SClockTick (length sheet)).
Proof.
  intros H. revert h. induction H as [|[name c] rest Hc _ IH]; intros h.
  - apply runs_ret. auto.
  - cbn [Player.tick_cycles]. eapply runs_bind.
    + apply runs_SpriteCycle_tick. exact Hc.
    + intros c' tr1 h1 (Hc' & ->). eapply runs_bind.
      * apply IH.
      * intros rest' tr2 h2 (Hn & Hr & ->). apply runs_ret.
        cbn. rewrite Hn, app_nil_r. auto.
Qed.

Lemma get_image_cycle_in sheet name :
  In name (map fst sheet) ->
  exists c, SpriteSheet.get_image_cycle sheet name = Ok c /\ In (name, c) sheet.
Proof.
  induction sheet as [|[k c] rest IH]; cbn; [intros []|].
  intros Hin. destruct (String.eqb k name) eqn:E.
  - apply String.eqb_eq in E. subst. eauto.
  - destruct Hin as [->|Hin]; [rewrite String.eqb_refl in E; discriminate|].
    destruct (IH Hin) as (c' & Hc & Hi). eauto.
Qed.

Lemma runs_Player_draw n p h :
  wf_player n p ->
  runs (Player.draw p) h (fun p' tr =>
    wf_player n p' /\ tr = repeat SClockTick n /\
    Player.x p' = Player.x p /\ Player.y p' = Player.y p /\
    Player.hitbox p' = Player.hitbox p).
Proof.
  intros [(Hlen & Hcyc & Hstand & Hsprint) Hg Hw Hh Hi].
  unfold Player.draw. eapply runs_bind.
  - apply runs_tick_cycles. exact Hcyc.
  - intros sheet tr1 h1 (Hnames & Hcyc' & ->).
    set (p1 := Player.animate_sight (Player.set_sprites p sheet)).
    destruct (animate_sight_frame (Player.set_sprites p sheet))
      as (Es & Eh & Ex & Ey & Est).
    fold p1 in Es, Eh, Ex, Ey, Est. cbn in Es, Eh, Ex, Ey, Est.
    assert (Hin : In (match Player.state p1 with
                      | Player.moving => "sprint"%string
                      | Player.still => "stand"%string
                      end) (map fst (Player.sprites p1))).
    { rewrite Es, Hnames. destruct (Player.state p1); assumption. }
    destruct (get_image_cycle_in _ _ Hin) as (c & Hget & Hc).
    eapply runs_bind.
    + eapply runs_lift; [exact Hget|].
      exact (conj eq_refl eq_refl
             : (fun (c' : SpriteCycle.t) tr => c' = c /\ tr = []) c []).
    + intros c' tr2 h2 (-> & ->). eapply runs_bind.
      * assert (Hok : cycle_ok c).
        { rewrite Es in Hc. rewrite Forall_forall in Hcyc'.
          apply (Hcyc' _ Hc). }
        eapply runs_lift.
        -- unfold SpriteCycle.draw. destruct Hok as (_ & _ & Hlt).
           apply Nat.ltb_lt in Hlt. rewrite Hlt. reflexivity.
        -- exact (eq_refl : (fun (_ : unit) tr => tr = []) tt []).
      * intros [] tr3 h3 ->. apply runs_ret.
        rewrite !app_nil_r, Hlen.
        split; [|split; [reflexivity | auto]].
        constructor; rewrite ?Eh; auto.
        -- rewrite Es. unfold sheet_ok.
           split; [|split; [exact Hcyc' | rewrite Hnames; auto]].
           rewrite <- Hlen. rewrite <- (length_map fst), Hnames, length_map.
           reflexivity.
        -- apply animate_sight_ok. exact Hg.
Qed.

(** ** The rosters: the invariant under each closure *)

Lemma wf_rosters_ext v v' :
  timer v' = timer v -> bullets v' = bullets v ->
  drawables v' = drawables v -> movables v' = movables v ->
  heap v' = heap v ->
  wf_rosters v -> wf_rosters v'.
Proof.
  intros Et Eb Ed Em Eh [H1 H2 H3 H4 H5 H6 H7 H8 H9].
  constructor; rewrite ?Et, ?Eb, ?Ed, ?Em, ?Eh; assumption.
Qed.

Lemma wf_set_player n v p :
  wf n v -> wf_player n p -> wf n (set_player v p).
Proof.
  intros (Hr & _ & Hb) Hp. split; [|split; assumption].
  eapply wf_rosters_ext; [..|exact Hr]; reflexivity.
Qed.

Lemma wf_set_game_state n v g : wf n v -> wf n (set_game_state v g).
Proof.
  intros (Hr & Hp & Hb). split; [|split; assumption].
  eapply wf_rosters_ext; [..|exact Hr]; reflexivity.
Qed.

(** Overwriting an object by one of the same class. *)
Lemma wf_rosters_store v o :
  wf_rosters v ->
  forall r,
    (is_bullet (heap v) r -> exists b, o = OBullet b) ->
    (r = timer v -> is_clock (store (heap v) r o) r) ->
    (r < length (heap v))%nat ->
    wf_rosters (set_heap v (store (heap v) r o)).
Proof.
  intros [H1 H2 H3 H4 H5 H6 H7 H8 H9] r Hb Hc Hlt.
  constructor; cbn; auto.
  - destruct (Nat.eq_dec r (timer v)) as [->|Hne]; [auto|].
    unfold is_clock. rewrite nth_error_store_other by exact Hne. exact H1.
  - intros r' Hin. specialize (H3 r' Hin).
    destruct (Nat.eq_dec r r') as [<-|Hne].
    + destruct (Hb H3) as [b ->]. exists b. apply nth_error_store_same. exact Hlt.
    + unfold is_bullet. rewrite nth_error_store_other by exact Hne. exact H3.
  - intros d Hin. specialize (H4 d Hin). destruct d; cbn in *; auto.
    rewrite store_length. exact H4.
Qed.

Lemma NoDup_map_inj {A B} (f : A -> B) (l : list A) :
  (forall a b, f a = f b -> a = b) -> NoDup l -> NoDup (map f l).
Proof.
  intros Hinj Hl. induction Hl as [|a l Ha _ IH]; cbn; constructor; auto.
  intros Hin. apply in_map_iff in Hin. destruct Hin as (b & Hb & Hin).
  apply Hinj in Hb. subst. contradiction.
Qed.

Lemma NoDup_wall_drawables : NoDup wall_drawables.
Proof.
  unfold wall_drawables. apply NoDup_map_inj.
  - intros a b [= ->]. reflexivity.
  - apply seq_NoDup.
Qed.

Lemma in_wall_drawables d :
  In d wall_drawables -> exists i, d = DWall i /\ (i < length walls)%nat.
Proof.
  unfold wall_drawables. intros H. apply in_map_iff in H.
  destruct H as (i & <- & Hi). apply in_seq in Hi. exists i. split; [reflexivity|lia].
Qed.

Lemma wf_change_state n v :
  wf_player n (player v) -> 0 < Timer.time (bullet_timer v) ->
  wf n (change_state v).
Proof.
  intros Hp Hb. unfold change_state, on_state_change.
  split; [|split; [|exact Hb]];
    [constructor;
     cbn [timer bullets movables drawables heap set_game_state app] |].
  - unfold is_clock. rewrite nth_error_app2 by lia.
    rewrite Nat.sub_diag. cbn. exact I.
  - intros r [].
  - intros r [H|[]]. discriminate.
  - intros d [<-|Hin]; [exact I|].
    apply in_app_iff in Hin. destruct Hin as [Hin|[<-|[<-|[]]]]; cbn; auto.
    + destruct (in_wall_drawables _ Hin) as (i & -> & Hi). exact Hi.
    + rewrite length_app. cbn. lia.
  - constructor.
  - constructor; [intros []|constructor].
  - constructor.
    + intros Hin. apply in_app_iff in Hin.
      destruct Hin as [Hin|[H|[H|[]]]]; try discriminate.
      destruct (in_wall_drawables _ Hin) as (i & Hd & _). discriminate.
    + apply NoDup_app.
      * apply NoDup_wall_drawables.
      * constructor; [intros [H|[]]; discriminate|].
        constructor; [intros []|constructor].
      * intros d Hin [<-|[<-|[]]];
          destruct (in_wall_drawables _ Hin) as (i & Hd & _); discriminate.
  - left. reflexivity.
  - left. reflexivity.
  - eapply wf_player_ext; [..|exact Hp]; reflexivity.
Qed.

Lemma wf_spawn_bullet n s v :
  wf_rosters v -> wf_player n (player v) -> wf n (spawn_bullet s v).
Proof.
  intros [H1 H2 H3 H4 H5 H6 H7 H8 H9] Hp. unfold spawn_bullet.
  set (r := length (heap v)).
  assert (Fb : ~ In r (bullets v)).
  { intros Hin. destruct (H2 r Hin) as [Hm _].
    pose proof (is_bullet_lt _ _ (H3 r Hm)). unfold r in *. lia. }
  assert (Fm : ~ In (MObj r) (movables v)).
  { intros Hin. pose proof (is_bullet_lt _ _ (H3 r Hin)). unfold r in *. lia. }
  assert (Fd : ~ In (DObj r) (drawables v)).
  { intros Hin. pose proof (H4 _ Hin) as L. cbn in L. unfold r in *. lia. }
  split; [|split; [exact Hp | reflexivity]].
  constructor; cbn [timer bullets movables drawables heap].
  - apply is_clock_grow. exact H1.
  - intros r' H. apply in_app_iff in H. rewrite !in_app_iff.
    destruct H as [H|[<-|[]]];
      [split; left; apply (H2 _ H) | split; right; left; reflexivity].
  - intros r' Hin. apply in_app_iff in Hin.
    destruct Hin as [Hin|[[= <-]|[]]].
    + apply is_bullet_grow. auto.
    + eexists. rewrite nth_error_app2 by (unfold r; lia).
      unfold r. rewrite Nat.sub_diag. reflexivity.
  - intros d Hin. apply in_app_iff in Hin.
    destruct Hin as [Hin|[<-|[]]].
    + apply drawable_ok_grow. auto.
    + cbn. rewrite length_app. cbn. unfold r. lia.
  - apply NoDup_snoc; assumption.
  - apply NoDup_snoc; assumption.
  - apply NoDup_snoc; assumption.
  - apply in_app_iff. left. exact H8.
  - apply in_app_iff. left. exact H9.
Qed.

Lemma wf_wall_collide n v : wf n v -> wf n (on_player_wall_collide v).
Proof.
  intros H. unfold on_player_wall_collide. apply wf_set_player; [exact H|].
  destruct H as (_ & Hp & _).
  eapply wf_player_ext; [..|exact Hp]; reflexivity.
Qed.

(** The reaction to a hit: with the projectile in the rosters nothing is
    raised, and afterwards it is in none of them. *)
Lemma bullet_collide_spec n r v :
  wf n v -> In r (bullets v) ->
  exists v',
    on_player_bullet_collide r v = Ok v' /\ wf n v' /\
    ~ In r (bullets v') /\ ~ In (MObj r) (movables v') /\
    ~ In (DObj r) (drawables v') /\
    (exists l1 l2, bullets v = l1 ++ r :: l2 /\ bullets v' = l1 ++ l2) /\
    player v' = hit_sight (player v) /\
    game_state v' = game_state v /\ heap v' = heap v.
Proof.
  intros ([H1 H2 H3 H4 H5 H6 H7 H8 H9] & Hp & Hb) Hin.
  destruct (H2 r Hin) as [Hm Hd].
  destruct (remove_first_spec Nat.eqb r (bullets v) Nat.eqb_eq Hin)
    as (b1 & b2 & Eb & Nb & Rb).
  destruct (remove_first_spec Movable_eqb (MObj r) (movables v) Movable_eqb_eq Hm)
    as (m1 & m2 & Em & Nm & Rm).
  destruct (remove_first_spec Drawable_eqb (DObj r) (drawables v) Drawable_eqb_eq Hd)
    as (d1 & d2 & Ed & Nd & Rd).
  unfold on_player_bullet_collide. rewrite Rb, Rm, Rd.
  eexists. split; [reflexivity|]. cbn.
  rewrite Eb in H5. rewrite Em in H6. rewrite Ed in H7.
  destruct (NoDup_remove_mid _ _ _ H5) as [N5 F5].
  destruct (NoDup_remove_mid _ _ _ H6) as [N6 F6].
  destruct (NoDup_remove_mid _ _ _ H7) as [N7 F7].
  assert (keep_b : forall x, In x (b1 ++ b2) -> In x (bullets v)).
  { intros x Hx. rewrite Eb. apply in_app_iff in Hx. apply in_app_iff.
    destruct Hx; [left|right; right]; assumption. }
  assert (keep_m : forall x, In x (m1 ++ m2) -> In x (movables v)).
  { intros x Hx. rewrite Em. apply in_app_iff in Hx. apply in_app_iff.
    destruct Hx; [left|right; right]; assumption. }
  assert (keep_d : forall x, In x (d1 ++ d2) -> In x (drawables v)).
  { intros x Hx. rewrite Ed. apply in_app_iff in Hx. apply in_app_iff.
    destruct Hx; [left|right; right]; assumption. }
  assert (drop_m : forall x, x <> MObj r -> In x (movables v) -> In x (m1 ++ m2)).
  { intros x Hne Hx. rewrite Em in Hx. apply in_app_iff in Hx. apply in_app_iff.
    destruct Hx as [Hx|[Hx|Hx]]; [left; assumption | congruence | right; assumption]. }
  assert (drop_d : forall x, x <> DObj r -> In x (drawables v) -> In x (d1 ++ d2)).
  { intros x Hne Hx. rewrite Ed in Hx. apply in_app_iff in Hx. apply in_app_iff.
    destruct Hx as [Hx|[Hx|Hx]]; [left; assumption | congruence | right; assumption]. }
  split; [|split; [exact F5 | split; [exact F6 | split; [exact F7 |]]]].
  - split; [|split; [apply wf_player_hit; exact Hp | exact Hb]].
    constructor; cbn [timer bullets movables drawables heap]; auto.
    + intros r' Hr'. destruct (H2 r' (keep_b _ Hr')) as [Hm' Hd'].
      assert (r' <> r) by (intros ->; contradiction).
      split; [apply drop_m | apply drop_d]; congruence.
    + apply drop_m; [discriminate | exact H8].
    + apply drop_d; [discriminate | exact H9].
  - split; [exists b1, b2; auto | auto].
Qed.

(** ** The steps of the loop body *)

Lemma runs_tick_timer n v h :
  wf n v ->
  runs (tick_timer v) h (fun v' tr =>
    wf n v' /\ tr = [SClockTick] /\
    (game_state v' = game_state v \/ game_state v' = Some 2%Z)).
Proof.
  intros (Hr & Hp & Hb). pose proof (wr_timer v Hr) as Hc.
  pose proof (is_clock_lt _ _ Hc) as Hlt.
  unfold tick_timer. unfold is_clock in Hc.
  destruct (nth_error (heap v) (timer v)) as [[b|t|s]|] eqn:E;
    try contradiction.
  - (* the 20-second Timer *)
    eapply runs_bind.
    + apply runs_Timer_tick. exact Hc.
    + intros [t' f] tr1 h1 (-> & Hrun & Hexp). cbn [fst snd] in *.
      apply runs_ret. rewrite app_nil_r. split; [|split; [reflexivity|]].
      * destruct f.
        -- apply wf_change_state; assumption.
        -- split; [|split; assumption].
           apply wf_rosters_store; auto.
           ++ intros Hbul. exfalso.
              eapply is_bullet_not_clock; [exact Hbul|exact (wr_timer v Hr)].
           ++ intros _. unfold is_clock.
              rewrite nth_error_store_same by exact Hlt. auto.
      * destruct f; [right|left]; reflexivity.
  - (* the Stopwatch *)
    eapply runs_bind.
    + apply runs_Stopwatch_tick.
    + intros s' tr1 h1 ->. apply runs_ret. rewrite app_nil_r.
      split; [|split; [reflexivity|left; reflexivity]].
      split; [|split; assumption].
      apply wf_rosters_store; auto.
      * intros Hbul. exfalso.
        eapply is_bullet_not_clock; [exact Hbul|exact (wr_timer v Hr)].
      * intros _. unfold is_clock.
        rewrite nth_error_store_same by exact Hlt. exact I.
Qed.

Lemma runs_tick_bullet_timer n s v h :
  wf n v ->
  runs (tick_bullet_timer s v) h (fun v' tr =>
    wf n v' /\ tr = [SClockTick] /\ game_state v' = game_state v).
Proof.
  intros (Hr & Hp & Hb). unfold tick_bullet_timer.
  eapply runs_bind.
  - apply runs_Timer_tick. exact Hb.
  - intros [t' f] tr1 h1 (-> & Hrun & Hexp). cbn [fst snd] in *.
    apply runs_ret. rewrite app_nil_r. split; [|split; [reflexivity|]].
    + destruct f.
      * apply wf_spawn_bullet; [|exact Hp].
        eapply wf_rosters_ext; [..|exact Hr]; reflexivity.
      * split; [|split; [exact Hp | cbn; auto]].
        eapply wf_rosters_ext; [..|exact Hr]; reflexivity.
    + destruct f; reflexivity.
Qed.

Lemma runs_collide_wall n i v h :
  wf n v -> In i (seq 0 (length walls)) ->
  runs (collide_wall i v) h (fun v' tr =>
    wf n v' /\ game_state v' = game_state v /\ Forall is_collide tr).
Proof.
  intros Hwf Hin. apply in_seq in Hin. unfold collide_wall.
  destruct (nth_error walls i) as [wall|] eqn:E.
  2:{ apply nth_error_None in E. lia. }
  eapply runs_bind.
  - apply runs_log; [reflexivity|].
    exact (eq_refl : (fun (_ : unit) tr => tr = [_]) tt [_]).
  - intros [] tr1 h1 ->. apply runs_ret. rewrite app_nil_r.
    split; [|split].
    + destruct (colliderect _ _); [apply wf_wall_collide|]; exact Hwf.
    + destruct (colliderect _ _); reflexivity.
    + constructor; [exact I|constructor].
Qed.

Lemma runs_move_one n m v h :
  wf n v -> In m (movables v) ->
  runs (move_one m v) h (fun v' tr =>
    wf n v' /\ game_state v' = game_state v /\ movables v' = movables v /\
    tr = [SMove m] /\
    (synced (player v) -> synced (player v')) /\
    (m = MPlayer -> synced (player v'))).
Proof.
  intros (Hr & Hp & Hb) Hin. unfold move_one.
  eapply runs_bind.
  - apply runs_log; [reflexivity|].
    exact (eq_refl : (fun (_ : unit) tr => tr = [_]) tt [_]).
  - intros [] tr1 h1 ->. destruct m as [|r].
    + apply runs_ret. rewrite app_nil_r.
      split; [|split; [reflexivity|split; [reflexivity|split; [reflexivity|]]]].
      * apply wf_set_player; [split; [|split]; assumption|].
        apply wf_player_move. exact Hp.
      * split; intros _; apply move_synced.
    + pose proof (wr_movables v Hr r Hin) as Hbul.
      pose proof (is_bullet_lt _ _ Hbul) as Hlt.
      destruct Hbul as [b Eb]. rewrite Eb.
      apply runs_ret. rewrite app_nil_r.
      split; [|split; [reflexivity|split; [reflexivity|split; [reflexivity|]]]].
      * split; [|split; assumption].
        apply wf_rosters_store; eauto.
        intros ->. exfalso.
        eapply is_bullet_not_clock; [exists b; exact Eb | exact (wr_timer v Hr)].
      * split; [auto | discriminate].
Qed.

Lemma runs_draw_one n d v h :
  wf n v -> In d (drawables v) ->
  runs (draw_one d v) h (fun v' tr =>
    wf n v' /\ game_state v' = game_state v /\ drawables v' = drawables v /\
    tr = SDraw d :: match d with
                    | DPlayer => repeat SClockTick n
                    | _ => []
                    end /\
    (synced (player v) -> synced (player v'))).
Proof.
  intros (Hr & Hp & Hb) Hin. unfold draw_one.
  eapply runs_bind.
  - apply runs_log; [reflexivity|].
    exact (eq_refl : (fun (_ : unit) tr => tr = [_]) tt [_]).
  - intros [] tr1 h1 ->. pose proof (wr_drawables v Hr d Hin) as Hok.
    destruct d as [|r|i|]; unfold drawable_ok in Hok.
    + eapply runs_bind.
      * apply (runs_Player_draw n). exact Hp.
      * intros p' tr2 h2 (Hp' & -> & Ex & Ey & Eh). apply runs_ret.
        rewrite app_nil_r.
        split; [|split; [reflexivity|split; [reflexivity|split; [reflexivity|]]]].
        -- apply wf_set_player; [split; [|split]; assumption | exact Hp'].
        -- unfold synced. cbn. rewrite Ex, Ey, Eh. auto.
    + destruct (nth_error (heap v) r) eqn:E.
      2:{ apply nth_error_None in E. lia. }
      apply runs_ret.
      split; [split; [|split]; assumption|]. auto.
    + destruct (nth_error walls i) eqn:E.
      2:{ apply nth_error_None in E. lia. }
      apply runs_ret.
      split; [split; [|split]; assumption|]. auto.
    + apply runs_ret.
      split; [split; [|split]; assumption|]. auto.
Qed.

Lemma runs_collide_end_zone n v h :
  wf n v ->
  runs (collide_end_zone v) h (fun v' tr =>
    wf n v' /\ Forall is_collide tr /\
    (game_state v' = game_state v \/ game_state v' = Some 3%Z) /\
    player v' = player v).
Proof.
  intros Hwf. unfold collide_end_zone.
  eapply runs_bind.
  - apply runs_log; [reflexivity|].
    exact (eq_refl : (fun (_ : unit) tr => tr = [_]) tt [_]).
  - intros [] tr1 h1 ->. apply runs_ret. rewrite app_nil_r.
    split; [|split; [constructor; [exact I|constructor]|]].
    + destruct (colliderect _ _); [apply wf_set_game_state|]; exact Hwf.
    + destruct (colliderect _ _); cbn; auto.
Qed.

(** ** The loops of the loop body *)

Lemma runs_walls_loop n v h :
  wf n v ->
  runs (py_for (length walls) (fun _ => seq 0 (length walls)) collide_wall 0 v) h
    (fun v' tr =>
       wf n v' /\ game_state v' = game_state v /\ Forall is_collide tr).
Proof.
  intros Hwf.
  eapply runs_weaken.
  - apply (py_for_stable (fun _ => seq 0 (length walls)) collide_wall
             (fun u => wf n u /\ game_state u = game_state v)
             (fun _ => True) (fun _ => False)
             (fun _ t => Forall is_collide t)).
    + intros i u h0 (Hu & Hg) Hin. eapply runs_weaken.
      * apply (runs_collide_wall n); assumption.
      * cbv beta. intros u' tr (Hu' & Hg' & Ht).
        split; [split; [exact Hu' | congruence]|].
        split; [reflexivity | split; [exact Ht | split; auto]].
    + split; [exact Hwf | reflexivity].
    + rewrite length_seq. lia.
  - cbv beta. intros v' tr ((Hv' & Hg) & _ & Hch & _).
    split; [exact Hv' | split; [exact Hg|]].
    eapply chunks_Forall; [|exact Hch]. auto.
Qed.

Lemma chunks_map {A} (f : A -> Step) (l : list A) tr :
  chunks (fun a t => t = [f a]) l tr -> tr = map f l.
Proof.
  intros H. induction H as [|a l t tr -> _ IH]; [reflexivity|].
  cbn. rewrite IH. reflexivity.
Qed.

Lemma runs_movables_loop n v h :
  wf n v ->
  runs (py_for (length (movables v)) movables move_one 0 v) h
    (fun v' tr =>
       wf n v' /\ game_state v' = game_state v /\
       tr = map SMove (movables v) /\ synced (player v')).
Proof.
  intros Hwf.
  eapply runs_weaken.
  - apply (py_for_stable movables move_one
             (fun u => wf n u /\ game_state u = game_state v)
             (fun u => synced (player u)) (fun m => m = MPlayer)
             (fun m t => t = [SMove m])).
    + intros m u h0 (Hu & Hg) Hin. eapply runs_weaken.
      * apply (runs_move_one n); assumption.
      * cbv beta. intros u' tr (Hu' & Hg' & Hm & Ht & Hk & He).
        split; [split; [exact Hu' | congruence]|].
        split; [exact Hm | split; [exact Ht | split; assumption]].
    + split; [exact Hwf | reflexivity].
    + lia.
  - cbv beta. intros v' tr ((Hv' & Hg) & _ & Hch & Hgoal).
    split; [exact Hv' | split; [exact Hg | split]].
    + apply (chunks_map SMove). exact Hch.
    + apply Hgoal. right. cbn [skipn].
      apply Exists_exists. exists MPlayer. split; [|reflexivity].
      destruct Hwf as (Hr & _). apply (wr_player_moves v Hr).
Qed.

(** The steps of the drawing loop: one [SDraw] per entry, followed for the
    Player by the pacing calls of its [n] animation timers. *)
Lemma chunks_draw_without_player n l tr :
  chunks (fun d t => t = SDraw d :: match d with
                                    | DPlayer => repeat SClockTick n
                                    | _ => []
                                    end) l tr ->
  ~ In DPlayer l -> pacing_calls tr = 0%nat.
Proof.
  intros H. induction H as [|d l t tr -> _ IH]; intros Hn; [reflexivity|].
  rewrite pacing_calls_app, IH by (intros Hin; apply Hn; right; exact Hin).
  destruct d; try reflexivity. exfalso. apply Hn. left. reflexivity.
Qed.

Lemma pacing_calls_repeat n : pacing_calls (repeat SClockTick n) = n.
Proof.
  unfold pacing_calls. induction n as [|n IH]; cbn; [reflexivity|].
  rewrite IH. reflexivity.
Qed.

Lemma chunks_draw_with_player n l tr :
  chunks (fun d t => t = SDraw d :: match d with
                                    | DPlayer => repeat SClockTick n
                                    | _ => []
                                    end) l tr ->
  NoDup l -> In DPlayer l ->
  pacing_calls tr = n /\ In (SDraw DPlayer) tr.
Proof.
  intros H. induction H as [|d l t tr -> Hch IH]; intros Hnd Hin; [destruct Hin|].
  inversion Hnd as [|? ? Hd Hl]; subst.
  rewrite pacing_calls_app.
  destruct (Drawable_eqb d DPlayer) eqn:E.
  - apply Drawable_eqb_eq in E. subst d.
    rewrite (chunks_draw_without_player n l tr Hch Hd).
    change (SDraw DPlayer :: repeat SClockTick n)
      with ([SDraw DPlayer] ++ repeat SClockTick n).
    rewrite pacing_calls_app, pacing_calls_repeat.
    split; [cbn; lia | left; reflexivity].
  - assert (Hne : d <> DPlayer).
    { intros ->. cbn in E. discriminate. }
    destruct Hin as [Hin|Hin]; [contradiction|].
    destruct (IH Hl Hin) as [Hp Hi].
    split.
    + rewrite Hp. destruct d; try contradiction; reflexivity.
    + apply in_app_iff. right. exact Hi.
Qed.

Lemma runs_drawables_loop n v h :
  wf n v ->
  runs (py_for (length (drawables v)) drawables draw_one 0 v) h
    (fun v' tr =>
       wf n v' /\ game_state v' = game_state v /\
       pacing_calls tr = n /\ In (SDraw DPlayer) tr /\
       (synced (player v) -> synced (player v'))).
Proof.
  intros Hwf.
  eapply runs_weaken.
  - apply (py_for_stable drawables draw_one
             (fun u => wf n u /\ game_state u = game_state v /\
                       (synced (player v) -> synced (player u)))
             (fun _ => True) (fun _ => False)
             (fun d t => t = SDraw d :: match d with
                                        | DPlayer => repeat SClockTick n
                                        | _ => []
                                        end)).
    + intros d u h0 (Hu & Hg & Hs) Hin. eapply runs_weaken.
      * apply (runs_draw_one n); assumption.
      * cbv beta. intros u' tr (Hu' & Hg' & Hd & Ht & Hk).
        split; [split; [exact Hu' | split; [congruence | auto]]|].
        split; [exact Hd | split; [exact Ht | split; auto]].
    + split; [exact Hwf | split; [reflexivity | auto]].
    + lia.
  - cbv beta. intros v' tr ((Hv' & Hg & Hs) & _ & Hch & _).
    cbn [skipn] in Hch. destruct Hwf as (Hr & _).
    destruct (chunks_draw_with_player n _ _ Hch
                (wr_nodup_drawables v Hr) (wr_player_drawn v Hr)) as [Hp Hi].
    auto.
Qed.

(** The projectile pass changes [bullets] under the iterator; the fuel
    [length bullets] of [collide_bullets] is enough for it. *)
Lemma runs_bullets_from n fuel :
  forall i v h,
    wf n v -> (length (bullets v) <= fuel + i)%nat ->
    runs (py_for fuel bullets collide_bullet i v) h
      (fun v' tr =>
         wf n v' /\ game_state v' = game_state v /\ Forall is_collide tr /\
         (synced (player v) -> synced (player v'))).
Proof.
  induction fuel as [|fuel IH]; intros i v h Hwf Hlen.
  - assert (E : nth_error (bullets v) i = None) by (apply nth_error_None; lia).
    apply (runs_ext _ (ret v)).
    { cbn. rewrite E. reflexivity. }
    apply runs_ret. auto.
  - destruct (nth_error (bullets v) i) as [r|] eqn:E.
    2:{ apply (runs_ext _ (ret v)).
        { cbn. rewrite E. reflexivity. }
        apply runs_ret. auto. }
    apply (runs_ext _ (v' <- collide_bullet r v ;;
                       py_for fuel bullets collide_bullet (S i) v')).
    { cbn. rewrite E. reflexivity. }
    assert (Hin : In r (bullets v)) by (eapply nth_error_In; exact E).
    pose proof Hwf as (Hr & Hp & Hb).
    destruct (wr_bullets v Hr r Hin) as [Hm _].
    destruct (wr_movables v Hr r Hm) as [b Eb].
    eapply runs_bind.
    + (* one call of [player.is_colliding(bullet, ...)] *)
      unfold collide_bullet. rewrite Eb.
      eapply runs_bind.
      * apply runs_log; [reflexivity|].
        exact (eq_refl : (fun (_ : unit) tr => tr = [_]) tt [_]).
      * intros [] tr1 h1 ->.
        instantiate (1 := fun v' tr =>
          wf n v' /\ game_state v' = game_state v /\ Forall is_collide tr /\
          (synced (player v) -> synced (player v')) /\
          (length (bullets v') <= length (bullets v))%nat).
        cbv beta.
        destruct (colliderect _ _).
        -- destruct (bullet_collide_spec n r v Hwf Hin)
             as (v' & Hok & Hwf' & _ & _ & _ & (l1 & l2 & E1 & E2) & Hpl & Hg & _).
           eapply runs_lift; [exact Hok|].
           split; [exact Hwf' | split; [exact Hg | split; [|split]]].
           ++ constructor; [exact I | constructor].
           ++ rewrite Hpl. unfold synced.
              destruct (hit_sight_frame (player v)) as (_ & _ & Eh & Ex & Ey).
              rewrite Eh, Ex, Ey. auto.
           ++ rewrite E1, E2, !length_app. cbn. lia.
        -- apply runs_ret.
           split; [exact Hwf | split; [reflexivity | split; [|split]]]; auto.
           constructor; [exact I | constructor].
    + cbv beta. intros v1 tr1 h1 (Hwf1 & Hg1 & Hc1 & Hs1 & Hl1).
      eapply runs_weaken.
      * apply (IH (S i) v1 h1 Hwf1). lia.
      * cbv beta. intros v2 tr2 (Hwf2 & Hg2 & Hc2 & Hs2).
        split; [exact Hwf2 | split; [congruence | split; [|auto]]].
        apply Forall_app. auto.
Qed.

Lemma runs_collide_bullets n v h :
  wf n v ->
  runs (collide_bullets v) h
    (fun v' tr =>
       wf n v' /\ game_state v' = game_state v /\ Forall is_collide tr /\
       (synced (player v) -> synced (player v'))).
Proof.
  intros Hwf. unfold collide_bullets. apply runs_bullets_from; [exact Hwf|lia].
Qed.

(** ** One frame *)

(** The head of the loop body up to the quit check touches only the host:
    whatever was posted before [pygame.event.clear()] is dropped there, and
    [check_quit] sees the escape key and the events posted after it. *)
Lemma frame_head (k : bool -> M Vars) (inp : Input) (h : Host) :
  (post_events (posted inp) ;;
   log SGetPressed ;;
   log SFill ;;
   event_clear ;;
   quit <- check_quit (keys inp) (posted_late inp) ;;
   log (SCheckQuit quit) ;;
   k quit) h
  = k (keys inp K_ESCAPE || existsb is_quit (posted_late inp))
      (mkHost (clock_feed h) (clock_calls h) []
         (trace h ++ [SGetPressed; SFill; SEventClear;
                      SCheckQuit (keys inp K_ESCAPE
                                  || existsb is_quit (posted_late inp))])).
Proof.
  unfold bind, post_events, log, event_clear, check_quit.
  destruct (keys inp K_ESCAPE); cbn;
    rewrite <- !app_assoc; reflexivity.
Qed.

Lemma runs_after {A} (m m' : M A) h h1 tr0 (Q : A -> list Step -> Prop) :
  m h = m' h1 -> steps h h1 tr0 ->
  runs m' h1 (fun a tr => Q a (tr0 ++ tr)) -> runs m h Q.
Proof.
  intros E S0 (a & h2 & tr & E2 & S2 & H2).
  exists a, h2, (tr0 ++ tr). rewrite E. eauto using steps_trans.
Qed.

Lemma game_state_is_true v k : game_state_is v k = true -> game_state v = Some k.
Proof.
  unfold game_state_is. destruct (game_state v); [|discriminate].
  intros H. apply Z.eqb_eq in H. congruence.
Qed.

(** What every frame does, from any well-formed state: it runs to its end
    without raising; its steps are the four of the head, ending in the quit
    check, and then the rest of the body, among them [key_move], the
    Player's [move] and the Player's [draw]; the pacing calls are one for
    the phase clock, one per animation cycle, and one more for the spawn
    timer when the frame ends in phase 1. *)
Lemma frame_runs n inp v h :
  wf n v ->
  runs (frame inp v) h (fun v' tr =>
    wf n v' /\ synced (player v') /\
    exists rest,
      tr = [SGetPressed; SFill; SEventClear;
            SCheckQuit (keys inp K_ESCAPE || existsb is_quit (posted_late inp))]
           ++ rest /\
      In SKeyMove rest /\ In (SMove MPlayer) rest /\ In (SDraw DPlayer) rest /\
      pacing_calls rest = (n + 1 + (if game_state_is v' 1 then 1 else 0))%nat /\
      (keys inp K_ESCAPE || existsb is_quit (posted_late inp) = true ->
       game_state v' = None \/ game_state v' = Some 2%Z)).
Proof.
  intros Hwf.
  set (q := keys inp K_ESCAPE || existsb is_quit (posted_late inp)).
  eapply runs_after.
  - unfold frame. apply frame_head.
  - unfold steps. cbn. fold q. repeat split. unfold pacing_calls. cbn. lia.
  - fold q. cbv beta.
    set (v0 := if q then set_game_state v None else v).
    assert (Hwf0 : wf n v0).
    { unfold v0. destruct q; [apply wf_set_game_state|]; exact Hwf. }
    assert (Hq0 : q = true -> game_state v0 = None).
    { unfold v0. intros ->. reflexivity. }
    clearbody v0.
    (* timer.tick() *)
    eapply runs_bind; [apply (runs_tick_timer n); exact Hwf0|].
    cbv beta. intros v1 tr1 h1 (Hwf1 & -> & Hg1).
    (* bullet_timer.tick() in phase 1 *)
    eapply runs_bind.
    { instantiate (1 := fun v2 tr =>
        wf n v2 /\ game_state v2 = game_state v1 /\
        tr = if game_state_is v1 1 then [SClockTick] else []).
      destruct (game_state_is v1 1).
      - eapply runs_weaken; [apply (runs_tick_bullet_timer n); exact Hwf1|].
        cbv beta. intros ? ? (? & ? & ?). auto.
      - apply runs_ret. auto. }
    cbv beta. intros v2 tr2 h2 (Hwf2 & Hg2 & ->).
    (* wall collisions in phase 2 *)
    eapply runs_bind.
    { instantiate (1 := fun v3 tr =>
        wf n v3 /\ game_state v3 = game_state v2 /\ Forall is_collide tr).
      destruct (game_state_is v2 2).
      - apply runs_walls_loop. exact Hwf2.
      - apply runs_ret. auto. }
    cbv beta. intros v3 tr3 h3 (Hwf3 & Hg3 & Hc3).
    (* player.key_move(keys) *)
    eapply runs_bind.
    { apply runs_log; [reflexivity|].
      exact (eq_refl : (fun (_ : unit) tr => tr = [SKeyMove]) tt [SKeyMove]). }
    cbv beta. intros [] tr4 h4 ->.
    set (v4 := set_player v3 (Player.key_move (player v3) (keys inp))).
    assert (Hwf4 : wf n v4).
    { apply wf_set_player; [exact Hwf3|].
      apply wf_player_key_move. apply Hwf3. }
    assert (Hg4 : game_state v4 = game_state v3) by reflexivity.
    clearbody v4.
    (* the moves *)
    eapply runs_bind; [apply (runs_movables_loop n); exact Hwf4|].
    cbv beta. intros v5 tr5 h5 (Hwf5 & Hg5 & -> & Hs5).
    (* the draws *)
    eapply runs_bind; [apply (runs_drawables_loop n); exact Hwf5|].
    cbv beta. intros v6 tr6 h6 (Hwf6 & Hg6 & Hp6 & Hi6 & Hs6).
    (* the projectile pass *)
    eapply runs_bind; [apply (runs_collide_bullets n); exact Hwf6|].
    cbv beta. intros v7 tr7 h7 (Hwf7 & Hg7 & Hc7 & Hs7).
    (* the goal zone in phase 2 *)
    eapply runs_bind.
    { instantiate (1 := fun v8 tr =>
        wf n v8 /\ Forall is_collide tr /\ player v8 = player v7 /\
        (game_state v8 = game_state v7 \/
         game_state v7 = Some 2%Z /\ game_state v8 = Some 3%Z)).
      destruct (game_state_is v7 2) eqn:E2.
      - eapply runs_weaken; [apply (runs_collide_end_zone n); exact Hwf7|].
        cbv beta. intros v8 tr8 (Hwf8 & Hc8 & Hg8 & Hp8).
        apply game_state_is_true in E2.
        split; [exact Hwf8 | split; [exact Hc8 | split; [exact Hp8|]]].
        destruct Hg8; auto.
      - apply runs_ret. auto. }
    cbv beta. intros v8 tr8 h8 (Hwf8 & Hc8 & Hp8 & Hg8).
    (* phase 3 ends the run *)
    eapply runs_bind.
    { instantiate (1 := fun v9 tr =>
        wf n v9 /\ Forall (fun s => s = SPrintEnd) tr /\ player v9 = player v8 /\
        game_state v9 = if game_state_is v8 3 then None else game_state v8).
      destruct (game_state_is v8 3).
      - eapply runs_bind.
        + apply runs_log; [reflexivity|].
          exact (eq_refl : (fun (_ : unit) tr => tr = [SPrintEnd]) tt [SPrintEnd]).
        + cbv beta. intros [] tr9 h9 ->. apply runs_ret.
          split; [apply wf_set_game_state; exact Hwf8|].
          split; [repeat constructor | auto].
      - apply runs_ret. auto. }
    cbv beta. intros v9 tr9 h9 (Hwf9 & Hc9 & Hp9 & Hg9).
    (* pygame.display.update() *)
    eapply runs_bind.
    { apply runs_log; [reflexivity|].
      exact (eq_refl : (fun (_ : unit) tr => tr = [SDisplayUpdate]) tt [SDisplayUpdate]). }
    cbv beta. intros [] tr10 h10 ->. apply runs_ret.
    (* the state of the game at the end, by the state after the timer tick *)
    assert (Hg7' : game_state v7 = game_state v1) by congruence.
    assert (Hphase : game_state_is v9 1 = game_state_is v1 1).
    { unfold game_state_is. rewrite Hg9. unfold game_state_is.
      destruct Hg8 as [E|[E7 E8]].
      - rewrite E, Hg7'. destruct (game_state v1) as [k|]; [|reflexivity].
        destruct (k =? 3)%Z eqn:E3; [|reflexivity].
        apply Z.eqb_eq in E3. subst. reflexivity.
      - rewrite E8. cbn. rewrite <- Hg7', E7. reflexivity. }
    split; [exact Hwf9 | split].
    { rewrite Hp9, Hp8. auto. }
    eexists. split; [reflexivity|].
    split; [|split; [|split; [|split]]].
    + rewrite !in_app_iff. right. right. right. left. left. reflexivity.
    + rewrite !in_app_iff. right. right. right. right. left.
      apply in_map. destruct Hwf4 as (Hr & _). apply (wr_player_moves _ Hr).
    + rewrite !in_app_iff. do 5 right. left. exact Hi6.
    + rewrite !pacing_calls_app, Hp6, Hphase.
      rewrite (Forall_collide_pacing _ Hc3), (Forall_collide_pacing _ Hc7),
              (Forall_collide_pacing _ Hc8).
      assert (E9 : pacing_calls tr9 = 0%nat).
      { clear - Hc9. induction Hc9 as [|s l -> _ IH]; [reflexivity|].
        change (SPrintEnd :: l) with ([SPrintEnd] ++ l).
        rewrite pacing_calls_app, IH. reflexivity. }
      rewrite E9.
      assert (Em : pacing_calls (map SMove (movables v4)) = 0%nat).
      { clear. induction (movables v4) as [|m l IH]; [reflexivity|].
        cbn [map]. change (SMove m :: map SMove l) with ([SMove m] ++ map SMove l).
        rewrite pacing_calls_app, IH. reflexivity. }
      rewrite Em.
      destruct (game_state_is v1 1); cbn; lia.
    + intros Hq. specialize (Hq0 Hq).
      assert (H1 : game_state v1 = None \/ game_state v1 = Some 2%Z).
      { destruct Hg1 as [E|E]; [left; congruence | right; exact E]. }
      rewrite Hg9. unfold game_state_is.
      destruct Hg8 as [E|[E7 E8]].
      * rewrite E, Hg7'. destruct H1 as [->| ->]; auto.
      * rewrite E8. cbn. auto.
Qed.

(** ** The start state and the states reached from it *)

Lemma init_wf rows :
  (4 <= rows <= 9)%nat ->
  exists v0, init rows = Ok v0 /\ wf rows v0 /\ synced (player v0).
Proof.
  intros Hrows.
  assert (Hsheet : exists sheet,
            SpriteSheet.build rows [2; 2; 4; 8; 6; 8; 3; 8; 8]%nat
              ["stand"; "blink"; "walk"; "sprint"; "crouch"; "jump"; "fade";
               "death"; "attack"]%string
              [1; 1 # 10; 1 # 10; 1 # 10; 1 # 10; 1 # 10; 1 # 10; 1 # 10; 1 # 10]
            = Ok sheet /\ sheet_ok rows sheet).
  { assert (C : (rows = 4 \/ rows = 5 \/ rows = 6 \/ rows = 7 \/ rows = 8
                 \/ rows = 9)%nat) by lia.
    destruct C as [->|[->|[->|[->|[->| ->]]]]];
      (eexists; split; [reflexivity|]);
      (split; [reflexivity | split; [|cbn; auto 10]]);
      repeat constructor; cbn; lia. }
  destruct Hsheet as (sheet & Eb & Hok).
  unfold init, Player.new. rewrite Eb.
  eexists. split; [reflexivity|]. split; [split; [|split]|].
  - constructor; cbn [timer bullets movables drawables heap].
    + reflexivity.
    + intros r [].
    + intros r [H|[]]. discriminate.
    + intros d [<-|[<-|[]]]; cbn; auto.
    + constructor.
    + constructor; [intros []|constructor].
    + constructor; [intros [H|[]]; discriminate|].
      constructor; [intros []|constructor].
    + left. reflexivity.
    + left. reflexivity.
  - constructor; cbn [player Player.sprites Player.hitbox Player._hitbox].
    + exact Hok.
    + unfold sight_ok. cbn. split; [lra|]. split; [lra|]. discriminate.
    + reflexivity.
    + reflexivity.
    + vm_compute. repeat split; discriminate.
  - reflexivity.
  - unfold synced. cbn [player Player.hitbox Player._hitbox Player.x Player.y].
    split; [reflexivity|]. lra.
Qed.

Lemma main_loop_runs n inputs :
  forall v h,
    wf n v -> synced (player v) ->
    runs (main_loop inputs v) h (fun v' _ => wf n v' /\ synced (player v')).
Proof.
  induction inputs as [|inp rest IH]; intros v h Hwf Hs; cbn [main_loop].
  - apply runs_ret. auto.
  - destruct (game_state v).
    + eapply runs_bind.
      * apply (frame_runs n). exact Hwf.
      * cbv beta. intros v1 tr1 h1 (Hwf1 & Hs1 & _).
        eapply runs_weaken; [apply IH; assumption|]. auto.
    + apply runs_ret. auto.
Qed.

Lemma reachable_wf rows v h :
  (4 <= rows <= 9)%nat -> reachable rows v h -> wf rows v /\ synced (player v).
Proof.
  intros Hrows (v0 & feed & inputs & E0 & Erun).
  destruct (init_wf rows Hrows) as (v0' & E0' & Hwf & Hs).
  assert (v0' = v0) by congruence. subst v0'.
  destruct (main_loop_runs rows inputs v0 (host0 feed) Hwf Hs)
    as (v' & h' & tr & E & _ & H).
  rewrite Erun in E. injection E as -> ->. exact H.
Qed.

(** Whenever the loop evaluates its condition the sight of the Player is
    in its range and its hitbox is inside the playfield. *)
Lemma reachable_player_ok rows v h :
  (4 <= rows <= 9)%nat -> reachable rows v h ->
  sight_ok (player v) /\ in_playfield (Player.hitbox (player v)).
Proof.
  intros Hrows Hreach.
  destruct (reachable_wf rows v h Hrows Hreach) as [(_ & Hp & _) _].
  split; [apply (wp_sight rows _ Hp) | apply (wp_inside rows _ Hp)].
Qed.

(* ===================================================================== *)
(** * Part III: the loop *)
(* ===================================================================== *)

(** ** C2: the quit check *)

(** C2, as stated, fails: in the first frame of a run with the escape key
    held the quit check returns true, and the same frame still ticks the
    Timer, runs [key_move], moves the Player and draws both drawables
    before the loop stops. *)
Lemma C2_escape_frame_still_moves_and_draws :
  match frame (holding K_ESCAPE) start (host0 feed16) with
  | Ok (v', h') =>
      game_state v' = None /\
      trace h' =
        [SGetPressed; SFill; SEventClear; SCheckQuit true; SClockTick;
         SKeyMove; SMove MPlayer; SDraw DPlayer]
        ++ repeat SClockTick 9 ++ [SDraw (DObj 0%nat); SDisplayUpdate]
  | Raise _ => False
  end.
Proof. vm_compute. split; reflexivity. Qed.

(** C2, amended: on every frame the quit condition is evaluated before any
    simulation step, right after the key snapshot, the clearing of the
    surface and [pygame.event.clear()]; it is true when the escape key is
    held or when [pygame.event.get()] inside [check_quit] returns a
    window-close event.  The frame is not cut short when it is true:
    [key_move], the Player's [move] and the Player's [draw] still run, the
    frame ends with [game_state] set to [None] or to 2 (the value the
    countdown callback assigns), and the loop runs no further frame once it
    finds [game_state] to be [None]. *)
Theorem C2_quit_checked_first_frame_runs_to_its_end :
  forall (rows : nat) (v : Vars) (h : Host) (inp : Input),
    (4 <= rows <= 9)%nat ->
    reachable rows v h ->
    exists (v' : Vars) (h' : Host) (rest : list Step),
      frame inp v h = Ok (v', h') /\
      trace h' =
        trace h ++
        [SGetPressed; SFill; SEventClear;
         SCheckQuit (keys inp K_ESCAPE || existsb is_quit (posted_late inp))]
        ++ rest /\
      In SKeyMove rest /\ In (SMove MPlayer) rest /\ In (SDraw DPlayer) rest /\
      (keys inp K_ESCAPE || existsb is_quit (posted_late inp) = true ->
       game_state v' = None \/ game_state v' = Some 2%Z) /\
      (game_state v' = None ->
       forall (more : list Input) (h2 : Host), main_loop more v' h2 = Ok (v', h2)).
Proof.
  intros rows v h inp Hrows Hreach.
  destruct (reachable_wf rows v h Hrows Hreach) as [Hwf _].
  destruct (frame_runs rows inp v h Hwf)
    as (v' & h' & tr & E & (_ & Htr & _) & _ & _ & rest & -> & Hk & Hm & Hd & _ & Hq).
  exists v', h', rest.
  split; [exact E|]. split; [exact Htr|].
  split; [exact Hk|]. split; [exact Hm|]. split; [exact Hd|].
  split; [exact Hq|].
  intros Hnone more h2. destruct more as [|inp' more]; cbn [main_loop].
  - reflexivity.
  - rewrite Hnone. reflexivity.
Qed.

Lemma C2_quit_checked_first_frame_runs_to_its_end_witness :
  exists (v' : Vars) (h' : Host) (rest : list Step),
    frame (holding K_ESCAPE) start (host0 feed16) = Ok (v', h') /\
    trace h' =
      trace (host0 feed16) ++
      [SGetPressed; SFill; SEventClear;
       SCheckQuit (keys (holding K_ESCAPE) K_ESCAPE
                   || existsb is_quit (posted_late (holding K_ESCAPE)))]
      ++ rest /\
    In SKeyMove rest /\ In (SMove MPlayer) rest /\ In (SDraw DPlayer) rest /\
    (keys (holding K_ESCAPE) K_ESCAPE
     || existsb is_quit (posted_late (holding K_ESCAPE)) = true ->
     game_state v' = None \/ game_state v' = Some 2%Z) /\
    (game_state v' = None ->
     forall (more : list Input) (h2 : Host), main_loop more v' h2 = Ok (v', h2)).
Proof.
  apply (C2_quit_checked_first_frame_runs_to_its_end 9 start (host0 feed16)
           (holding K_ESCAPE)).
  - lia.
  - exists start, feed16, []. split; reflexivity.
Defined.

(** A window-close event that is already in the queue when the frame
    starts does not reach [check_quit]: [pygame.event.clear()] empties the
    queue before [pygame.event.get()] reads it. *)
Lemma queued_quit_is_cleared :
  match frame (mkInput no_keys [QUIT] [] spawn0) start (host0 feed16) with
  | Ok (v', h') =>
      game_state v' = Some 1%Z /\
      firstn 4 (trace h') = [SGetPressed; SFill; SEventClear; SCheckQuit false]
  | Raise _ => False
  end.
Proof. vm_compute. split; reflexivity. Qed.

(** ** C10: pacing calls *)

(** C10, as stated, fails: the first frame of a run makes eleven blocking
    [Clock.tick(FPS)] calls, one for the countdown Timer, one for the spawn
    Timer and one for each of the nine animation cycles. *)
Lemma C10_first_frame_paces_eleven_times :
  match frame idle start (host0 feed16) with
  | Ok (_, h') => clock_calls h' = 11%nat /\ pacing_calls (trace h') = 11%nat
  | Raise _ => False
  end.
Proof. vm_compute. split; reflexivity. Qed.

(** C10, amended: on every frame the blocking pacing call is made once per
    Timer or Stopwatch ticked in that frame: once for the phase Timer or
    Stopwatch, once for each animation cycle of the Player ([rows] of them,
    nine for the full sheet), and once more for the spawn Timer in the
    frames that end in phase 1. *)
Theorem C10_pacing_calls_once_per_ticked_timer :
  forall (rows : nat) (v : Vars) (h : Host) (inp : Input),
    (4 <= rows <= 9)%nat ->
    reachable rows v h ->
    exists (v' : Vars) (h' : Host),
      frame inp v h = Ok (v', h') /\
      clock_calls h' =
        (clock_calls h + rows + 1 + (if game_state_is v' 1 then 1 else 0))%nat.
Proof.
  intros rows v h inp Hrows Hreach.
  destruct (reachable_wf rows v h Hrows Hreach) as [Hwf _].
  destruct (frame_runs rows inp v h Hwf)
    as (v' & h' & tr & E & (_ & _ & Hc) & _ & _ & rest & -> & _ & _ & _ & Hp & _).
  exists v', h'. split; [exact E|].
  rewrite Hc, pacing_calls_app, Hp.
  change (pacing_calls [SGetPressed; SFill; SEventClear; SCheckQuit _]) with 0%nat.
  lia.
Qed.

Lemma C10_pacing_calls_once_per_ticked_timer_witness :
  exists (v' : Vars) (h' : Host),
    frame idle start (host0 feed16) = Ok (v', h') /\
    clock_calls h' =
      (clock_calls (host0 feed16) + 9 + 1
       + (if game_state_is v' 1 then 1 else 0))%nat.
Proof.
  apply (C10_pacing_calls_once_per_ticked_timer 9 start (host0 feed16) idle).
  - lia.
  - exists start, feed16, []. split; reflexivity.
Defined.

(** ** C3: the Countdown to Navigation transition *)

(** C3: when the tick of the countdown Timer brings its remaining time to
    zero or below, the callback [change_state] leaves the program in phase
    2 with no projectile in any roster: [bullets] is empty, [movables] is
    exactly the Player, [drawables] is exactly the Player, every wall, the
    goal zone and the object now bound to [timer], which is a Stopwatch at
    time 0 that did not exist before; [show_sight] is set and the Player is
    at (50, 50). *)
Theorem C3_countdown_expiry_swaps_the_rosters :
  forall (v : Vars) (h : Host) (t : Timer.t),
    nth_error (heap v) (timer v) = Some (OTimer t) ->
    0 < Timer.time t ->
    Timer.time t - seconds (next_reading h) <= 0 ->
    exists (v' : Vars) (h' : Host),
      tick_timer v h = Ok (v', h') /\
      game_state v' = Some 2%Z /\
      bullets v' = [] /\
      movables v' = [MPlayer] /\
      drawables v' =
        [DPlayer] ++ map DWall (seq 0 (length walls)) ++ [DEndZone; DObj (timer v')] /\
      timer v' = length (heap v) /\
      nth_error (heap v') (timer v') = Some (OStopwatch (Stopwatch.mk 0)) /\
      Player.show_sight (player v') = true /\
      Player.x (player v') = 50 /\
      Player.y (player v') = 50.
Proof.
  intros v h t Ht Hpos Hexp.
  assert (Ep : Qltb 0 (Timer.time t) = true) by (apply Qltb_lt; exact Hpos).
  assert (Ef : Qleb (Timer.time t - seconds (next_reading h)) 0 = true)
    by (apply Qleb_le; exact Hexp).
  unfold tick_timer. rewrite Ht.
  unfold bind, Timer_tick, Timer.tick, bind.
  cbn [Timer.paced Timer.self' Timer.fired Timer.time].
  rewrite Ep. cbn [clock_tick ret fst snd Timer.time]. rewrite Ef.
  eexists _, _. split; [reflexivity|].
  unfold change_state, on_state_change.
  cbn [game_state bullets movables drawables timer heap player set_game_state
       set_heap Player.show_sight Player.x Player.y Player.set_position
       Player.set_show_sight].
  rewrite store_length.
  repeat split.
  rewrite nth_error_app2 by (rewrite store_length; lia).
  rewrite store_length, Nat.sub_diag. reflexivity.
Qed.

(** The countdown Timer of the start state ticked with a reading of 20 s. *)
Lemma C3_countdown_expiry_swaps_the_rosters_witness :
  exists (v' : Vars) (h' : Host),
    tick_timer start (host0 (fun _ => 20000%Z)) = Ok (v', h') /\
    game_state v' = Some 2%Z /\
    bullets v' = [] /\
    movables v' = [MPlayer] /\
    drawables v' =
      [DPlayer] ++ map DWall (seq 0 (length walls)) ++ [DEndZone; DObj (timer v')] /\
    timer v' = length (heap start) /\
    nth_error (heap v') (timer v') = Some (OStopwatch (Stopwatch.mk 0)) /\
    Player.show_sight (player v') = true /\
    Player.x (player v') = 50 /\
    Player.y (player v') = 50.
Proof.
  apply (C3_countdown_expiry_swaps_the_rosters start (host0 (fun _ => 20000%Z))
           (Timer.mk 20)).
  - reflexivity.
  - reflexivity.
  - vm_compute. discriminate.
Defined.

(** ** C5: a hit by a projectile *)

(** C5: when [player.is_colliding(bullet, on_player_bullet_collide)] finds
    the hitboxes of the Player and of a projectile overlapping, and the
    projectile is listed once in each roster (as the loop keeps it), the
    projectile, and nothing else, is removed from [bullets], [movables] and
    [drawables]: each roster is the old one with that one entry taken out,
    every other entry kept in its place; the objects, the phase and the two
    Timers are as before, and the Player is changed in its sight only.  A
    sight of at least 0.1 goes down by exactly 0.05, so that 0.5 becomes
    0.45, and a sight below 0.1, such as 0.08, stays as it is. *)
Theorem C5_hit_removes_projectile_and_dims_sight :
  forall (v : Vars) (h : Host) (r : ref) (b : TextBullet.t),
    nth_error (heap v) r = Some (OBullet b) ->
    colliderect (Player.hitbox (player v)) (TextBullet.hitbox b) = true ->
    In r (bullets v) -> In (MObj r) (movables v) -> In (DObj r) (drawables v) ->
    NoDup (bullets v) -> NoDup (movables v) -> NoDup (drawables v) ->
    exists (v' : Vars) (h' : Host),
      collide_bullet r v h = Ok (v', h') /\
      ~ In r (bullets v') /\
      ~ In (MObj r) (movables v') /\
      ~ In (DObj r) (drawables v') /\
      (exists b1 b2, bullets v = b1 ++ r :: b2 /\ bullets v' = b1 ++ b2) /\
      (exists m1 m2,
         movables v = m1 ++ MObj r :: m2 /\ movables v' = m1 ++ m2) /\
      (exists d1 d2,
         drawables v = d1 ++ DObj r :: d2 /\ drawables v' = d1 ++ d2) /\
      heap v' = heap v /\
      game_state v' = game_state v /\
      timer v' = timer v /\
      bullet_timer v' = bullet_timer v /\
      trace h' = trace h ++ [SCollide (CBullet r) true] /\
      player v' = Player.set_sight (player v) (Player.sight (player v')) /\
      (1 # 10 <= Player.sight (player v) ->
       Player.sight (player v') == Player.sight (player v) - (5 # 100)) /\
      (Player.sight (player v) < 1 # 10 ->
       Player.sight (player v') = Player.sight (player v)) /\
      (Player.sight (player v) == 5 # 10 ->
       Player.sight (player v') == 45 # 100) /\
      (Player.sight (player v) == 8 # 100 ->
       Player.sight (player v') == 8 # 100).
Proof.
  intros v h r b Hb Hhit Hib Him Hid Nb Nm Nd.
  destruct (remove_first_spec Nat.eqb r (bullets v) Nat.eqb_eq Hib)
    as (b1 & b2 & Eb & _ & Rb).
  destruct (remove_first_spec Movable_eqb (MObj r) (movables v) Movable_eqb_eq Him)
    as (m1 & m2 & Em & _ & Rm).
  destruct (remove_first_spec Drawable_eqb (DObj r) (drawables v) Drawable_eqb_eq Hid)
    as (d1 & d2 & Ed & _ & Rd).
  pose proof Nb as Nb'. pose proof Nm as Nm'. pose proof Nd as Nd'.
  rewrite Eb in Nb'. rewrite Em in Nm'. rewrite Ed in Nd'.
  destruct (NoDup_remove_mid _ _ _ Nb') as [_ Fb].
  destruct (NoDup_remove_mid _ _ _ Nm') as [_ Fm].
  destruct (NoDup_remove_mid _ _ _ Nd') as [_ Fd].
  unfold collide_bullet. rewrite Hb, Hhit.
  unfold bind, log, on_player_bullet_collide. rewrite Rb, Rm, Rd.
  cbn [lift ret].
  eexists _, _. split; [reflexivity|].
  cbn [bullets movables drawables player heap game_state timer bullet_timer
       trace].
  split; [exact Fb|]. split; [exact Fm|]. split; [exact Fd|].
  split; [exists b1, b2; split; [exact Eb | reflexivity]|].
  split; [exists m1, m2; split; [exact Em | reflexivity]|].
  split; [exists d1, d2; split; [exact Ed | reflexivity]|].
  do 5 (split; [reflexivity|]).
  split; [unfold hit_sight, when; destruct (player v);
          destruct (Qleb _ _); reflexivity|].
  unfold hit_sight, when.
  destruct (Qleb (1 # 10) (Player.sight (player v))) eqn:E;
    [apply Qleb_le in E | apply Qleb_gt in E];
    cbn [Player.sight Player.set_sight].
  - split; [intros _; reflexivity|].
    split; [intros Hlt; lra|].
    split; [intros ->; reflexivity | intros H8; lra].
  - split; [intros Hle; lra|].
    split; [intros _; reflexivity|].
    split; [intros H5; lra | intros H8; exact H8].
Qed.

Lemma C5_hit_removes_projectile_and_dims_sight_witness :
  exists (v' : Vars) (h' : Host),
    collide_bullet 1%nat hit_scene (host0 feed16) = Ok (v', h') /\
    ~ In 1%nat (bullets v') /\
    ~ In (MObj 1%nat) (movables v') /\
    ~ In (DObj 1%nat) (drawables v') /\
    (exists b1 b2,
       bullets hit_scene = b1 ++ 1%nat :: b2 /\ bullets v' = b1 ++ b2) /\
    (exists m1 m2,
       movables hit_scene = m1 ++ MObj 1%nat :: m2 /\ movables v' = m1 ++ m2) /\
    (exists d1 d2,
       drawables hit_scene = d1 ++ DObj 1%nat :: d2 /\
       drawables v' = d1 ++ d2) /\
    heap v' = heap hit_scene /\
    game_state v' = game_state hit_scene /\
    timer v' = timer hit_scene /\
    bullet_timer v' = bullet_timer hit_scene /\
    trace h' = trace (host0 feed16) ++ [SCollide (CBullet 1%nat) true] /\
    player v' = Player.set_sight (player hit_scene) (Player.sight (player v')) /\
    (1 # 10 <= Player.sight (player hit_scene) ->
     Player.sight (player v') == Player.sight (player hit_scene) - (5 # 100)) /\
    (Player.sight (player hit_scene) < 1 # 10 ->
     Player.sight (player v') = Player.sight (player hit_scene)) /\
    (Player.sight (player hit_scene) == 5 # 10 ->
     Player.sight (player v') == 45 # 100) /\
    (Player.sight (player hit_scene) == 8 # 100 ->
     Player.sight (player v') == 8 # 100).
Proof.
  apply (C5_hit_removes_projectile_and_dims_sight hit_scene (host0 feed16) 1%nat
           (flown 100 (TextBullet.new 200 0 (Vector.mk 2 0) (100, 14)%Z))).
  - reflexivity.
  - vm_compute. reflexivity.
  - simpl. auto.
  - simpl. auto.
  - simpl. auto.
  - simpl. repeat constructor; simpl; intuition discriminate.
  - simpl. repeat constructor; simpl; intuition discriminate.
  - simpl. repeat constructor; simpl; intuition discriminate.
Defined.

(** The two scenarios of C5 on binary64 floats: 0.5 - 0.05 is the float
    0.45, and 0.08 is left as it is. *)
Lemma binary64_hit_examples :
  Binary64.hit_sight 0.5 = 0.45%float /\ Binary64.hit_sight 0.08 = 0.08%float.
Proof. split; vm_compute; reflexivity. Qed.

(** ** C4: the projectile pass *)

(** C4 fails on the code.  At the end of the run [stand_by_lane] 71
    projectiles are live and the first two have reached the columns of the
    Player, just above its hitbox.  In the next frame the Player steps
    up into the lane and projectiles 1 and 2 both overlap its hitbox.  The
    pass finds the hit on projectile 1, which [on_player_bullet_collide]
    removes from [bullets] while the [for] loop is iterating over it; the
    iterator then moves on to projectile 3, and projectile 2, live and
    overlapping the Player, is not checked in that frame. *)
Theorem C4_projectile_after_a_hit_is_skipped :
  match main_loop stand_by_lane start (host0 feed250) with
  | Ok (v, h) =>
      game_state v = Some 1%Z /\
      bullets v = seq 1 71 /\
      match frame (mkInput (only_key K_w) [] [] lane169) v (forget_trace h) with
      | Ok (v', h') =>
          filter is_collide_step (trace h') =
            SCollide (CBullet 1%nat) true
            :: map (fun r => SCollide (CBullet r) false) (seq 3 70) /\
          bullets v' = seq 2 71 /\
          match nth_error (heap v') 2 with
          | Some (OBullet b) =>
              colliderect (Player.hitbox (player v')) (TextBullet.hitbox b) = true
          | _ => False
          end
      | Raise _ => False
      end
  | Raise _ => False
  end.
Proof. vm_compute. repeat split; reflexivity. Qed.

(** ** C8: the range of the sight value *)

Lemma sight_run_ok ops :
  forall p, sight_ok p -> sight_ok (sight_run ops p).
Proof.
  unfold sight_run.
  induction ops as [|op ops IH]; intros p Hp; cbn [fold_left]; [exact Hp|].
  apply IH. destruct op; cbn [sight_step];
    [apply animate_sight_ok | apply hit_sight_ok]; exact Hp.
Qed.

Lemma sight_step_done p op :
  Player.is_playing_animation p = false ->
  Player.is_playing_animation (sight_step p op) = false /\
  Player.sight (sight_step p op) <= Player.sight p.
Proof.
  intros Ha. destruct op; cbn [sight_step].
  - unfold Player.animate_sight. rewrite Ha, !andb_false_r.
    split; [exact Ha | lra].
  - destruct (hit_sight_frame p) as (_ & Ea & _). rewrite Ea.
    split; [exact Ha|].
    unfold hit_sight, when. destruct (Qleb _ _); cbn; lra.
Qed.

Lemma sight_run_done ops :
  forall p,
    Player.is_playing_animation p = false ->
    Player.is_playing_animation (sight_run ops p) = false /\
    Player.sight (sight_run ops p) <= Player.sight p.
Proof.
  unfold sight_run.
  induction ops as [|op ops IH]; intros p Ha; cbn [fold_left].
  - split; [exact Ha | lra].
  - destruct (sight_step_done p op Ha) as [Ha' Hle].
    destruct (IH _ Ha') as [Ha'' Hle'']. split; [exact Ha''|lra].
Qed.

(** C8, as stated, fails: six draws bring the sight to 0.12, a hit takes
    it to 0.07, forty-six more draws to 0.99, and the next draw, which
    still finds it below 1, to 1.01. *)
Lemma C8_sight_overshoots_one :
  Player.sight
    (sight_run (repeat OpDraw 6 ++ [OpHit] ++ repeat OpDraw 47) (player start))
  == 101 # 100 /\
  ~ Player.sight
      (sight_run (repeat OpDraw 6 ++ [OpHit] ++ repeat OpDraw 47) (player start))
    <= 1.
Proof. split; vm_compute; [reflexivity | intros H; apply H; reflexivity]. Qed.

(** The same on binary64 floats: that interleaving ends above 1, and so
    does the plain reveal, whose fifty additions of 0.02 do not sum to 1
    exactly. *)
Lemma binary64_sight_overshoots_one :
  PrimFloat.ltb 1
    (fst (Binary64.sight_run (repeat OpDraw 6 ++ [OpHit] ++ repeat OpDraw 47)
            (0%float, true))) = true /\
  PrimFloat.ltb 1
    (fst (Binary64.sight_run (repeat OpDraw 50) (0%float, true))) = true /\
  Binary64.sight_run (repeat OpDraw 51) (0%float, true) = (1%float, false).
Proof. repeat split; vm_compute; reflexivity. Qed.

(** C8, amended: under every interleaving of the sight animation of [draw]
    with hits, the sight stays in [[0, 1.02)], and in [[0, 1]] once the
    is-playing flag is cleared.  While the flag is set, a draw that finds
    the sight below 1 adds 0.02 to it (which can take it past 1, up to
    1.02); a draw that finds it at 1 or above sets it to 1 and clears the
    flag; with the flag cleared a draw changes nothing, the flag is never
    set again and the sight can only go down. *)
Theorem C8_sight_stays_in_range :
  forall (ops : list SightOp) (p : Player.t),
    0 <= Player.sight p ->
    Player.sight p < 102 # 100 ->
    (Player.is_playing_animation p = false -> Player.sight p <= 1) ->
    (0 <= Player.sight (sight_run ops p) /\
     Player.sight (sight_run ops p) < 102 # 100 /\
     (Player.is_playing_animation (sight_run ops p) = false ->
      Player.sight (sight_run ops p) <= 1)) /\
    (Player.is_playing_animation p = true -> Player.sight p < 1 ->
     Player.sight (Player.animate_sight p) = Player.sight p + (2 # 100) /\
     Player.is_playing_animation (Player.animate_sight p) = true) /\
    (Player.is_playing_animation p = true -> 1 <= Player.sight p ->
     Player.sight (Player.animate_sight p) = 1 /\
     Player.is_playing_animation (Player.animate_sight p) = false) /\
    (Player.is_playing_animation p = false ->
     Player.animate_sight p = p /\
     Player.is_playing_animation (sight_run ops p) = false /\
     Player.sight (sight_run ops p) <= Player.sight p).
Proof.
  intros ops p H0 H1 Hf.
  split; [apply sight_run_ok; unfold sight_ok; auto|].
  split; [|split].
  - intros Ha Hlt. unfold Player.animate_sight.
    apply Qltb_lt in Hlt. rewrite Hlt, Ha. cbn. auto.
  - intros Ha Hge. unfold Player.animate_sight.
    assert (E1 : Qltb (Player.sight p) 1 = false) by (apply Qltb_ge; exact Hge).
    apply Qleb_le in Hge. rewrite E1, Hge, Ha. cbn. auto.
  - intros Ha. split; [|apply sight_run_done; exact Ha].
    unfold Player.animate_sight. rewrite Ha, !andb_false_r. reflexivity.
Qed.

Lemma C8_sight_stays_in_range_witness :
  (0 <= Player.sight (sight_run [OpDraw; OpHit; OpDraw] (player start)) /\
   Player.sight (sight_run [OpDraw; OpHit; OpDraw] (player start)) < 102 # 100 /\
   (Player.is_playing_animation (sight_run [OpDraw; OpHit; OpDraw] (player start))
    = false ->
    Player.sight (sight_run [OpDraw; OpHit; OpDraw] (player start)) <= 1)) /\
  (Player.is_playing_animation (player start) = true ->
   Player.sight (player start) < 1 ->
   Player.sight (Player.animate_sight (player start))
   = Player.sight (player start) + (2 # 100) /\
   Player.is_playing_animation (Player.animate_sight (player start)) = true) /\
  (Player.is_playing_animation (player start) = true ->
   1 <= Player.sight (player start) ->
   Player.sight (Player.animate_sight (player start)) = 1 /\
   Player.is_playing_animation (Player.animate_sight (player start)) = false) /\
  (Player.is_playing_animation (player start) = false ->
   Player.animate_sight (player start) = player start /\
   Player.is_playing_animation (sight_run [OpDraw; OpHit; OpDraw] (player start))
   = false /\
   Player.sight (sight_run [OpDraw; OpHit; OpDraw] (player start))
   <= Player.sight (player start)).
Proof.
  apply (C8_sight_stays_in_range [OpDraw; OpHit; OpDraw] (player start)).
  - vm_compute. discriminate.
  - vm_compute. reflexivity.
  - vm_compute. discriminate.
Defined.

(** C9, on the hitbox and the position, is in Part V: its statement reads
    a frame off its result, with the lemmas of Part IV. *)

(* ===================================================================== *)
(** * Part IV: further properties *)
(* ===================================================================== *)

(** ** Stopwatch: the readings add up *)




(** ** Player: top speed, coming to rest, opposite keys *)

Section PlayerRest.

Import Player.

Ltac qcases :=
  repeat match goal with
  | |- context [Qltb ?a ?b] =>
      let E := fresh "E" in
      destruct (Qltb a b) eqn:E;
      [apply Qltb_lt in E | apply Qltb_ge in E]
  end.

(** The clamp never takes a component further from zero. *)
Lemma clamp_x_toward cx cy v :
  Vector.x v == cx ->
  (0 <= cx -> Vector.x (clamp cx cy v) <= cx) /\
  (cx <= 0 -> cx <= Vector.x (clamp cx cy v)).
Proof.
  unfold clamp, when, MAX_SPEED. intros Hx.
  destruct (Qltb 3 cy), (Qltb cy (- (3))); qcases; simpl; lra.
Qed.

Lemma clamp_y_toward cx cy v :
  Vector.y v == cy ->
  (0 <= cy -> Vector.y (clamp cx cy v) <= cy) /\
  (cy <= 0 -> cy <= Vector.y (clamp cx cy v)).
Proof.
  unfold clamp, when, MAX_SPEED. intros Hy.
  destruct (Qltb 3 cx), (Qltb cx (- (3))); qcases; simpl; lra.
Qed.

(** The dead band, exactly. *)
Lemma deadband_x_cases v :
  (- (5 # 100) < Vector.x v /\ Vector.x v < 5 # 100 /\ Vector.x (deadband v) = 0) \/
  ((Vector.x v <= - (5 # 100) \/ 5 # 100 <= Vector.x v) /\
   Vector.x (deadband v) = Vector.x v).
Proof.
  unfold deadband, when.
  destruct (Qltb (- (5 # 100)) (Vector.x v)) eqn:E1;
    [apply Qltb_lt in E1 | apply Qltb_ge in E1];
  (destruct (Qltb (Vector.x v) (5 # 100)) eqn:E2;
    [apply Qltb_lt in E2 | apply Qltb_ge in E2]);
  cbn [andb];
  match goal with |- context [if ?c then _ else _] => destruct c end;
  cbn [Vector.x Vector.set_x_vector Vector.set_y_vector]; auto.
Qed.

Lemma deadband_y_cases v :
  (- (5 # 100) < Vector.y v /\ Vector.y v < 5 # 100 /\ Vector.y (deadband v) = 0) \/
  ((Vector.y v <= - (5 # 100) \/ 5 # 100 <= Vector.y v) /\
   Vector.y (deadband v) = Vector.y v).
Proof.
  unfold deadband, when.
  destruct (Qltb (- (5 # 100)) (Vector.x v) && Qltb (Vector.x v) (5 # 100));
  cbn [Vector.y Vector.set_x_vector];
  (destruct (Qltb (- (5 # 100)) (Vector.y v)) eqn:E1;
    [apply Qltb_lt in E1 | apply Qltb_ge in E1]);
  (destruct (Qltb (Vector.y v) (5 # 100)) eqn:E2;
    [apply Qltb_lt in E2 | apply Qltb_ge in E2]);
  cbn [andb Vector.y Vector.set_y_vector]; auto.
Qed.

Lemma settle_slows v b :
  0 <= b ->
  (- b <= Vector.x v <= b ->
   - (b - (5 # 100)) <= Vector.x (settle v) <= b - (5 # 100) \/
   Vector.x (settle v) = 0) /\
  (- b <= Vector.y v <= b ->
   - (b - (5 # 100)) <= Vector.y (settle v) <= b - (5 # 100) \/
   Vector.y (settle v) = 0).
Proof.
  intros Hb. unfold settle.
  set (cx := Vector.x v). set (cy := Vector.y v).
  set (c := clamp cx cy v). set (f := friction cx cy c).
  pose proof (clamp_x cx cy v (Qeq_refl _)) as (Bx & Px & Nx & Zx).
  pose proof (clamp_y cx cy v (Qeq_refl _)) as (By & Py & Ny & Zy).
  pose proof (clamp_x_toward cx cy v (Qeq_refl _)) as (TPx & TNx).
  pose proof (clamp_y_toward cx cy v (Qeq_refl _)) as (TPy & TNy).
  pose proof (friction_x cx cy c) as (FPx & FNx & FZx).
  pose proof (friction_y cx cy c) as (FPy & FNy & FZy).
  fold c in Bx, Px, Nx, Zx, By, Py, Ny, Zy, TPx, TNx, TPy, TNy.
  fold f in FPx, FNx, FZx, FPy, FNy, FZy.
  split; intros Hv.
  - destruct (deadband_x_cases f) as [(_ & _ & E)|(Hout & E)]; [now right|].
    left. rewrite E.
    destruct (Q_dec cx 0) as [[H|H]|H];
      [ specialize (Nx H); specialize (FNx H)
      | specialize (Px H); specialize (FPx H)
      | specialize (Zx H); specialize (FZx H) ]; lra.
  - destruct (deadband_y_cases f) as [(_ & _ & E)|(Hout & E)]; [now right|].
    left. rewrite E.
    destruct (Q_dec cy 0) as [[H|H]|H];
      [ specialize (Ny H); specialize (FNy H)
      | specialize (Py H); specialize (FPy H)
      | specialize (Zy H); specialize (FZy H) ]; lra.
Qed.


Lemma released_key_move p k :
  released k ->
  velocity_vector (key_move p k) = settle (velocity_vector p) /\
  state (key_move p k) =
    if Qneqb (Vector.x (velocity_vector p)) 0
       || Qneqb (Vector.y (velocity_vector p)) 0
    then moving else still.
Proof.
  intros (Hw & Hs & Ha & Hd). split.
  - rewrite key_move_velocity. unfold accelerate, when.
    rewrite Hw, Hs, Ha, Hd. reflexivity.
  - unfold key_move, accelerate, when. rewrite Hw, Hs, Ha, Hd.
    cbn zeta. unfold Vector.get_vector_as_tuple.
    destruct (_ || _); reflexivity.
Qed.

Lemma key_moves_slow ks :
  forall b p,
    Forall released ks ->
    0 <= b - inject_Z (Z.of_nat (length ks)) * (5 # 100) ->
    - b <= Vector.x (velocity_vector p) <= b ->
    - b <= Vector.y (velocity_vector p) <= b ->
    let c := b - inject_Z (Z.of_nat (length ks)) * (5 # 100) in
    - c <= Vector.x (velocity_vector (key_moves ks p)) <= c /\
    - c <= Vector.y (velocity_vector (key_moves ks p)) <= c.
Proof.
  induction ks as [|k ks IH]; intros b p Hrel Hc Hx Hy; cbn zeta.
  - cbn [length Z.of_nat key_moves fold_left] in *.
    change (inject_Z 0) with 0 in *. lra.
  - inversion Hrel as [|? ? Hk Hks]; subst.
    cbn [key_moves fold_left]. fold (key_moves ks (key_move p k)).
    cbn [length] in *. rewrite Nat2Z.inj_succ in *.
    unfold Z.succ in *. rewrite inject_Z_plus in *.
    change (inject_Z 1) with 1 in *.
    assert (Hn : 0 <= inject_Z (Z.of_nat (length ks))).
    { change 0 with (inject_Z 0). rewrite <- Zle_Qle. lia. }
    assert (Hb : 0 <= b) by lra.
    destruct (released_key_move p k Hk) as (Ev & _).
    destruct (settle_slows (velocity_vector p) b Hb) as (Sx & Sy).
    specialize (Sx Hx). specialize (Sy Hy). rewrite <- Ev in Sx, Sy.
    specialize (IH (b - (5 # 100)) (key_move p k) Hks).
    cbn zeta in IH.
    assert (Hx' : - (b - (5 # 100)) <= Vector.x (velocity_vector (key_move p k))
                  <= b - (5 # 100)).
    { destruct Sx as [Sx|Sx]; [exact Sx|rewrite Sx; lra]. }
    assert (Hy' : - (b - (5 # 100)) <= Vector.y (velocity_vector (key_move p k))
                  <= b - (5 # 100)).
    { destruct Sy as [Sy|Sy]; [exact Sy|rewrite Sy; lra]. }
    destruct IH as (Ix & Iy); [lra|exact Hx'|exact Hy'|].
    lra.
Qed.


(** After friction no component is at [MAX_SPEED] any more. *)
Lemma settle_below_max v :
  - (MAX_SPEED - (5 # 100)) <= Vector.x (settle v) <= MAX_SPEED - (5 # 100) /\
  - (MAX_SPEED - (5 # 100)) <= Vector.y (settle v) <= MAX_SPEED - (5 # 100).
Proof.
  unfold settle.
  set (cx := Vector.x v). set (cy := Vector.y v).
  set (c := clamp cx cy v). set (f := friction cx cy c).
  pose proof (clamp_x cx cy v (Qeq_refl _)) as (Bx & Px & Nx & Zx).
  pose proof (clamp_y cx cy v (Qeq_refl _)) as (By & Py & Ny & Zy).
  pose proof (friction_x cx cy c) as (FPx & FNx & FZx).
  pose proof (friction_y cx cy c) as (FPy & FNy & FZy).
  fold c in Bx, Px, Nx, Zx, By, Py, Ny, Zy.
  fold f in FPx, FNx, FZx, FPy, FNy, FZy.
  unfold MAX_SPEED in *.
  split.
  - destruct (deadband_x_cases f) as [(_ & _ & E)|(Hout & E)]; rewrite E; [lra|].
    destruct (Q_dec cx 0) as [[H|H]|H];
      [ specialize (Nx H); specialize (FNx H)
      | specialize (Px H); specialize (FPx H)
      | specialize (Zx H); specialize (FZx H) ]; lra.
  - destruct (deadband_y_cases f) as [(_ & _ & E)|(Hout & E)]; rewrite E; [lra|].
    destruct (Q_dec cy 0) as [[H|H]|H];
      [ specialize (Ny H); specialize (FNy H)
      | specialize (Py H); specialize (FPy H)
      | specialize (Zy H); specialize (FZy H) ]; lra.
Qed.


(** The three stages of [key_move] respect [==] component by component. *)
Lemma clamp_compat cx cy v cx' cy' v' :
  cx == cx' -> cy == cy' ->
  Vector.x v == Vector.x v' -> Vector.y v == Vector.y v' ->
  Vector.x (clamp cx cy v) == Vector.x (clamp cx' cy' v') /\
  Vector.y (clamp cx cy v) == Vector.y (clamp cx' cy' v').
Proof.
  intros Hx Hy Vx Vy. unfold clamp, when, MAX_SPEED.
  split.
  - destruct (Qltb 3 cy), (Qltb cy (- (3))), (Qltb 3 cy'), (Qltb cy' (- (3)));
      qcases; cbn [Vector.x Vector.set_x_vector Vector.set_y_vector]; lra.
  - destruct (Qltb 3 cx), (Qltb cx (- (3))), (Qltb 3 cx'), (Qltb cx' (- (3)));
      qcases; cbn [Vector.y Vector.set_x_vector Vector.set_y_vector]; lra.
Qed.

Lemma friction_compat cx cy v cx' cy' v' :
  cx == cx' -> cy == cy' ->
  Vector.x v == Vector.x v' -> Vector.y v == Vector.y v' ->
  Vector.x (friction cx cy v) == Vector.x (friction cx' cy' v') /\
  Vector.y (friction cx cy v) == Vector.y (friction cx' cy' v').
Proof.
  intros Hx Hy Vx Vy. split.
  - pose proof (friction_x cx cy v) as (P & N & Z).
    pose proof (friction_x cx' cy' v') as (P' & N' & Z').
    destruct (Q_dec cx 0) as [[H|H]|H].
    + assert (H' : cx' < 0) by (clear - H Hx; lra).
      specialize (N H). specialize (N' H'). clear - N N' Vx. lra.
    + assert (H' : 0 < cx') by (clear - H Hx; lra).
      specialize (P H). specialize (P' H'). clear - P P' Vx. lra.
    + assert (H' : cx' == 0) by (clear - H Hx; lra).
      specialize (Z H). specialize (Z' H'). clear - Z Z' Vx. lra.
  - pose proof (friction_y cx cy v) as (P & N & Z).
    pose proof (friction_y cx' cy' v') as (P' & N' & Z').
    destruct (Q_dec cy 0) as [[H|H]|H].
    + assert (H' : cy' < 0) by (clear - H Hy; lra).
      specialize (N H). specialize (N' H'). clear - N N' Vy. lra.
    + assert (H' : 0 < cy') by (clear - H Hy; lra).
      specialize (P H). specialize (P' H'). clear - P P' Vy. lra.
    + assert (H' : cy' == 0) by (clear - H Hy; lra).
      specialize (Z H). specialize (Z' H'). clear - Z Z' Vy. lra.
Qed.

Lemma deadband_compat v v' :
  Vector.x v == Vector.x v' -> Vector.y v == Vector.y v' ->
  Vector.x (deadband v) == Vector.x (deadband v') /\
  Vector.y (deadband v) == Vector.y (deadband v').
Proof.
  intros Vx Vy. split.
  - destruct (deadband_x_cases v) as [(A & B & E)|(A & E)],
             (deadband_x_cases v') as [(A' & B' & E')|(A' & E')];
      rewrite E, E'; lra.
  - destruct (deadband_y_cases v) as [(A & B & E)|(A & E)],
             (deadband_y_cases v') as [(A' & B' & E')|(A' & E')];
      rewrite E, E'; lra.
Qed.

Lemma settle_compat v v' :
  Vector.x v == Vector.x v' -> Vector.y v == Vector.y v' ->
  Vector.x (settle v) == Vector.x (settle v') /\
  Vector.y (settle v) == Vector.y (settle v').
Proof.
  intros Vx Vy. unfold settle.
  destruct (clamp_compat _ _ v _ _ v' Vx Vy Vx Vy) as (Cx & Cy).
  destruct (friction_compat _ _ _ _ _ _ Vx Vy Cx Cy) as (Fx & Fy).
  apply deadband_compat; assumption.
Qed.

End PlayerRest.

(** X3: with none of W, A, S, D held, sixty calls of [key_move] bring
    the velocity to zero from any velocity, and it stays zero; from the
    sixty-first call on the movement state is ["still"]. *)
Theorem X3_player_comes_to_rest :
  forall (p : Player.t) (ks : list Keys),
    Forall released ks ->
    ((60 <= length ks)%nat ->
     Vector.x (Player.velocity_vector (key_moves ks p)) == 0 /\
     Vector.y (Player.velocity_vector (key_moves ks p)) == 0) /\
    ((61 <= length ks)%nat ->
     Player.state (key_moves ks p) = Player.still).
Proof.
  assert (Rest : forall (p : Player.t) (ks : list Keys),
    Forall released ks -> (60 <= length ks)%nat ->
    Vector.x (Player.velocity_vector (key_moves ks p)) == 0 /\
    Vector.y (Player.velocity_vector (key_moves ks p)) == 0).
  { intros p ks Hrel Hlen.
    destruct ks as [|k0 ks]; [cbn in Hlen; lia|].
    inversion Hrel as [|? ? Hk0 Hks]; subst.
    cbn [length] in Hlen.
    rewrite <- (firstn_skipn 59 ks) in *.
    apply Forall_app in Hks. destruct Hks as (H1 & H2).
    set (ks1 := firstn 59 ks) in *. set (ks2 := skipn 59 ks) in *.
    assert (L1 : length ks1 = 59%nat).
    { unfold ks1. rewrite length_firstn.
      rewrite length_app in Hlen. unfold ks1, ks2 in Hlen.
      rewrite length_firstn, length_skipn in Hlen. lia. }
    unfold key_moves. cbn [fold_left]. rewrite fold_left_app.
    fold (key_moves ks1 (Player.key_move p k0)).
    set (p1 := Player.key_move p k0).
    fold (key_moves ks2 (key_moves ks1 p1)).
    destruct (released_key_move p k0 Hk0) as (Ev & _).
    destruct (settle_below_max (Player.velocity_vector p)) as (Bx & By).
    rewrite <- Ev in Bx, By. fold p1 in Bx, By.
    unfold Player.MAX_SPEED in *.
    destruct (key_moves_slow ks1 (3 - (5 # 100)) p1 H1) as (Zx & Zy);
      [rewrite L1; vm_compute; discriminate | exact Bx | exact By |].
    rewrite L1 in Zx, Zy.
    assert (E0 : 3 - (5 # 100) - inject_Z (Z.of_nat 59) * (5 # 100) == 0) by reflexivity.
    rewrite E0 in Zx, Zy.
    destruct (key_moves_slow ks2 (inject_Z (Z.of_nat (length ks2)) * (5 # 100))
                (key_moves ks1 p1) H2) as (Rx & Ry).
    - lra.
    - assert (0 <= inject_Z (Z.of_nat (length ks2))).
      { change 0 with (inject_Z 0). rewrite <- Zle_Qle. lia. }
      lra.
    - assert (0 <= inject_Z (Z.of_nat (length ks2))).
      { change 0 with (inject_Z 0). rewrite <- Zle_Qle. lia. }
      lra.
    - lra. }
  intros p ks Hrel. split; [apply Rest; exact Hrel|].
  intros Hlen.
  destruct (exists_last (l := ks)) as (ks1 & k & E).
  { intros ->. cbn in Hlen. lia. }
  subst ks. apply Forall_app in Hrel. destruct Hrel as (H1 & H2).
  inversion H2 as [|? ? Hk _]; subst.
  unfold key_moves. rewrite fold_left_app. cbn [fold_left].
  fold (key_moves ks1 p).
  rewrite length_app in Hlen. cbn [length] in Hlen.
  destruct (Rest p ks1 H1) as (Zx & Zy); [lia|].
  destruct (released_key_move (key_moves ks1 p) k Hk) as (_ & Es).
  rewrite Es. unfold Qneqb.
  apply Qeq_bool_iff in Zx. apply Qeq_bool_iff in Zy.
  rewrite Zx, Zy. reflexivity.
Qed.

(** The Player of the start state, left alone for 61 frames. *)
Lemma X3_player_comes_to_rest_witness :
  ((60 <= length (repeat no_keys 61))%nat ->
   Vector.x (Player.velocity_vector (key_moves (repeat no_keys 61) (player start)))
     == 0 /\
   Vector.y (Player.velocity_vector (key_moves (repeat no_keys 61) (player start)))
     == 0) /\
  ((61 <= length (repeat no_keys 61))%nat ->
   Player.state (key_moves (repeat no_keys 61) (player start)) = Player.still).
Proof.
  apply (X3_player_comes_to_rest (player start) (repeat no_keys 61)).
  apply Forall_forall. intros k Hk. apply repeat_spec in Hk. subst k.
  unfold released, no_keys. auto.
Defined.

(** X4: after [key_move] each velocity component is at most
    [MAX_SPEED] minus the friction, 2.95, in absolute value, whatever the
    keys and the velocity before: the clamp to [MAX_SPEED] is always
    followed by the friction step. *)
Theorem X4_top_speed_is_below_max_speed :
  forall (self : Player.t) (keys : Keys),
    let v := Player.velocity_vector (Player.key_move self keys) in
    Qabs (Vector.x v) <= Player.MAX_SPEED - Vector.x Player.FRICTION_VECTOR /\
    Qabs (Vector.y v) <= Player.MAX_SPEED - Vector.y Player.FRICTION_VECTOR.
Proof.
  intros self keys. cbv zeta.
  pose proof (key_move_velocity self keys) as Ev. cbn zeta in Ev.
  rewrite Ev.
  destruct (settle_below_max (Player.accelerate (Player.acceleration_vector self)
                                keys (Player.velocity_vector self))) as (Bx & By).
  unfold settle in Bx, By.
  change (Vector.x Player.FRICTION_VECTOR) with (5 # 100).
  change (Vector.y Player.FRICTION_VECTOR) with (5 # 100).
  split; apply Qabs_Qle_condition; assumption.
Qed.


Lemma Qneqb_compat a b : a == b -> Qneqb a 0 = Qneqb b 0.
Proof.
  intros H. unfold Qneqb. f_equal.
  destruct (Qeq_bool a 0) eqn:Ea, (Qeq_bool b 0) eqn:Eb; try reflexivity.
  - apply Qeq_bool_iff in Ea. apply Qeq_bool_neq in Eb. exfalso. apply Eb.
    rewrite <- H. exact Ea.
  - apply Qeq_bool_iff in Eb. apply Qeq_bool_neq in Ea. exfalso. apply Ea.
    rewrite H. exact Eb.
Qed.

(** X5: from rest, two opposite keys held together cancel: [key_move]
    gives the same velocity (up to [==]) and the same movement state as
    with both keys of the pair released, and with each pair either held
    together or released the Player stays at rest, ["still"].  The
    statement starts from rest because there the sums involved are exact:
    [0 - a + a] is [0] on binary64 too, which [v - a + a] is not for every
    [v]. *)
Theorem X5_opposite_keys_cancel_from_rest :
  forall (self : Player.t) (keys : Keys),
    Vector.x (Player.velocity_vector self) == 0 ->
    Vector.y (Player.velocity_vector self) == 0 ->
    let p := Player.key_move self keys in
    let p' := Player.key_move self (net_keys keys) in
    Vector.x (Player.velocity_vector p) == Vector.x (Player.velocity_vector p') /\
    Vector.y (Player.velocity_vector p) == Vector.y (Player.velocity_vector p') /\
    Player.state p = Player.state p' /\
    (keys K_w = keys K_s -> keys K_a = keys K_d ->
     Vector.x (Player.velocity_vector p) == 0 /\
     Vector.y (Player.velocity_vector p) == 0 /\
     Player.state p = Player.still).
Proof.
  intros self keys Hx Hy. cbv zeta.
  set (acc := Player.acceleration_vector self).
  set (v0 := Player.velocity_vector self).
  fold v0 in Hx, Hy.
  assert (A : Vector.x (Player.accelerate acc keys v0)
              == Vector.x (Player.accelerate acc (net_keys keys) v0) /\
              Vector.y (Player.accelerate acc keys v0)
              == Vector.y (Player.accelerate acc (net_keys keys) v0)).
  { unfold Player.accelerate, when, net_keys. cbn.
    destruct (keys K_w), (keys K_s), (keys K_a), (keys K_d); cbn; split; ring. }
  destruct A as (Ax & Ay).
  pose proof (key_move_velocity self keys) as E1.
  pose proof (key_move_velocity self (net_keys keys)) as E2.
  cbn zeta in E1, E2. fold acc v0 in E1, E2.
  destruct (settle_compat _ _ Ax Ay) as (Sx & Sy). unfold settle in Sx, Sy.
  assert (St : Player.state (Player.key_move self keys)
               = Player.state (Player.key_move self (net_keys keys))).
  { unfold Player.key_move, when. fold acc v0. cbn zeta.
    unfold Vector.get_vector_as_tuple.
    rewrite (Qneqb_compat _ _ Ax), (Qneqb_compat _ _ Ay).
    destruct (_ || _); reflexivity. }
  split; [rewrite E1, E2; exact Sx|]. split; [rewrite E1, E2; exact Sy|].
  split; [exact St|].
  intros Hws Had.
  assert (Hrel : released (net_keys keys)).
  { unfold released, net_keys. cbn. rewrite Hws, Had.
    destruct (keys K_s), (keys K_d); auto. }
  destruct (released_key_move self (net_keys keys) Hrel) as (Ev & Es).
  fold v0 in Ev, Es.
  destruct (settle_slows v0 0 (Qle_refl 0)) as (Zx & Zy).
  assert (X0 : Vector.x (settle v0) == 0).
  { assert (Hb : - 0 <= Vector.x v0 <= 0) by (clear - Hx; lra).
    destruct (Zx Hb) as [Z1|Z1]; [lra | rewrite Z1; reflexivity]. }
  assert (Y0 : Vector.y (settle v0) == 0).
  { assert (Hb : - 0 <= Vector.y v0 <= 0) by (clear - Hy; lra).
    destruct (Zy Hb) as [Z1|Z1]; [lra | rewrite Z1; reflexivity]. }
  rewrite E1, Sx, Sy, <- E2, Ev, St, Es.
  split; [exact X0|]. split; [exact Y0|].
  unfold Qneqb. apply Qeq_bool_iff in Hx. apply Qeq_bool_iff in Hy.
  rewrite Hx, Hy. reflexivity.
Qed.

(** The Player of the start state with W, S and D held. *)
Lemma X5_opposite_keys_cancel_from_rest_witness :
  let keys : Keys := fun k => (k =? K_w)%Z || (k =? K_s)%Z || (k =? K_d)%Z in
  let p := Player.key_move (player start) keys in
  let p' := Player.key_move (player start) (net_keys keys) in
  Vector.x (Player.velocity_vector p) == Vector.x (Player.velocity_vector p') /\
  Vector.y (Player.velocity_vector p) == Vector.y (Player.velocity_vector p') /\
  Player.state p = Player.state p' /\
  (keys K_w = keys K_s -> keys K_a = keys K_d ->
   Vector.x (Player.velocity_vector p) == 0 /\
   Vector.y (Player.velocity_vector p) == 0 /\
   Player.state p = Player.still).
Proof.
  intros keys.
  apply (X5_opposite_keys_cancel_from_rest (player start) keys); reflexivity.
Defined.

(** ** TextBullet: where it starts and how it flies *)

(** [int()] of a whole number is that number. *)
Lemma py_int_whole q z : q == inject_Z z -> py_int q = z.
Proof.
  unfold py_int, Qeq, inject_Z. cbn [Qnum Qden]. intros H.
  rewrite Z.mul_1_r in H. rewrite H. apply Z.quot_mul. discriminate.
Qed.

Lemma py_int_ceiling q : q <= 0 -> py_int q = Qceiling q.
Proof.
  intros H. unfold Qceiling.
  assert (E : py_int q = (- py_int (- q))%Z).
  { unfold py_int. destruct q as [n d]. cbn [Qnum Qden Qopp].
    rewrite Z.quot_opp_l by discriminate. lia. }
  rewrite E, py_int_floor by lra. reflexivity.
Qed.

(** [int()] is monotone. *)
Lemma py_int_mono a b : a <= b -> (py_int a <= py_int b)%Z.
Proof.
  intros H.
  destruct (Qlt_le_dec a 0) as [Ha|Ha], (Qlt_le_dec b 0) as [Hb|Hb].
  - rewrite !py_int_ceiling by lra. apply Qceiling_resp_le. exact H.
  - rewrite py_int_ceiling by lra. rewrite (py_int_floor b Hb).
    assert (Qceiling a <= 0)%Z.
    { change 0%Z with (Qceiling 0). apply Qceiling_resp_le. lra. }
    assert (0 <= Qfloor b)%Z.
    { change 0%Z with (Qfloor 0). apply Qfloor_resp_le. exact Hb. }
    lia.
  - lra.
  - rewrite !py_int_floor by lra. apply Qfloor_resp_le. exact H.
Qed.

(** X6: a new projectile is centred half its text width left of the
    playfield, in its lane: its hitbox has the size of the rendered text
    and spans x from minus the text width to exactly 0. *)
Theorem X6_projectile_spawns_left_of_the_playfield :
  forall (lane : Z) (text : nat) (movement : Vector.t) (w ht : Z),
    let b := TextBullet.new lane text movement (w, ht) in
    TextBullet.x b == - (inject_Z w / 2) /\
    TextBullet.y b = inject_Z lane /\
    rect_x (TextBullet.hitbox b) = (- w)%Z /\
    rect_right (TextBullet.hitbox b) = 0%Z /\
    rect_w (TextBullet.hitbox b) = w /\
    rect_h (TextBullet.hitbox b) = ht.
Proof.
  intros lane text movement w ht b.
  assert (Ex : rect_x (TextBullet.hitbox b) = (- w)%Z).
  { unfold b, TextBullet.new, TextBullet.hitbox, TextBullet.hitbox_at.
    cbn [fst snd TextBullet._hitbox rect_x].
    apply py_int_whole. rewrite inject_Z_opp. field. }
  split; [reflexivity|]. split; [reflexivity|]. split; [exact Ex|].
  split; [|split; reflexivity].
  unfold rect_right. rewrite Ex.
  change (rect_w (TextBullet.hitbox b)) with w. lia.
Qed.

Lemma flown_S n b : flown (S n) b = TextBullet.move (flown n b).
Proof. reflexivity. Qed.

(** [int()] gives the same integer for equal rationals. *)
Lemma py_int_compat a b : a == b -> py_int a = py_int b.
Proof.
  intros H. apply Z.le_antisymm; apply py_int_mono; rewrite H; apply Qle_refl.
Qed.

(** [int()] of a number below a positive whole number is below it. *)
Lemma py_int_below q (z : Z) : (0 < z)%Z -> q < inject_Z z -> (py_int q < z)%Z.
Proof.
  intros Hz H. destruct (Qlt_le_dec q 0) as [Hq|Hq].
  - assert (py_int q <= py_int 0)%Z by (apply py_int_mono; lra).
    change (py_int 0) with 0%Z in *. lia.
  - destruct (py_int_near q Hq) as (L & _).
    rewrite Zlt_Qlt. lra.
Qed.

Lemma flown_keeps n b :
  TextBullet.movement_vector (flown n b) = TextBullet.movement_vector b /\
  TextBullet.text_size (flown n b) = TextBullet.text_size b /\
  TextBullet.text (flown n b) = TextBullet.text b.
Proof.
  induction n as [|n (Im & Is & It)]; [auto|].
  rewrite flown_S. unfold TextBullet.move, Vector.get_vector_as_tuple.
  cbn [TextBullet.movement_vector TextBullet.text_size TextBullet.text]. auto.
Qed.

Lemma flown_step n b :
  TextBullet.x (flown (S n) b)
  = TextBullet.x (flown n b) + Vector.x (TextBullet.movement_vector b) /\
  TextBullet.y (flown (S n) b)
  = TextBullet.y (flown n b) + Vector.y (TextBullet.movement_vector b).
Proof.
  destruct (flown_keeps n b) as (Im & _).
  rewrite flown_S. unfold TextBullet.move, Vector.get_vector_as_tuple.
  cbn [TextBullet.x TextBullet.y]. rewrite Im. auto.
Qed.

Lemma flown_lane n b :
  Vector.y (TextBullet.movement_vector b) == 0 ->
  TextBullet.y (flown n b) == TextBullet.y b.
Proof.
  intros Hv. induction n as [|n IH]; [reflexivity|].
  destruct (flown_step n b) as (_ & Ey). rewrite Ey, IH, Hv. ring.
Qed.

Lemma flown_x_le b :
  0 <= Vector.x (TextBullet.movement_vector b) ->
  forall n k, (k <= n)%nat -> TextBullet.x (flown k b) <= TextBullet.x (flown n b).
Proof.
  intros Hv. induction n as [|n IH]; intros k Hk.
  - assert (k = 0%nat) by lia. subst k. apply Qle_refl.
  - destruct (Nat.eq_dec k (S n)) as [->|Hne]; [apply Qle_refl|].
    assert (Hk' : (k <= n)%nat) by lia. specialize (IH k Hk').
    destruct (flown_step n b) as (Ex & _). rewrite Ex. lra.
Qed.

Lemma flown_hitbox n b :
  TextBullet.hitbox b
  = TextBullet.hitbox_at (TextBullet.x b) (TextBullet.y b) (TextBullet.text_size b) ->
  TextBullet.hitbox (flown n b)
  = TextBullet.hitbox_at (TextBullet.x (flown n b)) (TextBullet.y (flown n b))
      (TextBullet.text_size b).
Proof.
  intros Hb. destruct n as [|n]; [exact Hb|].
  destruct (flown_keeps n b) as (_ & Is & _).
  rewrite flown_S. unfold TextBullet.move, Vector.get_vector_as_tuple.
  cbn [TextBullet.hitbox TextBullet._hitbox TextBullet.x TextBullet.y].
  rewrite Is. reflexivity.
Qed.

(** X7: a projectile with no vertical speed and a non-negative horizontal
    speed, as [spawn_bullet] makes them, keeps its lane and never moves
    left: through any number of calls of [move] its y, text, size and
    movement vector are unchanged, its x never goes down, its hitbox is
    the rectangle of its current position, of the same size and in the same
    row, and the left edge of the hitbox never moves left.  The statement
    is for positions within the 32-bit range of [pygame.Rect]. *)
Theorem X7_projectile_keeps_its_lane :
  forall (b : TextBullet.t) (n : nat),
    Vector.y (TextBullet.movement_vector b) == 0 ->
    0 <= Vector.x (TextBullet.movement_vector b) ->
    TextBullet.hitbox b
    = TextBullet.hitbox_at (TextBullet.x b) (TextBullet.y b)
        (TextBullet.text_size b) ->
    - inject_Z (2 ^ 31)
      <= TextBullet.x b - inject_Z (fst (TextBullet.text_size b)) / 2 ->
    TextBullet.x (flown n b) - inject_Z (fst (TextBullet.text_size b)) / 2
      < inject_Z (2 ^ 31) ->
    forall k : nat, (k <= n)%nat ->
      let c := flown k b in
      TextBullet.y c == TextBullet.y b /\
      TextBullet.x b <= TextBullet.x c /\
      TextBullet.x c <= TextBullet.x (flown n b) /\
      TextBullet.movement_vector c = TextBullet.movement_vector b /\
      TextBullet.text_size c = TextBullet.text_size b /\
      TextBullet.text c = TextBullet.text b /\
      TextBullet.hitbox c
      = TextBullet.hitbox_at (TextBullet.x c) (TextBullet.y c)
          (TextBullet.text_size b) /\
      rect_y (TextBullet.hitbox c) = rect_y (TextBullet.hitbox b) /\
      rect_w (TextBullet.hitbox c) = rect_w (TextBullet.hitbox b) /\
      rect_h (TextBullet.hitbox c) = rect_h (TextBullet.hitbox b) /\
      (rect_x (TextBullet.hitbox b) <= rect_x (TextBullet.hitbox c))%Z /\
      (rect_x (TextBullet.hitbox c)
       <= rect_x (TextBullet.hitbox (flown n b)))%Z /\
      (- 2 ^ 31 <= rect_x (TextBullet.hitbox c) < 2 ^ 31)%Z.
Proof.
  intros b n Hvy Hvx Hb Hlo Hhi k Hk. cbv zeta.
  destruct (flown_keeps k b) as (Im & Is & It).
  pose proof (flown_lane k b Hvy) as Ey.
  assert (X0 : TextBullet.x b <= TextBullet.x (flown k b))
    by (apply (flown_x_le b Hvx k 0%nat); lia).
  pose proof (flown_x_le b Hvx n k Hk) as X1.
  pose proof (flown_hitbox k b Hb) as Hc.
  pose proof (flown_hitbox n b Hb) as Hn.
  split; [exact Ey|]. split; [exact X0|]. split; [exact X1|].
  split; [exact Im|]. split; [exact Is|]. split; [exact It|].
  split; [exact Hc|].
  rewrite Hc, Hn, Hb.
  unfold TextBullet.hitbox_at.
  destruct (TextBullet.text_size b) as [tw th].
  cbn [rect_x rect_y rect_w rect_h fst] in *.
  split; [apply py_int_compat; rewrite Ey; reflexivity|].
  split; [reflexivity|]. split; [reflexivity|].
  split; [apply py_int_mono; lra|].
  split; [apply py_int_mono; lra|].
  split.
  - assert (E : py_int (- inject_Z (2 ^ 31)) = (- 2 ^ 31)%Z) by reflexivity.
    rewrite <- E. apply py_int_mono. lra.
  - apply py_int_below; [lia|]. lra.
Qed.

(** The projectile of the examples, fifty moves into a flight of a hundred. *)
Lemma X7_projectile_keeps_its_lane_witness :
  let b := TextBullet.new 200 0 (Vector.mk 2 0) (100, 14)%Z in
  let c := flown 50 b in
  TextBullet.y c == TextBullet.y b /\
  TextBullet.x b <= TextBullet.x c /\
  TextBullet.x c <= TextBullet.x (flown 100 b) /\
  TextBullet.movement_vector c = TextBullet.movement_vector b /\
  TextBullet.text_size c = TextBullet.text_size b /\
  TextBullet.text c = TextBullet.text b /\
  TextBullet.hitbox c
  = TextBullet.hitbox_at (TextBullet.x c) (TextBullet.y c)
      (TextBullet.text_size b) /\
  rect_y (TextBullet.hitbox c) = rect_y (TextBullet.hitbox b) /\
  rect_w (TextBullet.hitbox c) = rect_w (TextBullet.hitbox b) /\
  rect_h (TextBullet.hitbox c) = rect_h (TextBullet.hitbox b) /\
  (rect_x (TextBullet.hitbox b) <= rect_x (TextBullet.hitbox c))%Z /\
  (rect_x (TextBullet.hitbox c)
   <= rect_x (TextBullet.hitbox (flown 100 b)))%Z /\
  (- 2 ^ 31 <= rect_x (TextBullet.hitbox c) < 2 ^ 31)%Z.
Proof.
  intros b.
  apply (X7_projectile_keeps_its_lane b 100 (Qeq_refl 0)).
  - discriminate.
  - reflexivity.
  - vm_compute. discriminate.
  - vm_compute. reflexivity.
  - lia.
Defined.

(** ** Sprite sheets, animation cycles and the reaction to a hit *)

Lemma build_returns rows :
  forall ns names times,
    (rows <= length ns)%nat -> (rows <= length names)%nat ->
    (rows <= length times)%nat ->
    exists sheet, SpriteSheet.build rows ns names times = Ok sheet.
Proof.
  induction rows as [|rows IH]; intros ns names times H1 H2 H3.
  - cbn. eauto.
  - destruct ns as [|n ns]; [cbn in H1; lia|].
    destruct names as [|name names]; [cbn in H2; lia|].
    destruct times as [|t times]; [cbn in H3; lia|].
    cbn [length] in *.
    destruct (IH ns names times) as (sheet & E); try lia.
    cbn [SpriteSheet.build]. rewrite E. eauto.
Qed.

Lemma build_names rows :
  forall ns names times sheet,
    SpriteSheet.build rows ns names times = Ok sheet ->
    map fst sheet = firstn rows names /\ length sheet = rows.
Proof.
  induction rows as [|rows IH]; intros ns names times sheet E.
  - cbn in E. injection E as <-. auto.
  - cbn [SpriteSheet.build] in E.
    destruct ns as [|n ns]; [discriminate|].
    destruct names as [|name names]; [discriminate|].
    destruct times as [|t times]; [discriminate|].
    destruct (SpriteSheet.build rows ns names times) as [rest|e] eqn:Er;
      [|discriminate].
    injection E as <-. destruct (IH _ _ _ _ Er) as (Ef & El).
    cbn [map fst firstn length]. rewrite Ef, El. auto.
Qed.

Lemma build_short rows :
  forall ns names times,
    (length ns < rows \/ length names < rows \/ length times < rows)%nat ->
    SpriteSheet.build rows ns names times = Raise IndexError.
Proof.
  induction rows as [|rows IH]; intros ns names times H.
  - lia.
  - cbn [SpriteSheet.build].
    destruct ns as [|n ns]; [reflexivity|].
    destruct names as [|name names]; [reflexivity|].
    destruct times as [|t times]; [reflexivity|].
    cbn [length] in H. rewrite (IH ns names times) by lia. reflexivity.
Qed.

Lemma get_image_cycle_absent sheet name :
  ~ In name (map fst sheet) ->
  SpriteSheet.get_image_cycle sheet name = Raise KeyError.
Proof.
  induction sheet as [|[k c] rest IH]; intros Hn; cbn; [reflexivity|].
  destruct (String.eqb k name) eqn:E.
  - apply String.eqb_eq in E. subst. exfalso. apply Hn. left. reflexivity.
  - apply IH. intros Hin. apply Hn. right. exact Hin.
Qed.

Lemma nth_error_firstn_In {A} (l : list A) :
  forall n i a, (i < n)%nat -> nth_error l i = Some a -> In a (firstn n l).
Proof.
  induction l as [|b l IH]; intros n i a Hi E; [destruct i; discriminate|].
  destruct n as [|n]; [lia|]. destruct i as [|i]; cbn in E |- *.
  - injection E as ->. left. reflexivity.
  - right. apply (IH n i a); [lia | exact E].
Qed.

Lemma build_lookup rows :
  forall ns names times sheet i name n t,
    SpriteSheet.build rows ns names times = Ok sheet ->
    NoDup (firstn rows names) ->
    (i < rows)%nat ->
    nth_error names i = Some name -> nth_error ns i = Some n ->
    nth_error times i = Some t ->
    SpriteSheet.get_image_cycle sheet name = Ok (SpriteCycle.new n t).
Proof.
  induction rows as [|rows IH];
    intros ns names times sheet i name n t E Hnd Hi En Ens Et.
  - lia.
  - cbn [SpriteSheet.build] in E.
    destruct ns as [|m ns]; [discriminate|].
    destruct names as [|k names]; [discriminate|].
    destruct times as [|u times]; [discriminate|].
    destruct (SpriteSheet.build rows ns names times) as [rest|e] eqn:Er;
      [|discriminate].
    injection E as <-.
    cbn [firstn] in Hnd. inversion Hnd as [|? ? Hk Hrest]; subst.
    cbn [SpriteSheet.get_image_cycle].
    destruct i as [|i].
    + cbn in En, Ens, Et. injection En as ->. injection Ens as ->.
      injection Et as ->. rewrite String.eqb_refl. reflexivity.
    + cbn [nth_error] in En, Ens, Et.
      destruct (String.eqb k name) eqn:E.
      * apply String.eqb_eq in E. subst k. exfalso. apply Hk.
        apply (nth_error_firstn_In names rows i); [lia | exact En].
      * apply (IH ns names times rest i); auto. lia.
Qed.

(** X8: the constructor of [SpriteSheet] takes 0.1 for every cycle when
    [cycle_times] is missing or empty; it raises [IndexError] when the image
    has more rows than one of the tables has entries; otherwise, with
    distinct names, the sheet holds one cycle per row under the first
    [rows] names in order, [get_image_cycle] returns for the i-th name a
    cycle of [images_per_row[i]] sprites at sprite 0 with a timer of
    [cycle_times[i]], and raises [KeyError] for any other name. *)
Theorem X8_sprite_sheet_construction :
  forall (rows : nat) (images_per_row : list nat) (cycle_names : list string)
         (cycle_times : option (list Q)),
    let times := default_times cycle_names cycle_times in
    ((cycle_times = None \/ cycle_times = Some []) ->
     times = repeat (1 # 10) (length cycle_names)) /\
    ((rows <= length images_per_row)%nat /\ (rows <= length cycle_names)%nat /\
     (rows <= length times)%nat ->
     NoDup (firstn rows cycle_names) ->
     exists sheet,
       SpriteSheet_init rows images_per_row cycle_names cycle_times = Ok sheet /\
       map fst sheet = firstn rows cycle_names /\
       (forall i name n t,
          (i < rows)%nat ->
          nth_error cycle_names i = Some name ->
          nth_error images_per_row i = Some n ->
          nth_error times i = Some t ->
          SpriteSheet.get_image_cycle sheet name = Ok (SpriteCycle.new n t)) /\
       (forall name, ~ In name (firstn rows cycle_names) ->
          SpriteSheet.get_image_cycle sheet name = Raise KeyError)) /\
    ((length images_per_row < rows \/ length cycle_names < rows \/
      length times < rows)%nat ->
     SpriteSheet_init rows images_per_row cycle_names cycle_times
     = Raise IndexError).
Proof.
  intros rows ns names ct times. split; [|split].
  - intros [-> | ->]; reflexivity.
  - intros (H1 & H2 & H3) Hnd.
    destruct (build_returns rows ns names times H1 H2 H3) as (sheet & E).
    destruct (build_names _ _ _ _ _ E) as (Ef & _).
    exists sheet.
    split; [exact E|]. split; [exact Ef|]. split.
    + intros i name n t Hi En Ens Et.
      apply (build_lookup rows ns names times sheet i); assumption.
    + intros name Hn. apply get_image_cycle_absent. rewrite Ef. exact Hn.
  - intros H. apply build_short. exact H.
Qed.

Lemma Timer_tick_running t h :
  0 < Timer.time t ->
  Timer_tick t h =
    Ok ((Timer.mk (Timer.time t - seconds (next_reading h)),
         Qleb (Timer.time t - seconds (next_reading h)) 0),
        mkHost (clock_feed h) (S (clock_calls h)) (event_queue h)
          (trace h ++ [SClockTick])).
Proof.
  intros Hpos. unfold Timer_tick, Timer.tick.
  assert (E : Qltb 0 (Timer.time t) = true) by (apply Qltb_lt; exact Hpos).
  rewrite E. reflexivity.
Qed.

(** X9: a tick of the timer of an animation cycle makes one pacing call;
    when it brings the remaining time to zero or below, the cycle moves to
    the next sprite, wrapping around at the end, and its timer is replaced
    by a new one set to the full interval; otherwise the sprite stays and
    the remaining time goes down by the reading.  The sprite index stays in
    range.  A cycle with no sprite raises [IndexError] when drawn and
    [ZeroDivisionError] when its timer expires. *)
Theorem X9_sprite_cycle_advances_when_its_timer_expires :
  forall (c : SpriteCycle.t) (h : Host),
    0 < Timer.time (SpriteCycle.interval_timer c) ->
    let left := Timer.time (SpriteCycle.interval_timer c)
                - seconds (next_reading h) in
    ((SpriteCycle.sprite_index c < SpriteCycle.sprites c)%nat ->
     exists (c' : SpriteCycle.t) (h' : Host),
       SpriteCycle.tick c h = Ok (c', h') /\
       clock_calls h' = S (clock_calls h) /\
       SpriteCycle.sprites c' = SpriteCycle.sprites c /\
       SpriteCycle.interval c' = SpriteCycle.interval c /\
       (SpriteCycle.sprite_index c' < SpriteCycle.sprites c')%nat /\
       (left <= 0 ->
        SpriteCycle.sprite_index c'
        = ((SpriteCycle.sprite_index c + 1) mod SpriteCycle.sprites c)%nat /\
        SpriteCycle.interval_timer c' = Timer.mk (SpriteCycle.interval c)) /\
       (0 < left ->
        SpriteCycle.sprite_index c' = SpriteCycle.sprite_index c /\
        SpriteCycle.interval_timer c' = Timer.mk left)) /\
    (SpriteCycle.sprites c = 0%nat ->
     SpriteCycle.draw c = Raise IndexError /\
     (left <= 0 -> SpriteCycle.tick c h = Raise ZeroDivisionError)).
Proof.
  intros c h Hpos left. split.
  - intros Hn. unfold SpriteCycle.tick, bind.
    rewrite (Timer_tick_running _ h Hpos). fold left. cbn [fst snd].
    destruct (Qleb left 0) eqn:El.
    + apply Qleb_le in El. unfold SpriteCycle.interval_end.
      cbn [SpriteCycle.sprites SpriteCycle.sprite_index SpriteCycle.interval].
      destruct (SpriteCycle.sprites c) as [|n] eqn:En; [lia|].
      cbn [lift ret]. eexists _, _. split; [reflexivity|].
      cbn [clock_calls SpriteCycle.sprites SpriteCycle.interval
           SpriteCycle.sprite_index SpriteCycle.interval_timer].
      split; [reflexivity|]. split; [reflexivity|]. split; [reflexivity|].
      split; [apply Nat.mod_upper_bound; lia|].
      split; [auto|]. intros Hl. lra.
    + apply Qleb_gt in El. cbn [ret]. eexists _, _. split; [reflexivity|].
      cbn [clock_calls SpriteCycle.sprites SpriteCycle.interval
           SpriteCycle.sprite_index SpriteCycle.interval_timer].
      split; [reflexivity|]. split; [reflexivity|]. split; [reflexivity|].
      split; [exact Hn|]. split; [intros Hl; lra | auto].
  - intros Hz. split.
    + unfold SpriteCycle.draw. rewrite Hz. reflexivity.
    + intros Hl. unfold SpriteCycle.tick, bind.
      rewrite (Timer_tick_running _ h Hpos). fold left. cbn [fst snd].
      assert (El : Qleb left 0 = true) by (apply Qleb_le; exact Hl).
      rewrite El. unfold SpriteCycle.interval_end.
      cbn [SpriteCycle.sprites]. rewrite Hz. reflexivity.
Qed.

(** The ["stand"] cycle of the character sheet, two sprites and one second,
    at its first tick. *)
Lemma X9_sprite_cycle_advances_when_its_timer_expires_witness :
  let c := SpriteCycle.new 2 1 in
  let h := host0 feed16 in
  let left := Timer.time (SpriteCycle.interval_timer c)
              - seconds (next_reading h) in
  ((SpriteCycle.sprite_index c < SpriteCycle.sprites c)%nat ->
   exists (c' : SpriteCycle.t) (h' : Host),
     SpriteCycle.tick c h = Ok (c', h') /\
     clock_calls h' = S (clock_calls h) /\
     SpriteCycle.sprites c' = SpriteCycle.sprites c /\
     SpriteCycle.interval c' = SpriteCycle.interval c /\
     (SpriteCycle.sprite_index c' < SpriteCycle.sprites c')%nat /\
     (left <= 0 ->
      SpriteCycle.sprite_index c'
      = ((SpriteCycle.sprite_index c + 1) mod SpriteCycle.sprites c)%nat /\
      SpriteCycle.interval_timer c' = Timer.mk (SpriteCycle.interval c)) /\
     (0 < left ->
      SpriteCycle.sprite_index c' = SpriteCycle.sprite_index c /\
      SpriteCycle.interval_timer c' = Timer.mk left)) /\
  (SpriteCycle.sprites c = 0%nat ->
   SpriteCycle.draw c = Raise IndexError /\
   (left <= 0 -> SpriteCycle.tick c h = Raise ZeroDivisionError)).
Proof.
  apply (X9_sprite_cycle_advances_when_its_timer_expires
           (SpriteCycle.new 2 1) (host0 feed16)).
  reflexivity.
Defined.

Lemma remove_first_absent {A} (eqb : A -> A -> bool) (x : A) (l : list A) :
  (forall a b, eqb a b = true <-> a = b) ->
  ~ In x l -> remove_first eqb x l = Raise ValueError.
Proof.
  intros Heq. induction l as [|a l IH]; intros Hn; cbn; [reflexivity|].
  destruct (eqb a x) eqn:E.
  - apply Heq in E. subst. exfalso. apply Hn. left. reflexivity.
  - rewrite IH; [reflexivity|]. intros Hin. apply Hn. right. exact Hin.
Qed.

Lemma remove_first_raises {A} (eqb : A -> A -> bool) (x : A) (l : list A) e :
  remove_first eqb x l = Raise e -> e = ValueError.
Proof.
  induction l as [|a l IH]; cbn.
  - intros E. injection E as <-. reflexivity.
  - destruct (eqb a x); [discriminate|].
    destruct (remove_first eqb x l); [discriminate|].
    intros E. injection E as <-. apply IH. reflexivity.
Qed.

Lemma remove_first_In {A} (eqb : A -> A -> bool) (x : A) (l l' : list A) :
  (forall a b, eqb a b = true <-> a = b) ->
  remove_first eqb x l = Ok l' -> In x l.
Proof.
  intros Heq. revert l'. induction l as [|a l IH]; intros l'; cbn; [discriminate|].
  destruct (eqb a x) eqn:E.
  - apply Heq in E. auto.
  - destruct (remove_first eqb x l) as [r|e]; [|discriminate].
    intros _. right. eapply IH. reflexivity.
Qed.

Lemma Nat_eqb_eq' a b : Nat.eqb a b = true <-> a = b.
Proof. apply Nat.eqb_eq. Qed.

(** X10: [on_player_bullet_collide] succeeds exactly when the projectile
    is listed in [bullets], in [movables] and in [drawables]; it then
    removes one entry from each and leaves the phase alone; otherwise it
    raises [ValueError]. *)
Theorem X10_hit_needs_the_projectile_in_every_roster :
  forall (r : ref) (v : Vars),
    (In r (bullets v) /\ In (MObj r) (movables v) /\ In (DObj r) (drawables v) ->
     exists v',
       on_player_bullet_collide r v = Ok v' /\
       S (length (bullets v')) = length (bullets v) /\
       S (length (movables v')) = length (movables v) /\
       S (length (drawables v')) = length (drawables v) /\
       heap v' = heap v /\ game_state v' = game_state v) /\
    (~ (In r (bullets v) /\ In (MObj r) (movables v) /\ In (DObj r) (drawables v)) ->
     on_player_bullet_collide r v = Raise ValueError).
Proof.
  intros r v. split.
  - intros (Hb & Hm & Hd).
    destruct (remove_first_spec Nat.eqb r (bullets v) Nat_eqb_eq' Hb)
      as (b1 & b2 & Eb & _ & Rb).
    destruct (remove_first_spec Movable_eqb (MObj r) (movables v) Movable_eqb_eq Hm)
      as (m1 & m2 & Em & _ & Rm).
    destruct (remove_first_spec Drawable_eqb (DObj r) (drawables v) Drawable_eqb_eq Hd)
      as (d1 & d2 & Ed & _ & Rd).
    unfold on_player_bullet_collide. rewrite Rb, Rm, Rd.
    eexists. split; [reflexivity|].
    cbn [bullets movables drawables heap game_state].
    rewrite Eb, Em, Ed, !length_app. cbn [length].
    repeat split; lia.
  - intros Hn. unfold on_player_bullet_collide.
    destruct (remove_first Nat.eqb r (bullets v)) as [bs|e] eqn:Rb.
    2:{ apply remove_first_raises in Rb. subst. reflexivity. }
    destruct (remove_first Movable_eqb (MObj r) (movables v)) as [ms|e] eqn:Rm.
    2:{ apply remove_first_raises in Rm. subst. reflexivity. }
    destruct (remove_first Drawable_eqb (DObj r) (drawables v)) as [ds|e] eqn:Rd.
    2:{ apply remove_first_raises in Rd. subst. reflexivity. }
    exfalso. apply Hn.
    split; [|split].
    + eapply remove_first_In; [apply Nat_eqb_eq' | exact Rb].
    + eapply remove_first_In; [apply Movable_eqb_eq | exact Rm].
    + eapply remove_first_In; [apply Drawable_eqb_eq | exact Rd].
Qed.

(** X11: a frame does not depend on the events that are in the queue
    when it starts or that arrive before [pygame.event.clear()]: with the
    same keys, the same later events and the same clock, the frame returns
    the same result. *)
Theorem X11_frame_ignores_events_before_clear :
  forall (keys : Keys) (late : list Event) (sp : Spawn)
         (posted1 posted2 queue1 queue2 : list Event)
         (v : Vars) (feed : nat -> Z) (calls : nat) (tr : list Step),
    frame (mkInput keys posted1 late sp) v (mkHost feed calls queue1 tr)
    = frame (mkInput keys posted2 late sp) v (mkHost feed calls queue2 tr).
Proof.
  intros. unfold frame.
  etransitivity; [apply frame_head|].
  symmetry. etransitivity; [apply frame_head|]. reflexivity.
Qed.

(** X12: the tables of [Player.__init__] have nine entries: for a
    character sheet with more than nine rows the construction of the Player
    raises [IndexError]; with at most nine rows it succeeds and the sheet has
    the first [rows] cycle names; with fewer than four rows there is no
    ["sprint"] cycle (and with none, no ["stand"] cycle) and a frame in
    which the Player is drawn in that state raises [KeyError]. *)
Theorem X12_character_sheet_rows :
  forall rows : nat,
    ((9 < rows)%nat -> init rows = Raise IndexError) /\
    ((rows <= 9)%nat ->
     exists v0, init rows = Ok v0 /\
                map fst (Player.sprites (player v0))
                = firstn rows ["stand"; "blink"; "walk"; "sprint"; "crouch";
                               "jump"; "fade"; "death"; "attack"]%string) /\
    ((rows < 4)%nat ->
     exists v0 inp,
       init rows = Ok v0 /\ frame inp v0 (host0 feed16) = Raise KeyError).
Proof.
  intros rows. split; [|split].
  - intros H. unfold init, Player.new.
    rewrite build_short; [reflexivity|]. cbn [length]. lia.
  - intros H. unfold init, Player.new.
    destruct (build_returns rows [2; 2; 4; 8; 6; 8; 3; 8; 8]%nat
                ["stand"; "blink"; "walk"; "sprint"; "crouch"; "jump"; "fade";
                 "death"; "attack"]%string
                [1; 1 # 10; 1 # 10; 1 # 10; 1 # 10; 1 # 10; 1 # 10; 1 # 10; 1 # 10])
      as (sheet & E); try (cbn [length]; lia).
    rewrite E. eexists. split; [reflexivity|].
    cbn [player Player.sprites]. apply (build_names _ _ _ _ _ E).
  - intros H.
    assert (C : (rows = 0 \/ rows = 1 \/ rows = 2 \/ rows = 3)%nat) by lia.
    destruct C as [->|[->|[->| ->]]].
    + eexists _, idle. split; [reflexivity|]. vm_compute. reflexivity.
    + eexists _, (holding K_d). split; [reflexivity|]. vm_compute. reflexivity.
    + eexists _, (holding K_d). split; [reflexivity|]. vm_compute. reflexivity.
    + eexists _, (holding K_d). split; [reflexivity|]. vm_compute. reflexivity.
Qed.

(** X13: for a character sheet of four to nine rows, no operation of
    the loop on its own lists, dictionary and objects ever raises: from the
    start state, for all inputs and all clock readings, [list.remove] finds
    its element (no [ValueError]), [get_image_cycle] finds its name (no
    [KeyError]), [sprites[sprite_index]] is in range (no [IndexError]),
    every roster entry has the method that is called on it (no
    [AttributeError]) and the modulo of [interval_end] has a non-zero
    divisor.  Calls into pygame are the host's and can fail on their own:
    the [image.subsurface] of [Sprite.draw] raises for a sheet image
    narrower than the frames of the row drawn, and a missing image or font
    file raises when it is loaded; these are outside the statement. *)
Theorem X13_loop_operations_never_raise :
  forall (rows : nat) (inputs : list Input) (feed : nat -> Z),
    (4 <= rows <= 9)%nat ->
    exists (v0 v : Vars) (h : Host),
      init rows = Ok v0 /\
      main_loop inputs v0 (host0 feed) = Ok (v, h) /\
      clock_feed h = feed /\
      forall e : Exn, main_loop inputs v0 (host0 feed) <> Raise e.
Proof.
  intros rows inputs feed Hrows.
  destruct (init_wf rows Hrows) as (v0 & E0 & Hwf & Hs).
  destruct (main_loop_runs rows inputs v0 (host0 feed) Hwf Hs)
    as (v & h & tr & E & (Hf & _) & _).
  exists v0, v, h. split; [exact E0|]. split; [exact E|]. split; [exact Hf|].
  intros e He. rewrite E in He. discriminate He.
Qed.

Lemma X13_loop_operations_never_raise_witness :
  exists (v0 v : Vars) (h : Host),
    init 9 = Ok v0 /\
    main_loop [idle; holding K_d] v0 (host0 feed16) = Ok (v, h) /\
    clock_feed h = feed16 /\
    forall e : Exn, main_loop [idle; holding K_d] v0 (host0 feed16) <> Raise e.
Proof.
  apply (X13_loop_operations_never_raise 9 [idle; holding K_d] feed16). lia.
Defined.

(** ** One frame, read off its result *)

Lemma bind_Ok {A B} (m : M A) (f : A -> M B) h r :
  bind m f h = Ok r -> exists a h1, m h = Ok (a, h1) /\ f a h1 = Ok r.
Proof.
  unfold bind. destruct (m h) as [[a h1]|e]; [eauto|discriminate].
Qed.

Lemma ret_Ok {A} (a : A) h a' h' : ret a h = Ok (a', h') -> a' = a /\ h' = h.
Proof. unfold ret. intros E. injection E as <- <-. auto. Qed.

Lemma log_Ok s h u h' : log s h = Ok (u, h') -> trace h' = trace h ++ [s].
Proof. unfold log. intros E. injection E as _ <-. reflexivity. Qed.

Lemma lift_Ok {A} (r : Result A) h a h' :
  lift r h = Ok (a, h') -> r = Ok a /\ h' = h.
Proof.
  destruct r as [a0|e]; cbn; [|discriminate].
  intros E. injection E as <- <-. auto.
Qed.

Lemma checked_app t1 t2 : checked (t1 ++ t2) = checked t1 ++ checked t2.
Proof. unfold checked. apply flat_map_app. Qed.

Lemma only_player_refl v : only_player v v.
Proof. unfold only_player. auto 10. Qed.

Lemma only_player_trans v1 v2 v3 :
  only_player v1 v2 -> only_player v2 v3 -> only_player v1 v3.
Proof.
  unfold only_player.
  intros (A1 & A2 & A3 & A4 & A5 & A6 & A7) (B1 & B2 & B3 & B4 & B5 & B6 & B7).
  rewrite B1, B2, B3, B4, B5, B6, B7. auto 10.
Qed.

Lemma only_player_set v p : only_player v (set_player v p).
Proof. unfold only_player. cbn. auto 10. Qed.

Lemma same_place_refl p : same_place p p.
Proof. unfold same_place. auto. Qed.

Lemma same_place_trans p1 p2 p3 :
  same_place p1 p2 -> same_place p2 p3 -> same_place p1 p3.
Proof.
  unfold same_place. intros (A1 & A2 & A3 & A4) (B1 & B2 & B3 & B4).
  rewrite B1, B2, B3, B4. auto.
Qed.

Lemma only_player_countdown v v' :
  only_player v v' -> countdown_rosters v -> countdown_rosters v'.
Proof.
  unfold only_player, countdown_rosters.
  intros (_ & E2 & _ & E4 & E5 & E6 & E7). rewrite E2, E4, E5, E6, E7. auto.
Qed.

Lemma only_player_navigation v v' :
  only_player v v' -> navigation_rosters v -> navigation_rosters v'.
Proof.
  unfold only_player, navigation_rosters.
  intros (_ & E2 & _ & E4 & E5 & E6 & E7). rewrite E2, E4, E5, E6, E7. auto.
Qed.

(** *** Loops, from the result *)

Section LoopKeeps.

Context {A : Type}.
Variable sq : Vars -> list A.
Variable body : A -> Vars -> M Vars.
Variable Inv : Vars -> Prop.
Variable P : Step -> Prop.

Hypothesis body_keeps :
  forall a v h v' h',
    Inv v -> In a (sq v) -> body a v h = Ok (v', h') ->
    Inv v' /\ exists t, trace h' = trace h ++ t /\ Forall P t.

Lemma py_for_keeps fuel :
  forall i v h v' h',
    Inv v -> py_for fuel sq body i v h = Ok (v', h') ->
    Inv v' /\ exists tr, trace h' = trace h ++ tr /\ Forall P tr.
Proof.
  induction fuel as [|fuel IH]; intros i v h v' h' Hinv E; cbn [py_for] in E.
  - destruct (nth_error (sq v) i); [discriminate|].
    apply ret_Ok in E. destruct E as [-> ->].
    split; [exact Hinv|]. exists []. rewrite app_nil_r. auto.
  - destruct (nth_error (sq v) i) as [a|] eqn:En.
    + apply bind_Ok in E. destruct E as (v1 & h1 & E1 & E2).
      apply nth_error_In in En.
      destruct (body_keeps a v h v1 h1 Hinv En E1) as (Hinv1 & t & Et & Ht).
      destruct (IH (S i) v1 h1 v' h' Hinv1 E2) as (Hinv' & tr & Etr & Htr).
      split; [exact Hinv'|]. exists (t ++ tr).
      rewrite Etr, Et, app_assoc. split; [reflexivity|].
      apply Forall_app. auto.
    + apply ret_Ok in E. destruct E as [-> ->].
      split; [exact Hinv|]. exists []. rewrite app_nil_r. auto.
Qed.

End LoopKeeps.


Lemma checked_routine tr : Forall routine tr -> checked tr = [].
Proof.
  induction 1 as [|s l Hs _ IH]; [reflexivity|].
  cbn [checked flat_map]. fold (checked l). rewrite IH.
  destruct s; try reflexivity; destruct Hs.
Qed.

Lemma routine_ticks b : Forall routine (if b : bool then [SClockTick] else []).
Proof. destruct b; repeat constructor. Qed.

(** *** The clocks, from the result *)

Lemma Timer_tick_Ok t h r h' :
  Timer_tick t h = Ok (r, h') ->
  r = (Timer.self' (Timer.tick t (next_reading h)),
       Timer.fired (Timer.tick t (next_reading h))) /\
  trace h' = trace h ++
    (if Timer.paced (Timer.tick t (next_reading h)) then [SClockTick] else []).
Proof.
  unfold Timer_tick, bind, clock_tick, ret.
  destruct (Timer.paced _); intros E; injection E as <- <-; cbn [trace].
  - auto.
  - rewrite app_nil_r. auto.
Qed.

Lemma Stopwatch_tick_Ok s h s' h' :
  Stopwatch_tick s h = Ok (s', h') ->
  s' = Stopwatch.tick s (next_reading h) /\ trace h' = trace h ++ [SClockTick].
Proof.
  unfold Stopwatch_tick, bind, clock_tick, ret, next_reading.
  intros E. injection E as <- <-. auto.
Qed.


(** *** The rosters under the closures *)

Lemma countdown_store v t' :
  countdown_rosters v ->
  countdown_rosters (set_heap v (store (heap v) (timer v) (OTimer t'))).
Proof.
  intros ((t & Et) & Em & Ed). split; [|split; assumption].
  exists t'. cbn [heap timer set_heap].
  apply nth_error_store_same. apply nth_error_Some. congruence.
Qed.

Lemma navigation_store v s' :
  navigation_rosters v ->
  navigation_rosters (set_heap v (store (heap v) (timer v) (OStopwatch s'))).
Proof.
  intros ((s & Es) & Eb & Em & Ed). split; [|split; [|split]; assumption].
  exists s'. cbn [heap timer set_heap].
  apply nth_error_store_same. apply nth_error_Some. congruence.
Qed.

Lemma navigation_change_state v : navigation_rosters (change_state v).
Proof.
  unfold navigation_rosters, change_state, on_state_change.
  cbn [heap timer bullets movables drawables set_game_state].
  split; [|auto]. exists Stopwatch.new.
  rewrite nth_error_app2 by lia. rewrite Nat.sub_diag. reflexivity.
Qed.

Lemma countdown_spawn s v :
  countdown_rosters v -> countdown_rosters (spawn_bullet s v).
Proof.
  intros ((t & Et) & Em & Ed). unfold countdown_rosters, spawn_bullet.
  cbn [heap timer bullets movables drawables].
  split; [|split].
  - exists t. rewrite nth_error_app1; [exact Et|].
    apply nth_error_Some. congruence.
  - rewrite Em, map_app. reflexivity.
  - rewrite Ed, map_app. reflexivity.
Qed.

Lemma remove_first_map {A B} (eqa : A -> A -> bool) (eqb : B -> B -> bool)
    (f : A -> B) (x : A) (l : list A) :
  (forall a, eqb (f a) (f x) = eqa a x) ->
  remove_first eqb (f x) (map f l) =
    match remove_first eqa x l with
    | Ok l' => Ok (map f l')
    | Raise e => Raise e
    end.
Proof.
  intros Hf. induction l as [|a l IH]; cbn; [reflexivity|].
  rewrite Hf. destruct (eqa a x); [reflexivity|].
  rewrite IH. destruct (remove_first eqa x l); reflexivity.
Qed.

Lemma countdown_hit r v v' :
  countdown_rosters v -> is_bullet (heap v) r ->
  on_player_bullet_collide r v = Ok v' ->
  countdown_rosters v' /\ game_state v' = game_state v /\
  player v' = hit_sight (player v).
Proof.
  intros ((t & Et) & Em & Ed) (b & Eb). unfold on_player_bullet_collide.
  assert (Hne : timer v <> r) by congruence.
  rewrite Em, Ed. cbn [remove_first Movable_eqb Drawable_eqb].
  apply Nat.eqb_neq in Hne. rewrite Hne.
  rewrite (remove_first_map Nat.eqb Movable_eqb MObj r) by reflexivity.
  rewrite (remove_first_map Nat.eqb Drawable_eqb DObj r) by reflexivity.
  destruct (remove_first Nat.eqb r (bullets v)) as [bs'|e]; [|discriminate].
  intros E. injection E as <-.
  unfold countdown_rosters. cbn [heap timer bullets movables drawables game_state player].
  split; [|auto]. split; [|auto]. exists t. exact Et.
Qed.

(** *** The steps of the loop body, from the result *)

Lemma tick_timer_Ok v h v' h' :
  tick_timer v h = Ok (v', h') ->
  (exists tr, trace h' = trace h ++ tr /\ Forall routine tr) /\
  ((exists t, nth_error (heap v) (timer v) = Some (OTimer t) /\
      v' = let r := Timer.tick t (next_reading h) in
           let u := set_heap v (store (heap v) (timer v) (OTimer (Timer.self' r))) in
           if Timer.fired r then change_state u else u) \/
   (exists s, nth_error (heap v) (timer v) = Some (OStopwatch s) /\
      v' = set_heap v (store (heap v) (timer v)
                         (OStopwatch (Stopwatch.tick s (next_reading h)))))).
Proof.
  unfold tick_timer.
  destruct (nth_error (heap v) (timer v)) as [[b|t|s]|] eqn:E;
    try discriminate; intros H.
  - apply bind_Ok in H. destruct H as ([t' f] & h1 & H1 & H2).
    apply Timer_tick_Ok in H1. destruct H1 as (Er & Et).
    injection Er as -> ->.
    apply ret_Ok in H2. destruct H2 as [-> ->]. cbn [fst snd].
    split; [eexists; split; [exact Et | apply routine_ticks]|].
    left. exists t. auto.
  - apply bind_Ok in H. destruct H as (s' & h1 & H1 & H2).
    apply Stopwatch_tick_Ok in H1. destruct H1 as (-> & Et).
    apply ret_Ok in H2. destruct H2 as [-> ->].
    split; [eexists; split; [exact Et | repeat constructor]|].
    right. exists s. auto.
Qed.

Lemma tick_bullet_timer_Ok s v h v' h' :
  tick_bullet_timer s v h = Ok (v', h') ->
  game_state v' = game_state v /\ player v' = player v /\
  (countdown_rosters v -> countdown_rosters v') /\
  exists tr, trace h' = trace h ++ tr /\ Forall routine tr.
Proof.
  unfold tick_bullet_timer. intros H.
  apply bind_Ok in H. destruct H as ([t' f] & h1 & H1 & H2).
  apply Timer_tick_Ok in H1. destruct H1 as (Er & Et).
  apply ret_Ok in H2. destruct H2 as [-> ->]. cbn [fst snd].
  split; [destruct f; reflexivity|].
  split; [destruct f; reflexivity|].
  split; [|eexists; split; [exact Et | apply routine_ticks]].
  intros Hc.
  assert (Hc' : countdown_rosters
            (mkVars (game_state v) (player v) (timer v) t' (bullets v)
               (drawables v) (movables v) (heap v))) by exact Hc.
  destruct f; [apply countdown_spawn|]; exact Hc'.
Qed.

(** The wall loop: every wall is tested once, in the order of [walls],
    against the hitbox the Player had when the loop began; the Player is
    sent back to the restart point when one of them overlaps it. *)
Lemma walls_loop_Ok fuel :
  forall i v h v' h',
    py_for fuel (fun _ => seq 0 (length walls)) collide_wall i v h = Ok (v', h') ->
    only_player v v' /\
    player v' =
      (if existsb (fun w => colliderect (Player.hitbox (player v)) (Wall.hitbox w))
            (skipn i walls)
       then player (on_player_wall_collide v) else player v) /\
    exists tr, trace h' = trace h ++ tr /\ Forall is_collide tr /\
               checked tr = map CWall (seq i (length walls - i)).
Proof.
  induction fuel as [|fuel IH]; intros i v h v' h' E; cbn [py_for] in E;
    rewrite nth_error_seq in E; cbn [plus] in E;
    destruct (Nat.ltb i (length walls)) eqn:Ei;
    try discriminate;
    [apply Nat.ltb_ge in Ei | apply Nat.ltb_lt in Ei | apply Nat.ltb_ge in Ei].
  - apply ret_Ok in E. destruct E as [-> ->].
    rewrite (skipn_all2 walls Ei).
    replace (length walls - i)%nat with 0%nat by lia.
    split; [apply only_player_refl|]. split; [reflexivity|].
    exists []. rewrite app_nil_r. auto.
  - apply bind_Ok in E. destruct E as (v1 & h1 & E1 & E2).
    unfold collide_wall in E1.
    destruct (nth_error walls i) as [wall|] eqn:Ew.
    2:{ apply nth_error_None in Ew. lia. }
    apply bind_Ok in E1. destruct E1 as ([] & h0 & L & R).
    apply log_Ok in L. apply ret_Ok in R. destruct R as [-> ->].
    destruct (IH (S i) _ _ _ _ E2) as (Ho & Hp & tr & Et & Hcl & Ec).
    rewrite (skipn_nth_error walls i wall Ew). cbn [existsb].
    replace (length walls - i)%nat with (S (length walls - S i)) by lia.
    cbn [seq map].
    set (hit := colliderect (Player.hitbox (player v)) (Wall.hitbox wall)) in *.
    split; [|split].
    + eapply only_player_trans; [|exact Ho].
      destruct hit; [|apply only_player_refl].
      unfold on_player_wall_collide. apply only_player_set.
    + rewrite Hp. destruct hit; cbn [orb]; [|reflexivity].
      destruct (existsb _ _); reflexivity.
    + exists (SCollide (CWall i) hit :: tr).
      rewrite Et, L, <- app_assoc. split; [reflexivity|].
      split; [constructor; [exact I | exact Hcl]|].
      cbn [checked flat_map app]. fold (checked tr). rewrite Ec. reflexivity.
  - apply ret_Ok in E. destruct E as [-> ->].
    rewrite (skipn_all2 walls Ei).
    replace (length walls - i)%nat with 0%nat by lia.
    split; [apply only_player_refl|]. split; [reflexivity|].
    exists []. rewrite app_nil_r. auto.
Qed.

Lemma move_one_Ok m v h v' h' :
  move_one m v h = Ok (v', h') ->
  game_state v' = game_state v /\
  trace h' = trace h ++ [SMove m] /\
  match m with
  | MPlayer => v' = set_player v (Player.move (player v))
  | MObj r => exists b, nth_error (heap v) r = Some (OBullet b) /\
                v' = set_heap v (store (heap v) r (OBullet (TextBullet.move b)))
  end.
Proof.
  unfold move_one. intros E.
  apply bind_Ok in E. destruct E as ([] & h0 & L & R). apply log_Ok in L.
  destruct m as [|r].
  - apply ret_Ok in R. destruct R as [-> ->]. auto.
  - destruct (nth_error (heap v) r) as [[b|t|s]|] eqn:Eb; try discriminate.
    apply ret_Ok in R. destruct R as [-> ->].
    split; [reflexivity|]. split; [exact L|]. exists b. auto.
Qed.

Lemma countdown_move_bullet v r b b' :
  countdown_rosters v -> nth_error (heap v) r = Some (OBullet b) ->
  countdown_rosters (set_heap v (store (heap v) r (OBullet b'))).
Proof.
  intros ((t & Et) & Em & Ed) Eb. split; [|split; assumption].
  exists t. cbn [heap timer set_heap].
  rewrite nth_error_store_other; [exact Et|]. congruence.
Qed.

Lemma existsb_eqb_absent (m : Movable) (l : list Movable) :
  ~ In m l -> existsb (Movable_eqb m) l = false.
Proof.
  induction l as [|a l IH]; intros Hn; cbn; [reflexivity|].
  destruct (Movable_eqb m a) eqn:E.
  - apply Movable_eqb_eq in E. subst. exfalso. apply Hn. left. reflexivity.
  - apply IH. intros Hin. apply Hn. right. exact Hin.
Qed.

Lemma existsb_eqb_present (m : Movable) (l : list Movable) :
  In m l -> existsb (Movable_eqb m) l = true.
Proof.
  intros Hin. apply existsb_exists. exists m. split; [exact Hin|].
  apply Movable_eqb_eq. reflexivity.
Qed.

(** The moves, one by one: over a roster without repetition every entry
    from position [i] on is moved exactly once. *)
Lemma moves_exact fuel :
  forall i v h v' h',
    NoDup (skipn i (movables v)) ->
    py_for fuel movables move_one i v h = Ok (v', h') ->
    movables v' = movables v /\ bullets v' = bullets v /\
    player v' =
      (if existsb (Movable_eqb MPlayer) (skipn i (movables v))
       then Player.move (player v) else player v) /\
    forall r b,
      nth_error (heap v) r = Some (OBullet b) ->
      nth_error (heap v') r =
        Some (OBullet (if existsb (Movable_eqb (MObj r)) (skipn i (movables v))
                       then TextBullet.move b else b)).
Proof.
  induction fuel as [|fuel IH]; intros i v h v' h' Hnd E; cbn [py_for] in E.
  - destruct (nth_error (movables v) i) eqn:En; [discriminate|].
    apply ret_Ok in E. destruct E as [-> ->].
    rewrite (skipn_past _ _ En). cbn [existsb]. auto.
  - destruct (nth_error (movables v) i) as [m|] eqn:En.
    2:{ apply ret_Ok in E. destruct E as [-> ->].
        rewrite (skipn_past _ _ En). cbn [existsb]. auto. }
    apply bind_Ok in E. destruct E as (v1 & h1 & E1 & E2).
    apply move_one_Ok in E1. destruct E1 as (_ & _ & Hm).
    rewrite (skipn_nth_error _ _ _ En) in Hnd |- *.
    set (rest := skipn (S i) (movables v)) in *.
    apply NoDup_cons_iff in Hnd. destruct Hnd as (Hfresh & Hrest).
    cbn [existsb].
    destruct m as [|r0].
    + subst v1.
      assert (Hrest' : NoDup (skipn (S i)
                (movables (set_player v (Player.move (player v))))))
        by exact Hrest.
      destruct (IH (S i) _ _ _ _ Hrest' E2) as (Em & Eb & Ep & Eh).
      cbn [movables bullets player heap set_player] in Em, Eb, Ep, Eh.
      fold rest in Ep, Eh.
      rewrite (existsb_eqb_absent _ _ Hfresh) in Ep.
      split; [exact Em|]. split; [exact Eb|]. split; [exact Ep|].
      intros r b Hr. cbn [Movable_eqb orb]. apply Eh. exact Hr.
    + destruct Hm as (b0 & Eb0 & ->).
      assert (Hrest' : NoDup (skipn (S i)
                (movables (set_heap v (store (heap v) r0
                                         (OBullet (TextBullet.move b0)))))))
        by exact Hrest.
      destruct (IH (S i) _ _ _ _ Hrest' E2) as (Em & Eb & Ep & Eh).
      cbn [movables bullets player heap set_heap] in Em, Eb, Ep, Eh.
      fold rest in Ep, Eh.
      split; [exact Em|]. split; [exact Eb|]. split; [exact Ep|].
      intros r b Hr. cbn [Movable_eqb].
      destruct (Nat.eqb r r0) eqn:Er.
      * apply Nat.eqb_eq in Er. subst r0. cbn [orb].
        assert (b0 = b) by congruence. subst b0.
        rewrite (Eh r (TextBullet.move b)).
        -- rewrite (existsb_eqb_absent _ _ Hfresh). reflexivity.
        -- apply nth_error_store_same. apply nth_error_Some. congruence.
      * apply Nat.eqb_neq in Er. cbn [orb]. apply Eh.
        rewrite nth_error_store_other; [exact Hr | congruence].
Qed.

Lemma tick_bullet_timer_rosters s v h v' h' :
  tick_bullet_timer s v h = Ok (v', h') ->
  (heap v' = heap v /\ bullets v' = bullets v) \/
  (exists b, heap v' = heap v ++ [OBullet b] /\
             bullets v' = bullets v ++ [length (heap v)]).
Proof.
  unfold tick_bullet_timer. intros H.
  apply bind_Ok in H. destruct H as ([t' f] & h1 & H1 & H2).
  apply ret_Ok in H2. destruct H2 as [-> ->]. cbn [fst snd].
  destruct f; [right | left]; cbn; eauto.
Qed.

(** The moves: the Player moves once; in phase 2 nothing else does. *)
Lemma moves_Ok v h v' h' :
  py_for (length (movables v)) movables move_one 0 v h = Ok (v', h') ->
  game_state v' = game_state v /\
  (countdown_rosters v -> countdown_rosters v') /\
  (navigation_rosters v ->
   only_player v v' /\ player v' = Player.move (player v)) /\
  exists tr, trace h' = trace h ++ tr /\ Forall routine tr.
Proof.
  intros E.
  assert (G : (game_state v' = game_state v /\
               (countdown_rosters v -> countdown_rosters v')) /\
              exists tr, trace h' = trace h ++ tr /\
                         Forall (fun s => exists m, s = SMove m) tr).
  { apply (py_for_keeps movables move_one
             (fun u => game_state u = game_state v /\
                       (countdown_rosters v -> countdown_rosters u))
             (fun s => exists m, s = SMove m))
      with (fuel := length (movables v)) (i := 0%nat) (v := v) (h := h);
      [|auto|exact E].
    intros m u h0 u' h0' (Hg & Hc) _ Hm.
    apply move_one_Ok in Hm. destruct Hm as (Hg' & Ht & Hm).
    split; [|exists [SMove m]; split; [exact Ht|repeat constructor; eauto]].
    split; [congruence|]. intros Hv. specialize (Hc Hv).
    destruct m as [|r].
    - subst u'. eapply only_player_countdown; [apply only_player_set|exact Hc].
    - destruct Hm as (b & Eb & ->).
      eapply countdown_move_bullet; eassumption. }
  destruct G as ((Hg & Hc) & tr & Et & Hf).
  split; [exact Hg|]. split; [exact Hc|]. split.
  - intros (_ & _ & Em & _). rewrite Em in E. cbn [length py_for] in E.
    rewrite Em in E. cbn [nth_error] in E.
    apply bind_Ok in E. destruct E as (v1 & h1 & E1 & E2).
    apply move_one_Ok in E1. destruct E1 as (_ & _ & ->).
    cbn [movables set_player] in E2. rewrite Em in E2. cbn [nth_error] in E2.
    apply ret_Ok in E2. destruct E2 as [-> ->].
    split; [apply only_player_set | reflexivity].
  - exists tr. split; [exact Et|].
    eapply Forall_impl; [|exact Hf]. intros s (m & ->). exact I.
Qed.


Lemma SpriteCycle_tick_Ok c h c' h' :
  SpriteCycle.tick c h = Ok (c', h') ->
  exists tr, trace h' = trace h ++ tr /\ Forall routine tr.
Proof.
  unfold SpriteCycle.tick. intros E.
  apply bind_Ok in E. destruct E as ([t f] & h1 & E1 & E2).
  apply Timer_tick_Ok in E1. destruct E1 as (_ & Et). cbn [fst snd] in E2.
  assert (h' = h1).
  { destruct f.
    - apply lift_Ok in E2. apply E2.
    - apply ret_Ok in E2. apply E2. }
  subst h'. eexists. split; [exact Et|].
  destruct (Timer.paced _); repeat constructor.
Qed.

Lemma tick_cycles_Ok sheet :
  forall h sheet' h',
    Player.tick_cycles sheet h = Ok (sheet', h') ->
    exists tr, trace h' = trace h ++ tr /\ Forall routine tr.
Proof.
  induction sheet as [|[name c] rest IH]; intros h sheet' h' E;
    cbn [Player.tick_cycles] in E.
  - apply ret_Ok in E. destruct E as [_ ->]. exists []. rewrite app_nil_r. auto.
  - apply bind_Ok in E. destruct E as (c' & h1 & E1 & E2).
    apply bind_Ok in E2. destruct E2 as (rest' & h2 & E2 & E3).
    apply ret_Ok in E3. destruct E3 as [_ ->].
    apply SpriteCycle_tick_Ok in E1. destruct E1 as (t1 & Et1 & Hq1).
    apply IH in E2. destruct E2 as (t2 & Et2 & Hq2).
    exists (t1 ++ t2). rewrite Et2, Et1, app_assoc. split; [reflexivity|].
    apply Forall_app. auto.
Qed.

Lemma animate_sight_same_place p : same_place p (Player.animate_sight p).
Proof.
  unfold Player.animate_sight, same_place.
  destruct (_ && _); [cbn; auto|]. destruct (_ && _); cbn; auto.
Qed.

Lemma hit_sight_same_place p : same_place p (hit_sight p).
Proof.
  unfold hit_sight, when, same_place. destruct (Qleb _ _); cbn; auto.
Qed.

Lemma Player_draw_Ok p h p' h' :
  Player.draw p h = Ok (p', h') ->
  same_place p p' /\ exists tr, trace h' = trace h ++ tr /\ Forall routine tr.
Proof.
  unfold Player.draw. intros E.
  apply bind_Ok in E. destruct E as (sheet & h1 & E1 & E2).
  apply bind_Ok in E2. destruct E2 as (c & h2 & E2 & E3).
  apply lift_Ok in E2. destruct E2 as [_ ->].
  apply bind_Ok in E3. destruct E3 as ([] & h3 & E3 & E4).
  apply lift_Ok in E3. destruct E3 as [_ ->].
  apply ret_Ok in E4. destruct E4 as [-> ->].
  split; [|eapply tick_cycles_Ok; exact E1].
  eapply same_place_trans; [|apply animate_sight_same_place].
  unfold same_place. cbn. auto.
Qed.

Lemma draw_one_Ok d v h v' h' :
  draw_one d v h = Ok (v', h') ->
  only_player v v' /\ same_place (player v) (player v') /\
  exists tr, trace h' = trace h ++ tr /\ Forall routine tr.
Proof.
  unfold draw_one. intros E.
  apply bind_Ok in E. destruct E as ([] & h0 & L & R). apply log_Ok in L.
  assert (Q0 : Forall routine [SDraw d]) by (repeat constructor).
  destruct d as [|r|i|].
  - apply bind_Ok in R. destruct R as (p' & h1 & R1 & R2).
    apply ret_Ok in R2. destruct R2 as [-> ->].
    apply Player_draw_Ok in R1. destruct R1 as (Hs & tr & Et & Hq).
    split; [apply only_player_set|]. split; [exact Hs|].
    exists ([SDraw DPlayer] ++ tr). rewrite Et, L, app_assoc.
    split; [reflexivity|]. apply Forall_app. auto.
  - destruct (nth_error (heap v) r); [|discriminate].
    apply ret_Ok in R. destruct R as [-> ->].
    split; [apply only_player_refl|]. split; [apply same_place_refl|]. eauto.
  - destruct (nth_error walls i); [|discriminate].
    apply ret_Ok in R. destruct R as [-> ->].
    split; [apply only_player_refl|]. split; [apply same_place_refl|]. eauto.
  - apply ret_Ok in R. destruct R as [-> ->].
    split; [apply only_player_refl|]. split; [apply same_place_refl|]. eauto.
Qed.

(** The draws change nothing but the animation state of the Player. *)
Lemma draws_Ok v h v' h' :
  py_for (length (drawables v)) drawables draw_one 0 v h = Ok (v', h') ->
  only_player v v' /\ same_place (player v) (player v') /\
  exists tr, trace h' = trace h ++ tr /\ Forall routine tr.
Proof.
  intros E.
  destruct (py_for_keeps drawables draw_one
              (fun u => only_player v u /\ same_place (player v) (player u))
              routine) with (fuel := length (drawables v)) (i := 0%nat)
                          (v := v) (h := h) (v' := v') (h' := h')
    as ((Ho & Hs) & tr & Et & Hq).
  - intros d u h0 u' h0' (Ho & Hs) _ Hd.
    apply draw_one_Ok in Hd. destruct Hd as (Ho' & Hs' & Ht).
    split; [|exact Ht].
    split; [eapply only_player_trans | eapply same_place_trans]; eassumption.
  - split; [apply only_player_refl | apply same_place_refl].
  - exact E.
  - split; [exact Ho|]. split; [exact Hs|].
    exists tr. split; [exact Et | exact Hq].
Qed.

Lemma on_player_bullet_collide_Ok r v v' :
  on_player_bullet_collide r v = Ok v' ->
  game_state v' = game_state v /\ player v' = hit_sight (player v) /\
  timer v' = timer v /\ bullet_timer v' = bullet_timer v /\ heap v' = heap v /\
  remove_first Nat.eqb r (bullets v) = Ok (bullets v') /\
  remove_first Movable_eqb (MObj r) (movables v) = Ok (movables v') /\
  remove_first Drawable_eqb (DObj r) (drawables v) = Ok (drawables v').
Proof.
  unfold on_player_bullet_collide.
  destruct (remove_first Nat.eqb r (bullets v)); [|discriminate].
  destruct (remove_first Movable_eqb (MObj r) (movables v)); [|discriminate].
  destruct (remove_first Drawable_eqb (DObj r) (drawables v)); [|discriminate].
  intros E. injection E as <-. cbn. auto 10.
Qed.

Lemma collide_bullet_Ok r v h v' h' :
  collide_bullet r v h = Ok (v', h') ->
  game_state v' = game_state v /\ same_place (player v) (player v') /\
  (countdown_rosters v -> countdown_rosters v') /\
  exists hit, trace h' = trace h ++ [SCollide (CBullet r) hit].
Proof.
  unfold collide_bullet. intros E.
  destruct (nth_error (heap v) r) as [[b|t|s]|] eqn:Eb; try discriminate.
  apply bind_Ok in E. destruct E as ([] & h0 & L & R). apply log_Ok in L.
  destruct (colliderect _ _) eqn:Eh.
  - apply lift_Ok in R. destruct R as [R ->].
    assert (Hb : is_bullet (heap v) r) by (exists b; exact Eb).
    split; [|split; [|split]].
    + apply on_player_bullet_collide_Ok in R. apply R.
    + apply on_player_bullet_collide_Ok in R. destruct R as (_ & -> & _).
      apply hit_sight_same_place.
    + intros Hc. eapply countdown_hit; eassumption.
    + eauto.
  - apply ret_Ok in R. destruct R as [-> ->].
    split; [reflexivity|]. split; [apply same_place_refl|]. split; [auto|eauto].
Qed.


(** The projectile pass: only projectiles are tested; in phase 2 there is
    none. *)
Lemma collide_bullets_Ok v h v' h' :
  collide_bullets v h = Ok (v', h') ->
  game_state v' = game_state v /\ same_place (player v) (player v') /\
  (countdown_rosters v -> countdown_rosters v') /\
  (navigation_rosters v -> v' = v /\ h' = h) /\
  exists tr, trace h' = trace h ++ tr /\ Forall is_collide tr /\
             Forall is_bullet_check (checked tr).
Proof.
  unfold collide_bullets. intros E.
  destruct (py_for_keeps bullets collide_bullet
              (fun u => game_state u = game_state v /\
                        same_place (player v) (player u) /\
                        (countdown_rosters v -> countdown_rosters u))
              (fun s => exists r hit, s = SCollide (CBullet r) hit))
    with (fuel := length (bullets v)) (i := 0%nat)
         (v := v) (h := h) (v' := v') (h' := h')
    as ((Hg & Hs & Hc) & tr & Et & Hq).
  - intros r u h0 u' h0' (Hg & Hs & Hc) _ Hd.
    apply collide_bullet_Ok in Hd. destruct Hd as (Hg' & Hs' & Hc' & hit & Ht).
    split; [|exists [SCollide (CBullet r) hit]; split;
             [exact Ht | repeat constructor; eauto]].
    split; [congruence|]. split; [eapply same_place_trans; eassumption | auto].
  - split; [reflexivity|]. split; [apply same_place_refl | auto].
  - exact E.
  - split; [exact Hg|]. split; [exact Hs|]. split; [exact Hc|]. split.
    + intros (_ & Eb & _). rewrite Eb in E. cbn [length py_for] in E.
      rewrite Eb in E. cbn [nth_error] in E. apply ret_Ok in E. exact E.
    + exists tr. split; [exact Et|]. split.
      * eapply Forall_impl; [|exact Hq]. intros s (r & hit & ->). exact I.
      * clear - Hq. induction Hq as [|s l (r & hit & ->) _ IH]; [constructor|].
        cbn [checked flat_map app]. constructor; [exact I | exact IH].
Qed.

Lemma collide_bullets_heap v h v' h' :
  collide_bullets v h = Ok (v', h') -> heap v' = heap v.
Proof.
  unfold collide_bullets. intros E.
  destruct (py_for_keeps bullets collide_bullet
              (fun u => heap u = heap v) (fun _ => True))
    with (fuel := length (bullets v)) (i := 0%nat)
         (v := v) (h := h) (v' := v') (h' := h') as (Hh & _);
    [|reflexivity|exact E|exact Hh].
  intros r u h0 u' h0' Hu _ Hd. split.
  - unfold collide_bullet in Hd.
    destruct (nth_error (heap u) r) as [[b|t|s]|]; try discriminate.
    apply bind_Ok in Hd. destruct Hd as ([] & h1 & _ & R).
    destruct (colliderect _ _).
    + apply lift_Ok in R. destruct R as [R _].
      apply on_player_bullet_collide_Ok in R.
      destruct R as (_ & _ & _ & _ & Eh & _). congruence.
    + apply ret_Ok in R. destruct R as [-> _]. exact Hu.
  - unfold collide_bullet in Hd.
    destruct (nth_error (heap u) r) as [[b|t|s]|]; try discriminate.
    apply bind_Ok in Hd. destruct Hd as ([] & h1 & L & R). apply log_Ok in L.
    assert (h0' = h1).
    { destruct (colliderect _ _).
      - apply lift_Ok in R. apply R.
      - apply ret_Ok in R. apply R. }
    subst h1. eexists. split; [exact L|]. repeat constructor.
Qed.

Lemma collide_end_zone_Ok v h v' h' :
  collide_end_zone v h = Ok (v', h') ->
  v' = (if colliderect (Player.hitbox (player v)) (EndZone.hitbox end_zone)
        then on_player_end_collide v else v) /\
  trace h' = trace h ++
    [SCollide CEndZone
       (colliderect (Player.hitbox (player v)) (EndZone.hitbox end_zone))].
Proof.
  unfold collide_end_zone. intros E.
  apply bind_Ok in E. destruct E as ([] & h0 & L & R). apply log_Ok in L.
  apply ret_Ok in R. destruct R as [-> ->]. auto.
Qed.


Lemma game_state_is_ext v v' k :
  game_state v' = game_state v -> game_state_is v' k = game_state_is v k.
Proof. unfold game_state_is. intros ->. reflexivity. Qed.

Lemma frame_after_head inp v h :
  frame inp v h =
  (let q := keys inp K_ESCAPE || existsb is_quit (posted_late inp) in
   let v := if q then set_game_state v None else v in
   v <- tick_timer v ;;
   v <- (if game_state_is v 1 then tick_bullet_timer (spawn inp) v else ret v) ;;
   v <- (if game_state_is v 2
         then py_for (length walls) (fun _ => seq 0 (length walls)) collide_wall 0 v
         else ret v) ;;
   log SKeyMove ;;
   let v := set_player v (Player.key_move (player v) (keys inp)) in
   v <- py_for (length (movables v)) movables move_one 0 v ;;
   v <- py_for (length (drawables v)) drawables draw_one 0 v ;;
   v <- collide_bullets v ;;
   v <- (if game_state_is v 2 then collide_end_zone v else ret v) ;;
   v <- (if game_state_is v 3
         then log SPrintEnd ;; ret (set_game_state v None)
         else ret v) ;;
   log SDisplayUpdate ;;
   ret v)
    (mkHost (clock_feed h) (clock_calls h) []
       (trace h ++ [SGetPressed; SFill; SEventClear;
                    SCheckQuit (keys inp K_ESCAPE
                                || existsb is_quit (posted_late inp))])).
Proof.
  unfold frame. apply frame_head.
Qed.

(** The phase clock's tick, on a state whose rosters are those of a
    phase. *)
Lemma tick_timer_phase v h v' h' :
  tick_timer v h = Ok (v', h') ->
  (countdown_rosters v ->
   exists t, nth_error (heap v) (timer v) = Some (OTimer t) /\
     if Timer.fired (Timer.tick t (next_reading h))
     then game_state v' = Some 2%Z /\ navigation_rosters v' /\
          Player.x (player v') = 50 /\ Player.y (player v') = 50
     else game_state v' = game_state v /\ countdown_rosters v' /\
          player v' = player v) /\
  (navigation_rosters v ->
   game_state v' = game_state v /\ navigation_rosters v' /\
   player v' = player v) /\
  exists tr, trace h' = trace h ++ tr /\ Forall routine tr.
Proof.
  intros E. apply tick_timer_Ok in E. destruct E as (Htr & Hv).
  split; [|split; [|exact Htr]].
  - intros Hc. pose proof Hc as ((t & Et) & _).
    exists t. split; [exact Et|].
    destruct Hv as [(t0 & Et0 & ->) | (s & Es & _)]; [|congruence].
    assert (t0 = t) by congruence. subst t0. cbv zeta.
    destruct (Timer.fired _).
    + split; [reflexivity|]. split; [apply navigation_change_state|].
      split; reflexivity.
    + split; [reflexivity|]. split; [apply countdown_store; exact Hc|].
      reflexivity.
  - intros Hn. pose proof Hn as ((s & Es) & _).
    destruct Hv as [(t0 & Et0 & _) | (s0 & Es0 & ->)]; [congruence|].
    split; [reflexivity|]. split; [apply navigation_store; exact Hn|].
    reflexivity.
Qed.

Lemma routine_not_print tr : Forall routine tr -> ~ In SPrintEnd tr.
Proof.
  intros H Hin. rewrite Forall_forall in H. exact (H _ Hin).
Qed.

Lemma collide_not_print tr : Forall is_collide tr -> ~ In SPrintEnd tr.
Proof.
  intros H Hin. rewrite Forall_forall in H. exact (H _ Hin).
Qed.

Lemma checked_collide_nil tr : Forall is_collide tr -> checked tr = [] -> tr = [].
Proof.
  intros H E. destruct tr as [|s tr]; [reflexivity|].
  inversion H as [|? ? Hs _]; subst. destruct s; try destruct Hs. discriminate.
Qed.

Lemma in_app_skip {A} (x : A) l1 l2 :
  ~ In x l1 -> (In x (l1 ++ l2) <-> In x l2).
Proof.
  intros Hn. rewrite in_app_iff. split; [intros [H|H]; [contradiction|exact H]|auto].
Qed.

(** One frame, read off its result: the state [v1] after the tick of the
    phase clock decides what the rest of the body does. *)
Lemma frame_story inp v h v' h' :
  frame inp v h = Ok (v', h') ->
  let q := keys inp K_ESCAPE || existsb is_quit (posted_late inp) in
  let goal := colliderect (Player.hitbox (player v')) (EndZone.hitbox end_zone) in
  exists v1 h1 tr cb,
    tick_timer (if q then set_game_state v None else v)
      (mkHost (clock_feed h) (clock_calls h) []
         (trace h ++ [SGetPressed; SFill; SEventClear; SCheckQuit q]))
      = Ok (v1, h1) /\
    trace h' = trace h ++ tr /\
    checked tr =
      (if game_state_is v1 2 then map CWall (seq 0 (length walls)) else [])
      ++ cb ++ (if game_state_is v1 2 then [CEndZone] else []) /\
    Forall is_bullet_check cb /\
    (In SPrintEnd tr <->
     (game_state_is v1 2 && goal) || game_state_is v1 3 = true) /\
    game_state v' =
      (if game_state_is v1 2 then (if goal then None else Some 2%Z)
       else if game_state_is v1 3 then None else game_state v1) /\
    (countdown_rosters v1 -> countdown_rosters v') /\
    (game_state_is v1 1 = false -> navigation_rosters v1 ->
     navigation_rosters v' /\ cb = [] /\
     same_place
       (Player.move
          (Player.key_move
             (if game_state_is v1 2 && touches_wall (Player.hitbox (player v1))
              then player (on_player_wall_collide v1) else player v1)
             (keys inp)))
       (player v')) /\
    (game_state_is v1 2 = false -> countdown_rosters v1 ->
     NoDup (bullets v1) ->
     (forall r, In r (bullets v1) -> (r < length (heap v1))%nat) ->
     same_place (Player.move (Player.key_move (player v1) (keys inp)))
       (player v') /\
     forall r b,
       In r (bullets v1) -> nth_error (heap v1) r = Some (OBullet b) ->
       nth_error (heap v') r = Some (OBullet (TextBullet.move b))).
Proof.
  intros E q goal. rewrite frame_after_head in E. cbv zeta in E. fold q in E.
  apply bind_Ok in E. destruct E as (v1 & h1 & E1 & E).
  apply bind_Ok in E. destruct E as (v2 & h2 & E2 & E).
  apply bind_Ok in E. destruct E as (v3 & h3 & E3 & E).
  apply bind_Ok in E. destruct E as ([] & h4 & L4 & E). apply log_Ok in L4.
  apply bind_Ok in E. destruct E as (v5 & h5 & E5 & E).
  apply bind_Ok in E. destruct E as (v6 & h6 & E6 & E).
  apply bind_Ok in E. destruct E as (v7 & h7 & E7 & E).
  apply bind_Ok in E. destruct E as (v8 & h8 & E8 & E).
  apply bind_Ok in E. destruct E as (v9 & h9 & E9 & E).
  apply bind_Ok in E. destruct E as ([] & h10 & L10 & E). apply log_Ok in L10.
  apply ret_Ok in E. destruct E as [-> ->].
  (* the phase clock *)
  pose proof (tick_timer_Ok _ _ _ _ E1) as ((t1 & T1 & R1) & _).
  cbn [trace] in T1.
  (* the spawn timer *)
  assert (A2 : game_state v2 = game_state v1 /\ player v2 = player v1 /\
               (countdown_rosters v1 -> countdown_rosters v2) /\
               (game_state_is v1 1 = false -> v2 = v1) /\
               exists t2, trace h2 = trace h1 ++ t2 /\ Forall routine t2).
  { destruct (game_state_is v1 1).
    - apply tick_bullet_timer_Ok in E2.
      destruct E2 as (G & P & C & T). repeat (split; [assumption|]).
      split; [discriminate | exact T].
    - apply ret_Ok in E2. destruct E2 as [-> ->].
      repeat (split; [auto|]). exists []. rewrite app_nil_r. auto. }
  destruct A2 as (G2 & P2 & C2 & N2 & t2 & T2 & R2).
  (* the walls *)
  assert (S2 : game_state_is v2 2 = game_state_is v1 2)
    by (apply game_state_is_ext; exact G2).
  rewrite S2 in E3.
  assert (A3 : only_player v2 v3 /\
               player v3 =
                 (if game_state_is v1 2 && touches_wall (Player.hitbox (player v2))
                  then player (on_player_wall_collide v2) else player v2) /\
               exists t3, trace h3 = trace h2 ++ t3 /\ Forall is_collide t3 /\
                 checked t3 = if game_state_is v1 2
                              then map CWall (seq 0 (length walls)) else []).
  { destruct (game_state_is v1 2).
    - apply walls_loop_Ok in E3. cbn [skipn] in E3.
      rewrite Nat.sub_0_r in E3. cbn [andb]. exact E3.
    - apply ret_Ok in E3. destruct E3 as [-> ->].
      split; [apply only_player_refl|]. split; [reflexivity|].
      exists []. rewrite app_nil_r. auto. }
  destruct A3 as (O3 & P3 & t3 & T3 & R3 & K3).
  (* key_move and the moves *)
  set (v4 := set_player v3 (Player.key_move (player v3) (keys inp))) in *.
  assert (O4 : only_player v3 v4) by apply only_player_set.
  pose proof (moves_Ok _ _ _ _ E5) as (G5 & C5 & N5 & t5 & T5 & R5).
  (* the draws *)
  apply draws_Ok in E6. destruct E6 as (O6 & P6 & t6 & T6 & R6).
  (* the projectile pass *)
  pose proof (collide_bullets_Ok _ _ _ _ E7)
    as (G7 & P7 & C7 & N7 & t7 & T7 & R7 & K7).
  (* the state of the game up to here *)
  assert (G71 : game_state v7 = game_state v1).
  { destruct O3 as (G3 & _). destruct O4 as (G4 & _). destruct O6 as (G6 & _).
    congruence. }
  assert (S7 : game_state_is v7 2 = game_state_is v1 2)
    by (apply game_state_is_ext; exact G71).
  rewrite S7 in E8.
  (* the goal zone *)
  set (hit := colliderect (Player.hitbox (player v7)) (EndZone.hitbox end_zone)).
  assert (A8 : v8 = (if game_state_is v1 2 && hit
                     then on_player_end_collide v7 else v7) /\
               exists t8, trace h8 = trace h7 ++ t8 /\ Forall is_collide t8 /\
                 checked t8 = if game_state_is v1 2 then [CEndZone] else []).
  { destruct (game_state_is v1 2).
    - apply collide_end_zone_Ok in E8. destruct E8 as (-> & T8). fold hit in T8 |- *.
      split; [reflexivity|]. eexists. split; [exact T8|].
      split; [repeat constructor | reflexivity].
    - apply ret_Ok in E8. destruct E8 as [-> ->]. split; [reflexivity|].
      exists []. rewrite app_nil_r. auto. }
  destruct A8 as (V8 & t8 & T8 & R8 & K8).
  (* the end of the run *)
  assert (A9 : v9 = (if game_state_is v8 3 then set_game_state v8 None else v8) /\
               trace h9 = trace h8 ++
                 (if game_state_is v8 3 then [SPrintEnd] else [])).
  { destruct (game_state_is v8 3).
    - apply bind_Ok in E9. destruct E9 as ([] & h0 & L & R). apply log_Ok in L.
      apply ret_Ok in R. destruct R as [-> ->]. auto.
    - apply ret_Ok in E9. destruct E9 as [-> ->]. rewrite app_nil_r. auto. }
  destruct A9 as (V9 & T9).
  assert (S8 : game_state_is v8 3 =
               (game_state_is v1 2 && hit) || game_state_is v1 3).
  { rewrite V8. destruct (game_state_is v1 2 && hit) eqn:Eh.
    - reflexivity.
    - rewrite (game_state_is_ext v1 v7 3 G71). reflexivity. }
  assert (P97 : player v9 = player v7).
  { rewrite V9. transitivity (player v8).
    - destruct (game_state_is v8 3); reflexivity.
    - rewrite V8. destruct (game_state_is v1 2 && hit); reflexivity. }
  assert (Egoal : goal = hit).
  { unfold goal, hit. rewrite P97. reflexivity. }
  assert (Sh : forall (u : Vars) (g : option Z),
             (countdown_rosters u -> countdown_rosters (set_game_state u g)) /\
             (navigation_rosters u -> navigation_rosters (set_game_state u g))).
  { intros u g. split; intros Hu; exact Hu. }
  exists v1, h1.
  exists ([SGetPressed; SFill; SEventClear; SCheckQuit q] ++ t1 ++ t2 ++ t3
            ++ [SKeyMove] ++ t5 ++ t6 ++ t7 ++ t8
            ++ (if game_state_is v8 3 then [SPrintEnd] else [])
            ++ [SDisplayUpdate]).
  exists (checked t7).
  split; [exact E1|].
  split; [|split; [|split; [exact K7|split; [|split; [|split; [|split]]]]]].
  - rewrite L10, T9, T8, T7, T6, T5, L4, T3, T2, T1.
    rewrite <- !app_assoc. reflexivity.
  - rewrite !checked_app, K3, K8.
    rewrite (checked_routine t1 R1), (checked_routine t2 R2),
            (checked_routine t5 R5), (checked_routine t6 R6).
    destruct (game_state_is v8 3); cbn [checked flat_map app];
      rewrite ?app_nil_r; reflexivity.
  - rewrite Egoal, <- S8.
    rewrite (in_app_skip SPrintEnd [SGetPressed; SFill; SEventClear; SCheckQuit q])
      by (cbn; intros [H|[H|[H|[H|[]]]]]; discriminate).
    rewrite (in_app_skip _ t1) by (apply routine_not_print; exact R1).
    rewrite (in_app_skip _ t2) by (apply routine_not_print; exact R2).
    rewrite (in_app_skip _ t3) by (apply collide_not_print; exact R3).
    rewrite (in_app_skip SPrintEnd [SKeyMove])
      by (cbn; intros [H|[]]; discriminate).
    rewrite (in_app_skip _ t5) by (apply routine_not_print; exact R5).
    rewrite (in_app_skip _ t6) by (apply routine_not_print; exact R6).
    rewrite (in_app_skip _ t7) by (apply collide_not_print; exact R7).
    rewrite (in_app_skip _ t8) by (apply collide_not_print; exact R8).
    destruct (game_state_is v8 3); cbn [app In].
    + split; auto.
    + split; [intros [H|[]]; discriminate | discriminate].
  - rewrite Egoal, V9, S8.
    assert (G8 : game_state v8 = if game_state_is v1 2 && hit
                                 then Some 3%Z else game_state v7).
    { rewrite V8. destruct (game_state_is v1 2 && hit); reflexivity. }
    transitivity (if (game_state_is v1 2 && hit) || game_state_is v1 3
                  then None else game_state v8).
    { destruct ((game_state_is v1 2 && hit) || game_state_is v1 3); reflexivity. }
    rewrite G8.
    destruct (game_state_is v1 2) eqn:H2, hit; cbn [andb orb].
    + reflexivity.
    + apply game_state_is_true in H2.
      assert (H3 : game_state_is v1 3 = false).
      { unfold game_state_is. rewrite H2. reflexivity. }
      rewrite H3. congruence.
    + destruct (game_state_is v1 3); [reflexivity | exact G71].
    + destruct (game_state_is v1 3); [reflexivity | exact G71].
  - intros Hc.
    assert (Hc7 : countdown_rosters v7).
    { apply C7. eapply only_player_countdown; [exact O6|]. apply C5.
      eapply only_player_countdown; [exact O4|].
      eapply only_player_countdown; [exact O3|]. auto. }
    assert (Hc8 : countdown_rosters v8).
    { rewrite V8. destruct (game_state_is v1 2 && hit); [|exact Hc7].
      unfold on_player_end_collide. apply Sh. exact Hc7. }
    rewrite V9. destruct (game_state_is v8 3); [apply Sh|]; exact Hc8.
  - intros H1 Hn. specialize (N2 H1). subst v2.
    assert (Hn4 : navigation_rosters v4).
    { eapply only_player_navigation; [exact O4|].
      eapply only_player_navigation; [exact O3|]. exact Hn. }
    destruct (N5 Hn4) as (O5 & P5).
    assert (Hn6 : navigation_rosters v6).
    { eapply only_player_navigation; [exact O6|].
      eapply only_player_navigation; [exact O5|]. exact Hn4. }
    destruct (N7 Hn6) as (E76 & H76). subst v7 h7.
    split; [|split].
    + assert (Hn8 : navigation_rosters v8).
      { rewrite V8. destruct (game_state_is v1 2 && hit); [|exact Hn6].
        unfold on_player_end_collide. apply Sh. exact Hn6. }
      rewrite V9. destruct (game_state_is v8 3); [apply Sh|]; exact Hn8.
    + assert (t7 = []).
      { apply (app_inv_head (trace h6)). rewrite app_nil_r. symmetry. exact T7. }
      subst t7. reflexivity.
    + rewrite P97. eapply same_place_trans; [|exact P6].
      rewrite P5. unfold v4. cbn [player set_player]. rewrite P3.
      apply same_place_refl.
  - intros I2 Hc Hnd Hlt.
    (* the rosters after the spawn timer *)
    assert (B2 : NoDup (bullets v2) /\
                 forall r, In r (bullets v1) ->
                   In r (bullets v2) /\
                   nth_error (heap v2) r = nth_error (heap v1) r).
    { destruct (game_state_is v1 1).
      - destruct (tick_bullet_timer_rosters _ _ _ _ _ E2)
          as [(Eh & Eb)|(b & Eh & Eb)]; rewrite Eh, Eb.
        + auto.
        + split.
          * apply NoDup_snoc; [exact Hnd|]. intros Hin.
            specialize (Hlt _ Hin). lia.
          * intros r Hr. split; [apply in_or_app; left; exact Hr|].
            apply nth_error_app1. apply Hlt. exact Hr.
      - apply ret_Ok in E2. destruct E2 as [-> _]. auto. }
    destruct B2 as (Hnd2 & Hin2).
    pose proof (C2 Hc) as (_ & Em2 & _).
    rewrite I2 in P3. cbn [andb] in P3.
    destruct O3 as (_ & _ & _ & Eb3 & _ & Em3 & Eh3).
    assert (Em4 : movables v4 = MPlayer :: map MObj (bullets v2)).
    { unfold v4. cbn [movables set_player]. rewrite Em3. exact Em2. }
    assert (Hnd4 : NoDup (skipn 0 (movables v4))).
    { cbn [skipn]. rewrite Em4. constructor.
      - intros Hin. apply in_map_iff in Hin. destruct Hin as (r & Er & _).
        discriminate.
      - apply NoDup_map_inj; [|exact Hnd2]. intros a b Hab.
        injection Hab as ->. reflexivity. }
    destruct (moves_exact _ _ _ _ _ _ Hnd4 E5) as (_ & _ & Ep5 & Eh5).
    cbn [skipn] in Ep5, Eh5. rewrite Em4 in Ep5, Eh5.
    cbn [existsb Movable_eqb orb] in Ep5.
    destruct O6 as (_ & _ & _ & _ & _ & _ & Eh6).
    pose proof (collide_bullets_heap _ _ _ _ E7) as Eh7.
    assert (Eh9 : heap v9 = heap v7).
    { rewrite V9. transitivity (heap v8).
      - destruct (game_state_is v8 3); reflexivity.
      - rewrite V8. destruct (game_state_is v1 2 && hit); reflexivity. }
    split.
    + rewrite P97. eapply same_place_trans; [|exact P7].
      eapply same_place_trans; [|exact P6].
      rewrite Ep5. unfold v4. cbn [player set_player]. rewrite P3, P2.
      apply same_place_refl.
    + intros r b Hr Hb. destruct (Hin2 r Hr) as (Hr2 & Hh2).
      rewrite Eh9, Eh7, Eh6.
      rewrite (Eh5 r b).
      * assert (Ex : existsb (Movable_eqb (MObj r))
                       (MPlayer :: map MObj (bullets v2)) = true).
        { apply existsb_eqb_present. right. apply in_map. exact Hr2. }
        rewrite Ex. reflexivity.
      * unfold v4. cbn [heap set_player]. rewrite Eh3, Hh2. exact Hb.
Qed.

(** *** The restart point *)

(** A rectangle that ends where another begins, or before, does not
    overlap it. *)
Lemma colliderect_left_of a b :
  (rect_right a <= rect_x b)%Z -> (0 <= rect_w a)%Z -> (0 <= rect_w b)%Z ->
  colliderect a b = false.
Proof.
  unfold colliderect, rect_right. intros H Ha Hb.
  assert (F : (Z.min (rect_x b) (rect_x b + rect_w b)
               <? Z.max (rect_x a) (rect_x a + rect_w a))%Z = false).
  { apply Z.ltb_ge. lia. }
  rewrite F. rewrite !andb_false_r. reflexivity.
Qed.

(** A Player at the restart point (50, 50) is, after [key_move] and
    [move], within three units of it, with the hitbox of its position, and
    clear of the goal zone. *)
Lemma restart_step p keys :
  Player.x p = 50 -> Player.y p = 50 ->
  let p' := Player.move (Player.key_move p keys) in
  Player.x p' == 50 + Vector.x (Player.velocity_vector (Player.key_move p keys)) /\
  Player.y p' == 50 + Vector.y (Player.velocity_vector (Player.key_move p keys)) /\
  Player.velocity_vector p' = Player.velocity_vector (Player.key_move p keys) /\
  Player.hitbox p' = Player.hitbox_at (Player.x p') (Player.y p') /\
  colliderect (Player.hitbox p') (EndZone.hitbox end_zone) = false.
Proof.
  intros Hx Hy p'.
  destruct (key_move_frame p keys) as (_ & _ & _ & _ & Ex & Ey).
  pose proof (settle_bounds (Player.accelerate (Player.acceleration_vector p) keys
                               (Player.velocity_vector p))) as B.
  pose proof (key_move_velocity p keys) as Ev.
  cbn zeta in B, Ev. rewrite <- Ev in B. clear Ev.
  unfold Player.MAX_SPEED in B. destruct B as (Bx & By).
  set (k := Player.key_move p keys) in *.
  assert (X : Player.x p' = 50 + Vector.x (Player.velocity_vector k)).
  { unfold p', Player.move, Vector.get_vector_as_tuple, when.
    cbn [Player.x Player.set_hitbox Player.set_position].
    rewrite Ex, Hx.
    pose proof half_extent as Hh. unfold Player.WIDTH, GAME_WIDTH.
    destruct (Qltb (50 + Vector.x (Player.velocity_vector k)) (inject_Z 48 / 2)) eqn:E1;
      [apply Qltb_lt in E1; lra|].
    destruct (Qltb (800 - inject_Z 48 / 2) (50 + Vector.x (Player.velocity_vector k))) eqn:E2;
      [apply Qltb_lt in E2; lra|].
    reflexivity. }
  assert (Y : Player.y p' = 50 + Vector.y (Player.velocity_vector k)).
  { unfold p', Player.move, Vector.get_vector_as_tuple, when.
    cbn [Player.y Player.set_hitbox Player.set_position].
    rewrite Ey, Hy.
    pose proof half_extent as Hh. unfold Player.HEIGHT, GAME_HEIGHT.
    destruct (Qltb (50 + Vector.y (Player.velocity_vector k)) (inject_Z 48 / 2)) eqn:E1;
      [apply Qltb_lt in E1; lra|].
    destruct (Qltb (600 - inject_Z 48 / 2) (50 + Vector.y (Player.velocity_vector k))) eqn:E2;
      [apply Qltb_lt in E2; lra|].
    reflexivity. }
  assert (Hh : Player.hitbox p' = Player.hitbox_at (Player.x p') (Player.y p'))
    by apply move_hitbox.
  split; [rewrite X; reflexivity|]. split; [rewrite Y; reflexivity|].
  split; [reflexivity|]. split; [exact Hh|].
  rewrite Hh. apply colliderect_left_of.
  - unfold Player.hitbox_at, rect_right, end_zone, Player.WIDTH.
    cbn [rect_x rect_w EndZone.hitbox EndZone.x].
    pose proof half_extent as He.
    assert (Hb : (0 <= py_int (Player.x p' - inject_Z 48 / 2) <= 29)%Z).
    { apply py_int_bounds; rewrite X; change (inject_Z 29) with 29; lra. }
    lia.
  - cbn. discriminate.
  - cbn. discriminate.
Qed.

(** *** States reached by the loop *)

Lemma frame_returns rows inp v h :
  (4 <= rows <= 9)%nat -> reachable rows v h ->
  exists v' h', frame inp v h = Ok (v', h').
Proof.
  intros Hrows Hreach.
  destruct (reachable_wf rows v h Hrows Hreach) as [Hwf _].
  destruct (frame_runs rows inp v h Hwf) as (v' & h' & tr & E & _).
  eauto.
Qed.

Lemma phased_quit v (q : bool) :
  phased v ->
  (countdown_rosters v /\
   game_state (if q then set_game_state v None else v)
   = (if q then None else game_state v) /\
   (game_state v = Some 1%Z \/ game_state v = None)) \/
  (navigation_rosters v /\
   game_state (if q then set_game_state v None else v)
   = (if q then None else game_state v) /\
   (game_state v = Some 2%Z \/ game_state v = None)).
Proof.
  intros [(G & C)|[(G & N)|(G & [C|N])]]; destruct q; cbn; auto.
Qed.

(** The invariant of the loop test is kept by a frame. *)
Lemma frame_phased inp v h v' h' :
  phased v -> frame inp v h = Ok (v', h') -> phased v'.
Proof.
  intros Hph E.
  destruct (frame_story inp v h v' h' E)
    as (v1 & h1 & tr & cb & E1 & _ & _ & _ & _ & G & C & N & M).
  set (q := keys inp K_ESCAPE || existsb is_quit (posted_late inp)) in *.
  set (goal := colliderect _ _) in *.
  destruct (tick_timer_phase _ _ _ _ E1) as (TC & TN & _).
  assert (Sc : countdown_rosters v ->
               countdown_rosters (if q then set_game_state v None else v))
    by (destruct q; auto).
  assert (Sn : navigation_rosters v ->
               navigation_rosters (if q then set_game_state v None else v))
    by (destruct q; auto).
  destruct (phased_quit v q Hph) as [(Hc & G0 & Gv)|(Hn & G0 & Gv)].
  - destruct (TC (Sc Hc)) as (t & _ & Hf).
    destruct (Timer.fired _).
    + destruct Hf as (G1 & N1 & _).
      assert (I1 : game_state_is v1 1 = false)
        by (unfold game_state_is; rewrite G1; reflexivity).
      assert (I2 : game_state_is v1 2 = true)
        by (unfold game_state_is; rewrite G1; reflexivity).
      destruct (N I1 N1) as (N' & _). rewrite I2 in G.
      destruct goal; [right; right | right; left]; auto.
    + destruct Hf as (G1 & C1 & _). rewrite G0 in G1.
      assert (I2 : game_state_is v1 2 = false /\ game_state_is v1 3 = false).
      { unfold game_state_is. rewrite G1.
        destruct q; [auto|]. destruct Gv as [-> | ->]; auto. }
      destruct I2 as (I2 & I3). rewrite I2, I3, G1 in G.
      specialize (C C1).
      destruct q; [right; right; auto|].
      destruct Gv as [Gv|Gv]; rewrite Gv in G; [left | right; right]; auto.
  - destruct (TN (Sn Hn)) as (G1 & N1 & _). rewrite G0 in G1.
    assert (I1 : game_state_is v1 1 = false).
    { unfold game_state_is. rewrite G1.
      destruct q; [auto|]. destruct Gv as [-> | ->]; auto. }
    destruct (N I1 N1) as (N' & _).
    assert (I3 : game_state_is v1 3 = false).
    { unfold game_state_is. rewrite G1.
      destruct q; [auto|]. destruct Gv as [-> | ->]; auto. }
    rewrite I3 in G.
    destruct (game_state_is v1 2).
    + destruct goal; [right; right | right; left]; auto.
    + rewrite G1 in G. destruct q; [right; right; auto|].
      destruct Gv as [Gv|Gv]; rewrite Gv in G; [right; left | right; right]; auto.
Qed.

Lemma main_loop_phased inputs :
  forall v h v' h',
    phased v -> main_loop inputs v h = Ok (v', h') -> phased v'.
Proof.
  induction inputs as [|inp rest IH]; intros v h v' h' Hph E; cbn [main_loop] in E.
  - apply ret_Ok in E. destruct E as [-> _]. exact Hph.
  - destruct (game_state v).
    + apply bind_Ok in E. destruct E as (v1 & h1 & E1 & E2).
      eapply IH; [|exact E2]. eapply frame_phased; eassumption.
    + apply ret_Ok in E. destruct E as [-> _]. exact Hph.
Qed.

Lemma init_phased rows v0 : init rows = Ok v0 -> phased v0.
Proof.
  unfold init. destruct (Player.new _ _ _ _); [|discriminate].
  intros E. injection E as <-. left. split; [reflexivity|].
  split; [|split]; cbn; eauto.
Qed.

Lemma reachable_phased rows v h : reachable rows v h -> phased v.
Proof.
  intros (v0 & feed & inputs & E0 & Erun).
  eapply main_loop_phased; [|exact Erun]. eapply init_phased. exact E0.
Qed.

Lemma fired_running t ms :
  0 < Timer.time t ->
  Timer.fired (Timer.tick t ms) = Qleb (Timer.time t - seconds ms) 0.
Proof.
  intros Hpos. unfold Timer.tick.
  assert (E : Qltb 0 (Timer.time t) = true) by (apply Qltb_lt; exact Hpos).
  rewrite E. reflexivity.
Qed.



(** X14: whenever the loop evaluates its condition, [game_state] is 1, 2
    or [None]; in phase 1 [movables] is the Player followed by the
    projectiles of [bullets] and [drawables] is the Player, the countdown
    Timer and the same projectiles, in the same order; in phase 2 there is
    no projectile: [bullets] is empty, [movables] is the Player alone and
    [drawables] is the Player, the walls, the goal zone and the
    Stopwatch. *)
Theorem X14_rosters_follow_the_phase :
  forall (rows : nat) (v : Vars) (h : Host),
    reachable rows v h ->
    (game_state v = Some 1%Z \/ game_state v = Some 2%Z \/ game_state v = None) /\
    (game_state v = Some 1%Z -> countdown_rosters v) /\
    (game_state v = Some 2%Z -> navigation_rosters v).
Proof.
  intros rows v h Hreach.
  destruct (reachable_phased rows v h Hreach) as [(G & C)|[(G & N)|(G & _)]].
  - split; [auto|]. split; [auto|]. congruence.
  - split; [auto|]. split; [congruence|auto].
  - split; [auto|]. split; congruence.
Qed.

(** The states of the examples are reached by the loop. *)
Lemma navigating_reachable : reachable 9 (fst navigating) (snd navigating).
Proof.
  exists start, feed20s, [idle]. split; [reflexivity|].
  vm_compute. reflexivity.
Qed.

Lemma at_a_wall_reachable : reachable 9 (fst at_a_wall) (snd at_a_wall).
Proof.
  exists start, feed20s, (idle :: repeat (holding K_s) 17).
  split; [reflexivity|]. vm_compute. reflexivity.
Qed.

Lemma with_projectile_reachable :
  reachable 9 (fst with_projectile) (snd with_projectile).
Proof.
  exists start, feed250, (repeat (mkInput no_keys [] [] lane169) 9).
  split; [reflexivity|]. vm_compute. reflexivity.
Qed.

Lemma start_reachable : reachable 9 start (host0 feed16).
Proof.
  exists start, feed16, []. split; reflexivity.
Qed.

Lemma X14_rosters_follow_the_phase_witness :
  (game_state (fst navigating) = Some 1%Z \/
   game_state (fst navigating) = Some 2%Z \/
   game_state (fst navigating) = None) /\
  (game_state (fst navigating) = Some 1%Z -> countdown_rosters (fst navigating)) /\
  (game_state (fst navigating) = Some 2%Z -> navigation_rosters (fst navigating)).
Proof.
  apply (X14_rosters_follow_the_phase 9 (fst navigating) (snd navigating)).
  exact navigating_reachable.
Defined.

(** X15: a frame that starts in phase 1 ends in phase 2 exactly when the
    tick of the countdown Timer brings its remaining time to zero or below,
    also when quitting was requested in that frame; otherwise it ends in
    phase 1, or with [game_state] [None] when quitting was requested. *)
Theorem X15_countdown_ends_when_the_timer_expires :
  forall (rows : nat) (v : Vars) (h : Host) (inp : Input),
    (4 <= rows <= 9)%nat ->
    reachable rows v h ->
    game_state v = Some 1%Z ->
    exists (t : Timer.t) (v' : Vars) (h' : Host),
      nth_error (heap v) (timer v) = Some (OTimer t) /\
      0 < Timer.time t /\
      frame inp v h = Ok (v', h') /\
      game_state v' =
        if Qleb (Timer.time t - seconds (next_reading h)) 0 then Some 2%Z
        else if keys inp K_ESCAPE || existsb is_quit (posted_late inp)
             then None else Some 1%Z.
Proof.
  intros rows v h inp Hrows Hreach G.
  destruct (reachable_wf rows v h Hrows Hreach) as [(Hr & _) _].
  assert (Hc : countdown_rosters v).
  { destruct (reachable_phased rows v h Hreach) as [(_ & C)|[(G' & _)|(G' & _)]];
      [exact C | congruence | congruence]. }
  destruct (frame_returns rows inp v h Hrows Hreach) as (v' & h' & E).
  destruct (frame_story inp v h v' h' E)
    as (v1 & h1 & tr & cb & E1 & _ & _ & _ & _ & G' & _ & N & M).
  set (q := keys inp K_ESCAPE || existsb is_quit (posted_late inp)) in *.
  set (goal := colliderect _ _) in *.
  destruct (tick_timer_phase _ _ _ _ E1) as (TC & _ & _).
  assert (Hc0 : countdown_rosters (if q then set_game_state v None else v))
    by (destruct q; exact Hc).
  destruct (TC Hc0) as (t & Et & Hf).
  assert (Et' : nth_error (heap v) (timer v) = Some (OTimer t))
    by (destruct q; exact Et).
  assert (Hpos : 0 < Timer.time t).
  { pose proof (wr_timer v Hr) as Hclk. unfold is_clock in Hclk.
    rewrite Et' in Hclk. exact Hclk. }
  exists t, v', h'. split; [exact Et'|]. split; [exact Hpos|]. split; [exact E|].
  rewrite (fired_running t _ Hpos) in Hf.
  change (next_reading (mkHost (clock_feed h) (clock_calls h) [] _))
    with (next_reading h) in Hf.
  destruct (Qleb (Timer.time t - seconds (next_reading h)) 0).
  - destruct Hf as (G1 & N1 & X1 & Y1).
    assert (I1 : game_state_is v1 1 = false)
      by (unfold game_state_is; rewrite G1; reflexivity).
    assert (I2 : game_state_is v1 2 = true)
      by (unfold game_state_is; rewrite G1; reflexivity).
    destruct (N I1 N1) as (_ & _ & (_ & _ & _ & Hh)).
    rewrite I2 in G', Hh. cbn [andb] in Hh.
    assert (F : goal = false).
    { unfold goal. rewrite Hh.
      destruct (touches_wall (Player.hitbox (player v1)));
        apply restart_step; solve [reflexivity | assumption]. }
    rewrite F in G'. exact G'.
  - destruct Hf as (G1 & _ & _).
    assert (G0 : game_state (if q then set_game_state v None else v)
                 = if q then None else Some 1%Z)
      by (destruct q; [reflexivity | exact G]).
    rewrite G0 in G1.
    assert (I : game_state_is v1 2 = false /\ game_state_is v1 3 = false).
    { unfold game_state_is. rewrite G1. destruct q; auto. }
    destruct I as (I2 & I3). rewrite I2, I3, G1 in G'. exact G'.
Qed.

Lemma X15_countdown_ends_when_the_timer_expires_witness :
  exists (t : Timer.t) (v' : Vars) (h' : Host),
    nth_error (heap start) (timer start) = Some (OTimer t) /\
    0 < Timer.time t /\
    frame idle start (host0 feed16) = Ok (v', h') /\
    game_state v' =
      if Qleb (Timer.time t - seconds (next_reading (host0 feed16))) 0
      then Some 2%Z
      else if keys idle K_ESCAPE || existsb is_quit (posted_late idle)
           then None else Some 1%Z.
Proof.
  apply (X15_countdown_ends_when_the_timer_expires 9 start (host0 feed16) idle).
  - lia.
  - exact start_reachable.
  - reflexivity.
Defined.

(** X16: a frame that starts in phase 2 ends with [game_state] [None]
    exactly when quitting was requested or the hitbox of the Player, as
    the frame leaves it, overlaps the goal zone; otherwise it stays in
    phase 2.  ["End"] is printed exactly when the goal zone was reached in
    a frame without a quit request. *)
Theorem X16_navigation_ends_at_the_goal :
  forall (rows : nat) (v : Vars) (h : Host) (inp : Input),
    (4 <= rows <= 9)%nat ->
    reachable rows v h ->
    game_state v = Some 2%Z ->
    exists (v' : Vars) (h' : Host) (tr : list Step),
      frame inp v h = Ok (v', h') /\
      trace h' = trace h ++ tr /\
      let quit := keys inp K_ESCAPE || existsb is_quit (posted_late inp) in
      let goal := colliderect (Player.hitbox (player v'))
                    (EndZone.hitbox end_zone) in
      game_state v' = (if quit || goal then None else Some 2%Z) /\
      (In SPrintEnd tr <-> quit = false /\ goal = true).
Proof.
  intros rows v h inp Hrows Hreach G.
  assert (Hn : navigation_rosters v).
  { destruct (reachable_phased rows v h Hreach) as [(G' & _)|[(_ & N)|(G' & _)]];
      [congruence | exact N | congruence]. }
  destruct (frame_returns rows inp v h Hrows Hreach) as (v' & h' & E).
  destruct (frame_story inp v h v' h' E)
    as (v1 & h1 & tr & cb & E1 & T & _ & _ & P & G' & _ & _ & M).
  exists v', h', tr. split; [exact E|]. split; [exact T|]. cbv zeta.
  set (q := keys inp K_ESCAPE || existsb is_quit (posted_late inp)) in *.
  set (goal := colliderect _ _) in *.
  destruct (tick_timer_phase _ _ _ _ E1) as (_ & TN & _).
  assert (Hn0 : navigation_rosters (if q then set_game_state v None else v))
    by (destruct q; exact Hn).
  destruct (TN Hn0) as (G1 & _ & _).
  assert (G0 : game_state (if q then set_game_state v None else v)
               = if q then None else Some 2%Z)
    by (destruct q; [reflexivity | exact G]).
  rewrite G0 in G1.
  assert (I : game_state_is v1 2 = negb q /\ game_state_is v1 3 = false).
  { unfold game_state_is. rewrite G1. destruct q; auto. }
  destruct I as (I2 & I3). rewrite I2, I3 in G', P. rewrite orb_false_r in P.
  destruct q; cbn [negb orb andb] in *.
  - rewrite G1 in G'. split; [exact G'|].
    rewrite P. split; [discriminate | intros (F & _); discriminate].
  - split; [exact G'|]. rewrite P. split; auto. intros (_ & F). exact F.
Qed.

Lemma X16_navigation_ends_at_the_goal_witness :
  exists (v' : Vars) (h' : Host) (tr : list Step),
    frame idle (fst navigating) (snd navigating) = Ok (v', h') /\
    trace h' = trace (snd navigating) ++ tr /\
    let quit := keys idle K_ESCAPE || existsb is_quit (posted_late idle) in
    let goal := colliderect (Player.hitbox (player v'))
                  (EndZone.hitbox end_zone) in
    game_state v' = (if quit || goal then None else Some 2%Z) /\
    (In SPrintEnd tr <-> quit = false /\ goal = true).
Proof.
  apply (X16_navigation_ends_at_the_goal 9 (fst navigating) (snd navigating) idle).
  - lia.
  - exact navigating_reachable.
  - reflexivity.
Defined.

(** X17: a frame that ends in phase 1 tests the Player against
    projectiles only, never against a wall or the goal zone; a frame that
    ends in phase 2 tests it against every wall once, in the order of
    [walls], then against the goal zone, and against no projectile. *)
Theorem X17_checks_follow_the_phase :
  forall (rows : nat) (v : Vars) (h : Host) (inp : Input),
    (4 <= rows <= 9)%nat ->
    reachable rows v h ->
    exists (v' : Vars) (h' : Host) (tr : list Step),
      frame inp v h = Ok (v', h') /\
      trace h' = trace h ++ tr /\
      (game_state v' = Some 1%Z -> Forall is_bullet_check (checked tr)) /\
      (game_state v' = Some 2%Z ->
       checked tr = map CWall (seq 0 (length walls)) ++ [CEndZone]).
Proof.
  intros rows v h inp Hrows Hreach.
  pose proof (reachable_phased rows v h Hreach) as Hph.
  destruct (frame_returns rows inp v h Hrows Hreach) as (v' & h' & E).
  destruct (frame_story inp v h v' h' E)
    as (v1 & h1 & tr & cb & E1 & T & K & B & _ & G' & _ & N & M).
  exists v', h', tr. split; [exact E|]. split; [exact T|].
  set (q := keys inp K_ESCAPE || existsb is_quit (posted_late inp)) in *.
  set (goal := colliderect _ _) in *.
  destruct (tick_timer_phase _ _ _ _ E1) as (TC & TN & _).
  assert (Sc : countdown_rosters v ->
               countdown_rosters (if q then set_game_state v None else v))
    by (destruct q; auto).
  assert (Sn : navigation_rosters v ->
               navigation_rosters (if q then set_game_state v None else v))
    by (destruct q; auto).
  assert (Nav : game_state_is v1 2 = true -> cb = []).
  { intros I2.
    assert (I1 : game_state_is v1 1 = false).
    { apply game_state_is_true in I2. unfold game_state_is. rewrite I2.
      reflexivity. }
    destruct (phased_quit v q Hph) as [(Hc & G0 & Gv)|(Hn & G0 & Gv)].
    - destruct (TC (Sc Hc)) as (t & _ & Hf).
      destruct (Timer.fired _).
      + destruct Hf as (_ & N1 & _). apply (N I1 N1).
      + destruct Hf as (G1 & _). rewrite G0 in G1.
        apply game_state_is_true in I2. rewrite I2 in G1.
        destruct q; [discriminate|]. destruct Gv; congruence.
    - destruct (TN (Sn Hn)) as (_ & N1 & _). apply (N I1 N1). }
  destruct (game_state_is v1 2) eqn:I2.
  - rewrite (Nav eq_refl) in K. cbn [app] in K.
    split; [|intros _; exact K].
    intros G1. rewrite G1 in G'. destruct goal; discriminate.
  - cbn [app] in K. rewrite app_nil_r in K.
    split; [intros _; rewrite K; exact B|].
    intros G2. rewrite G2 in G'.
    destruct (game_state_is v1 3) eqn:I3; [discriminate|].
    symmetry in G'. unfold game_state_is in I2. rewrite G' in I2. discriminate.
Qed.

Lemma X17_checks_follow_the_phase_witness :
  exists (v' : Vars) (h' : Host) (tr : list Step),
    frame idle (fst navigating) (snd navigating) = Ok (v', h') /\
    trace h' = trace (snd navigating) ++ tr /\
    (game_state v' = Some 1%Z -> Forall is_bullet_check (checked tr)) /\
    (game_state v' = Some 2%Z ->
     checked tr = map CWall (seq 0 (length walls)) ++ [CEndZone]).
Proof.
  apply (X17_checks_follow_the_phase 9 (fst navigating) (snd navigating) idle).
  - lia.
  - exact navigating_reachable.
Defined.

(** X18: in a frame of phase 2 without a quit request the Player ends
    where [key_move] and [move] take it, starting from its own state when
    its hitbox overlaps no wall as the frame begins, and from the restart
    point (50, 50) with velocity zero when it overlaps one; in that case
    it ends within three units of (50, 50) and the frame stays in phase
    2. *)
Theorem X18_wall_contact_restarts_the_player :
  forall (rows : nat) (v : Vars) (h : Host) (inp : Input),
    (4 <= rows <= 9)%nat ->
    reachable rows v h ->
    game_state v = Some 2%Z ->
    keys inp K_ESCAPE || existsb is_quit (posted_late inp) = false ->
    exists (v' : Vars) (h' : Host),
      frame inp v h = Ok (v', h') /\
      let from :=
        if touches_wall (Player.hitbox (player v))
        then Player.set_velocity (Player.set_position (player v) 50 50)
               (Vector.mk 0 0)
        else player v in
      let p := Player.move (Player.key_move from (keys inp)) in
      Player.x (player v') = Player.x p /\
      Player.y (player v') = Player.y p /\
      Player.velocity_vector (player v') = Player.velocity_vector p /\
      Player.hitbox (player v') = Player.hitbox p /\
      (touches_wall (Player.hitbox (player v)) = true ->
       47 <= Player.x (player v') <= 53 /\ 47 <= Player.y (player v') <= 53 /\
       game_state v' = Some 2%Z).
Proof.
  intros rows v h inp Hrows Hreach G Hq.
  assert (Hn : navigation_rosters v).
  { destruct (reachable_phased rows v h Hreach) as [(G' & _)|[(_ & N)|(G' & _)]];
      [congruence | exact N | congruence]. }
  destruct (frame_returns rows inp v h Hrows Hreach) as (v' & h' & E).
  destruct (frame_story inp v h v' h' E)
    as (v1 & h1 & tr & cb & E1 & _ & _ & _ & _ & G' & _ & N & M).
  exists v', h'. split; [exact E|]. cbv zeta.
  rewrite Hq in *.
  set (goal := colliderect _ _) in *.
  destruct (tick_timer_phase _ _ _ _ E1) as (_ & TN & _).
  destruct (TN Hn) as (G1 & N1 & P1).
  rewrite G in G1.
  assert (I1 : game_state_is v1 1 = false)
    by (unfold game_state_is; rewrite G1; reflexivity).
  assert (I2 : game_state_is v1 2 = true)
    by (unfold game_state_is; rewrite G1; reflexivity).
  destruct (N I1 N1) as (_ & _ & Hs). rewrite I2 in Hs, G'. cbn [andb] in Hs.
  rewrite P1 in Hs.
  change (player (on_player_wall_collide v1))
    with (Player.set_velocity (Player.set_position (player v1) 50 50)
            (Vector.mk 0 0)) in Hs.
  rewrite P1 in Hs.
  destruct Hs as (Sx & Sy & Sv & Sh).
  split; [exact Sx|]. split; [exact Sy|]. split; [exact Sv|]. split; [exact Sh|].
  intros Ht. rewrite Ht in *.
  set (from := Player.set_velocity (Player.set_position (player v) 50 50)
                 (Vector.mk 0 0)) in *.
  destruct (restart_step from (keys inp) eq_refl eq_refl) as (Rx & Ry & _ & _ & Rg).
  pose proof (settle_bounds (Player.accelerate (Player.acceleration_vector from)
                               (keys inp) (Player.velocity_vector from))) as B.
  pose proof (key_move_velocity from (keys inp)) as Ev.
  cbn zeta in B, Ev. rewrite <- Ev in B. unfold Player.MAX_SPEED in B.
  destruct B as (Bx & By).
  rewrite Sx, Sy.
  split; [lra|]. split; [lra|].
  assert (F : goal = false) by (unfold goal; rewrite Sh; exact Rg).
  rewrite F in G'. exact G'.
Qed.

(** The Player pressed against the wall at (0, 100). *)
Lemma X18_wall_contact_restarts_the_player_witness :
  touches_wall (Player.hitbox (player (fst at_a_wall))) = true /\
  exists (v' : Vars) (h' : Host),
    frame (holding K_s) (fst at_a_wall) (snd at_a_wall) = Ok (v', h') /\
    let from :=
      if touches_wall (Player.hitbox (player (fst at_a_wall)))
      then Player.set_velocity (Player.set_position (player (fst at_a_wall)) 50 50)
             (Vector.mk 0 0)
      else player (fst at_a_wall) in
    let p := Player.move (Player.key_move from (keys (holding K_s))) in
    Player.x (player v') = Player.x p /\
    Player.y (player v') = Player.y p /\
    Player.velocity_vector (player v') = Player.velocity_vector p /\
    Player.hitbox (player v') = Player.hitbox p /\
    (touches_wall (Player.hitbox (player (fst at_a_wall))) = true ->
     47 <= Player.x (player v') <= 53 /\ 47 <= Player.y (player v') <= 53 /\
     game_state v' = Some 2%Z).
Proof.
  split; [vm_compute; reflexivity|].
  apply (X18_wall_contact_restarts_the_player 9 (fst at_a_wall) (snd at_a_wall)
           (holding K_s)).
  - lia.
  - exact at_a_wall_reachable.
  - vm_compute. reflexivity.
  - reflexivity.
Defined.

(** X19: in a frame that ends in phase 1, [key_move] and [move] are
    applied to the Player once, and every projectile listed when the frame
    begins is moved exactly once, hit or not. *)
Theorem X19_countdown_frame_moves_each_object_once :
  forall (rows : nat) (v : Vars) (h : Host) (inp : Input),
    (4 <= rows <= 9)%nat ->
    reachable rows v h ->
    exists (v' : Vars) (h' : Host),
      frame inp v h = Ok (v', h') /\
      (game_state v' = Some 1%Z ->
       let p := Player.move (Player.key_move (player v) (keys inp)) in
       (Player.x (player v') = Player.x p /\
        Player.y (player v') = Player.y p /\
        Player.velocity_vector (player v') = Player.velocity_vector p /\
        Player.hitbox (player v') = Player.hitbox p) /\
       forall r, In r (bullets v) ->
         exists b, nth_error (heap v) r = Some (OBullet b) /\
                   nth_error (heap v') r = Some (OBullet (TextBullet.move b))).
Proof.
  intros rows v h inp Hrows Hreach.
  destruct (reachable_wf rows v h Hrows Hreach) as [(Hr & _) _].
  pose proof (reachable_phased rows v h Hreach) as Hph.
  destruct (frame_returns rows inp v h Hrows Hreach) as (v' & h' & E).
  exists v', h'. split; [exact E|]. intros G1 p.
  destruct (frame_story inp v h v' h' E)
    as (v1 & h1 & tr & cb & E1 & _ & _ & _ & _ & G' & _ & _ & M).
  set (q := keys inp K_ESCAPE || existsb is_quit (posted_late inp)) in *.
  set (goal := colliderect _ _) in *.
  set (v0 := if q then set_game_state v None else v) in *.
  assert (F0 : heap v0 = heap v /\ timer v0 = timer v /\ bullets v0 = bullets v /\
               player v0 = player v /\
               (countdown_rosters v -> countdown_rosters v0) /\
               (navigation_rosters v -> navigation_rosters v0))
    by (unfold v0; destruct q; cbn; auto 10).
  destruct F0 as (Eh0 & Et0 & Eb0 & Ep0 & Sc & Sn).
  (* the frame ends in phase 1: the countdown Timer ran and did not fire *)
  assert (I2 : game_state_is v1 2 = false).
  { destruct (game_state_is v1 2); [|reflexivity].
    rewrite G1 in G'. destruct goal; discriminate. }
  rewrite I2 in G'.
  assert (I3 : game_state_is v1 3 = false).
  { destruct (game_state_is v1 3); [|reflexivity]. rewrite G1 in G'. discriminate. }
  rewrite I3 in G'. rewrite G1 in G'. symmetry in G'.
  pose proof (tick_timer_Ok _ _ _ _ E1) as (_ & [(t & Et & Ev1)|(s & Es & Ev1)]).
  2:{ (* a Stopwatch: the phase is not 1 *)
      exfalso. destruct (phased_quit v q Hph) as [(((t & Et) & _) & _)|(_ & G0 & Gv)].
      - rewrite Eh0, Et0 in Es. congruence.
      - fold v0 in G0. rewrite Ev1 in G'. cbn [game_state set_heap] in G'.
        rewrite G0 in G'. destruct q; [discriminate|].
        destruct Gv; congruence. }
  cbv zeta in Ev1.
  destruct (Timer.fired (Timer.tick t (next_reading _))).
  { exfalso. rewrite Ev1 in G'. discriminate. }
  assert (Hc : countdown_rosters v).
  { destruct (phased_quit v q Hph) as [(Hc & _)|(((s & Es) & _) & _)];
      [exact Hc|]. rewrite Eh0, Et0 in Et. congruence. }
  assert (Hc1 : countdown_rosters v1).
  { rewrite Ev1. apply countdown_store. apply Sc. exact Hc. }
  assert (Eb1 : bullets v1 = bullets v) by (rewrite Ev1; exact Eb0).
  assert (Ep1 : player v1 = player v) by (rewrite Ev1; exact Ep0).
  assert (El1 : length (heap v1) = length (heap v)).
  { rewrite Ev1. cbn [heap set_heap]. rewrite store_length, Eh0. reflexivity. }
  assert (Hbul : forall r, In r (bullets v) -> is_bullet (heap v) r).
  { intros r Hin. apply (wr_movables v Hr). apply (wr_bullets v Hr). exact Hin. }
  destruct (M I2 Hc1) as (Hs & Hm).
  - rewrite Eb1. apply (wr_nodup_bullets v Hr).
  - intros r Hin. rewrite Eb1 in Hin. rewrite El1.
    apply is_bullet_lt. apply Hbul. exact Hin.
  - split.
    + rewrite Ep1 in Hs. exact Hs.
    + intros r Hin. destruct (Hbul r Hin) as (b & Eb).
      exists b. split; [exact Eb|]. apply Hm; [rewrite Eb1; exact Hin|].
      rewrite Ev1. cbn [heap set_heap]. rewrite Eh0, Et0.
      rewrite nth_error_store_other; [exact Eb|].
      intros <-. rewrite Eh0, Et0 in Et. congruence.
Qed.

(** A state of phase 1 with two projectiles in flight. *)
Lemma X19_countdown_frame_moves_each_object_once_witness :
  bullets (fst with_projectile) = [1%nat; 2%nat] /\
  exists (v' : Vars) (h' : Host),
    frame (holding K_d) (fst with_projectile) (snd with_projectile) = Ok (v', h') /\
    (game_state v' = Some 1%Z ->
     let p := Player.move (Player.key_move (player (fst with_projectile))
                             (keys (holding K_d))) in
     (Player.x (player v') = Player.x p /\
      Player.y (player v') = Player.y p /\
      Player.velocity_vector (player v') = Player.velocity_vector p /\
      Player.hitbox (player v') = Player.hitbox p) /\
     forall r, In r (bullets (fst with_projectile)) ->
       exists b, nth_error (heap (fst with_projectile)) r = Some (OBullet b) /\
                 nth_error (heap v') r = Some (OBullet (TextBullet.move b))).
Proof.
  split; [vm_compute; reflexivity|].
  apply (X19_countdown_frame_moves_each_object_once 9 (fst with_projectile)
           (snd with_projectile) (holding K_d)).
  - lia.
  - exact with_projectile_reachable.
Defined.

(* ===================================================================== *)
(** * Part V: the hitbox and the position *)
(* ===================================================================== *)

(** ** C9: the hitbox and the position *)




(** The same frame with the A key held: the Player ends at (49.8, 50),
    with the hitbox (25, 26, 48, 48). *)
Lemma restart_with_a_key_held :
  match frame (holding K_a) (fst at_a_wall) (snd at_a_wall) with
  | Ok (v', _) =>
      Player.x (player v') == 498 # 10 /\
      Player.y (player v') == 50 /\
      Player.hitbox (player v') = mkRect 25 26 48 48
  | Raise _ => False
  end.
Proof. vm_compute. repeat split. Qed.

(** Between a teleport and the next [move] the hitbox is the one of the
    position the Player had before: neither [on_player_wall_collide] nor
    [on_state_change] writes it.  On the frame of the phase change from the
    start state the wall checks therefore run against the hitbox at
    (200, 200), and report hits on walls 1 and 2 for a Player whose
    position is (50, 50). *)
Lemma teleports_leave_the_hitbox :
  (forall v : Vars,
     Player.hitbox (player (on_player_wall_collide v)) = Player.hitbox (player v) /\
     Player.hitbox (player (on_state_change v)) = Player.hitbox (player v)) /\
  match frame idle start (host0 (fun _ => 20000%Z)) with
  | Ok (v', h') =>
      game_state v' = Some 2%Z /\
      firstn 3 (filter is_collide_step (trace h'))
      = [SCollide (CWall 0) false; SCollide (CWall 1) true;
         SCollide (CWall 2) true]
  | Raise _ => False
  end.
Proof.
  split; [intros v; split; reflexivity|].
  vm_compute. split; reflexivity.
Qed.
